(** * sce-hacks backend: a shallow embedding of the OpenAPI generation pipeline

    The development follows the layout of [backend/core]: one module per
    source file ([normalize.py], [types.py], [reader.py], [spec.py],
    [searcher.py], [indexer.py], [llm.py], [gitops.py]) and one for the
    orchestrator [app.py].  The definitions come first; the properties,
    one module of facts per source module, follow them.

    Python strings are sequences of Unicode code points, modelled as lists
    of [N].  Library functions the code relies on ([str.strip], [re.sub],
    [re.findall], list slicing, [dict] access) are modelled once, in the
    first modules, and used by the embeddings of the source functions. *)

From Corelib Require Import SpecFloat.
From Stdlib Require Import Strings.Byte.
From Stdlib Require Import String Ascii NArith ZArith Bool Lia Arith List.
From Stdlib Require Import Sorting.Sorted.
From Stdlib Require Import DecimalString.
Import ListNotations.

(* ================================================================= *)
(** ** Python strings *)

Module PyStr.

Local Open Scope N_scope.

Definition str := list N.

Definition ch (a : ascii) : N := N_of_ascii a.

Definition lit (s : string) : str := map ch (list_ascii_of_string s).

Fixpoint str_eqb (a b : str) : bool :=
  match a, b with
  | [], [] => true
  | x :: a', y :: b' => N.eqb x y && str_eqb a' b'
  | _, _ => false
  end.

(** [str.isspace] on one character: the code points CPython's
    [_PyUnicode_IsWhitespace] accepts. *)
Definition is_space (c : N) : bool :=
  ((9 <=? c) && (c <=? 13)) || ((28 <=? c) && (c <=? 32))
  || (c =? 133) || (c =? 160) || (c =? 5760)
  || ((8192 <=? c) && (c <=? 8202))
  || (c =? 8232) || (c =? 8233) || (c =? 8239) || (c =? 8287)
  || (c =? 12288).

Fixpoint drop_while (f : N -> bool) (s : str) : str :=
  match s with
  | [] => []
  | x :: t => if f x then drop_while f t else s
  end.

Fixpoint take_while (f : N -> bool) (s : str) : str :=
  match s with
  | [] => []
  | x :: t => if f x then x :: take_while f t else []
  end.

(** [s.rstrip(chars)]: drop the longest suffix made of [f]-characters. *)
Fixpoint rstrip_by (f : N -> bool) (s : str) : str :=
  match s with
  | [] => []
  | x :: t =>
      match rstrip_by f t with
      | [] => if f x then [] else [x]
      | t' => x :: t'
      end
  end.

(** [s.strip()] *)
Definition strip (s : str) : str := rstrip_by is_space (drop_while is_space s).

(** [s.startswith(c)] for a one-character prefix. *)
Definition starts_with_char (c : N) (s : str) : bool :=
  match s with
  | x :: _ => N.eqb x c
  | [] => false
  end.

(** Predicates on strings used to state properties of paths. *)
Definition hd_is (g : N -> bool) (s : str) : bool :=
  match s with
  | x :: _ => g x
  | [] => false
  end.

Fixpoint last_is (f : N -> bool) (s : str) : bool :=
  match s with
  | [] => false
  | x :: t => match t with [] => f x | _ :: _ => last_is f t end
  end.

(** No character satisfying [f] is directly followed by one satisfying [g]. *)
Fixpoint no_pair (f g : N -> bool) (s : str) : bool :=
  match s with
  | [] => true
  | x :: t => negb (f x && hd_is g t) && no_pair f g t
  end.

Fixpoint count_if (f : N -> bool) (s : str) : nat :=
  match s with
  | [] => O
  | x :: t => (if f x then 1 else 0) + count_if f t
  end.

(** [a] is a prefix of [b]; [needle in hay] for two strings. *)
Fixpoint is_prefix_of (a b : str) : bool :=
  match a, b with
  | [], _ => true
  | x :: a', y :: b' => N.eqb x y && is_prefix_of a' b'
  | _ :: _, [] => false
  end.

Fixpoint is_substring (needle hay : str) : bool :=
  is_prefix_of needle hay
  || match hay with [] => false | _ :: t => is_substring needle t end.

Definition is_upper (c : N) : bool := (65 <=? c) && (c <=? 90).
Definition is_lower (c : N) : bool := (97 <=? c) && (c <=? 122).
Definition is_digit (c : N) : bool := (48 <=? c) && (c <=? 57).

End PyStr.
Export PyStr.

(* ================================================================= *)
(** ** Python values, exceptions and the library interface *)

Module Py.

(** Exceptions the modelled code can raise or catch. *)
Inductive exn : Type :=
| KeyError
| TypeError
| AttributeError
| RuntimeError      (* GEMINI_API_KEY not set *)
| JSONDecodeError
| ValidationError   (* pydantic *)
| OSError
| ValueError
| ApiError          (* raised by the LLM client *)
| GitError.         (* raised by the clone *)

Inductive result (A : Type) : Type :=
| Ok (a : A)
| Raise (e : exn).
Arguments Ok {A} a.
Arguments Raise {A} e.

Definition bind {A B : Type} (m : result A) (k : A -> result B) : result B :=
  match m with
  | Ok a => k a
  | Raise e => Raise e
  end.

Notation "x <- m ;; k" := (bind m (fun x => k))
  (at level 61, m at next level, right associativity).


(** Dynamically typed values: what [json.loads] returns and what the
    [Dict[str, Any]] documents of [spec.py] hold.  Dicts keep insertion
    order; their keys are strings. *)
#[warnings="-register-all"]
Inductive value : Type :=
| VNone
| VBool (b : bool)
| VInt (z : Z)
| VFloat (f : spec_float)
| VStr (s : str)
| VList (l : list value)
| VDict (d : list (str * value)).

Definition dict := list (str * value).

(** [d.get(k)] *)
Fixpoint dict_get (d : dict) (k : str) : option value :=
  match d with
  | [] => None
  | (k', v) :: d' => if str_eqb k' k then Some v else dict_get d' k
  end.

(** [d[k] = v]: the value of an existing key is replaced in place, a new
    key is appended. *)
Fixpoint dict_set (d : dict) (k : str) (v : value) : dict :=
  match d with
  | [] => [(k, v)]
  | (k', v') :: d' =>
      if str_eqb k' k then (k', v) :: d' else (k', v') :: dict_set d' k v
  end.

(** [d[k]] *)
Definition getitem (d : dict) (k : str) : result value :=
  match dict_get d k with
  | Some v => Ok v
  | None => Raise KeyError
  end.

(** [k in d] *)
Definition dict_has (d : dict) (k : str) : bool :=
  match dict_get d k with Some _ => true | None => false end.

(** Truth value of an object, as [or] and [if] test it. *)
Definition truthy (v : value) : bool :=
  match v with
  | VNone => false
  | VBool b => b
  | VInt z => negb (Z.eqb z 0)
  | VFloat f => match f with S754_zero _ => false | _ => true end
  | VStr s => match s with [] => false | _ => true end
  | VList l => match l with [] => false | _ => true end
  | VDict d => match d with [] => false | _ => true end
  end.

(** [x or y], with [x] the result of a [dict.get]. *)
Definition get_or (x : option value) (y : value) : value :=
  match x with
  | Some v => if truthy v then v else y
  | None => y
  end.

(** Library functions that are taken as given: Unicode case mapping,
    the JSON decoder, the regular-expression compiler (with
    [re.IGNORECASE]; [None] stands for [re.error]), UTF-8 decoding with
    [errors="ignore"], the OpenAPI validator ([Some msg] when
    [validate_spec] raises), pydantic's conversion of an input to an
    [int] field, the path component of a URL, and [str(x)] for an [x] that
    is not a string. *)
Class PyLib : Type := {
  str_lower : str -> str;
  str_upper : str -> str;
  json_loads : str -> result value;
  re_compile_ignorecase : str -> option (str -> bool);
  decode_utf8_ignore : list byte -> str;
  validate_spec : value -> option str;
  pydantic_int : value -> option Z;
  urlparse_path : str -> str;
  py_str : value -> str
}.

(** [l[a:b]] for a list and integers [a], [b] (negative indices count
    from the end, out-of-range ones are clamped). *)
Definition slice_index (n i : Z) : Z :=
  if (i <? 0)%Z then Z.max (i + n) 0 else Z.min i n.

Definition py_slice {A : Type} (l : list A) (a b : Z) : list A :=
  let n := Z.of_nat (length l) in
  let a' := slice_index n a in
  let b' := slice_index n b in
  firstn (Z.to_nat (b' - a')) (skipn (Z.to_nat a') l).

(** [l[a:]] and [l[:b]] *)
Definition py_slice_from {A : Type} (l : list A) (a : Z) : list A :=
  py_slice l a (Z.of_nat (length l)).
Definition py_slice_to {A : Type} (l : list A) (b : Z) : list A :=
  py_slice l 0 b.

(** [posixpath.isabs] and [posixpath.join] for two components. *)
Definition isabs (p : str) : bool := starts_with_char (ch "/") p.

Definition path_join (a b : str) : str :=
  if starts_with_char (ch "/") b then b
  else match a with
       | [] => b
       | _ :: _ => if last_is (N.eqb (ch "/")) a then a ++ b else a ++ lit "/" ++ b
       end.

(** [s.endswith(suffix)] *)
Definition ends_with (suffix s : str) : bool :=
  str_eqb (skipn (length s - length suffix) s) suffix
  && (length suffix <=? length s)%nat.

End Py.
Export Py.

(* ================================================================= *)
(** ** The fragment of Python's [re] the code uses

    Every pattern of [normalize.py] is a sequence of single characters or
    character classes, some of them under a greedy [*] or [+], with at most
    one capturing group around a [class+].  The matcher below is the usual
    backtracking one for that fragment: a quantified class first takes as
    many characters as it can and gives them back one by one while the rest
    of the pattern fails. *)

Module Re.

Definition cls := N -> bool.

Inductive atom : Type :=
| One (c : cls)    (* [c] *)
| Star (c : cls)   (* [c]* *)
| Plus (c : cls)   (* [c]+ *)
| Cap (c : cls).   (* ([c]+) *)

Definition regex := list atom.

(** Greedy iteration of class [c] followed by the continuation [k]:
    the longest run first, then shorter ones. Returns the run taken. *)
Fixpoint star_then {A : Type} (c : cls) (k : str -> option A) (s : str)
  : option (str * A) :=
  match s with
  | x :: t =>
      if c x then
        match star_then c k t with
        | Some (m, r) => Some (x :: m, r)
        | None => option_map (pair []) (k s)
        end
      else option_map (pair []) (k s)
  | [] => option_map (pair []) (k [])
  end.

(** [match_here re s]: match [re] at the start of [s]; on success the
    captured groups (left to right) and the unmatched rest of [s]. *)
Fixpoint match_here (re : regex) (s : str) : option (list str * str) :=
  match re with
  | [] => Some ([], s)
  | One c :: re' =>
      match s with
      | x :: t => if c x then match_here re' t else None
      | [] => None
      end
  | Star c :: re' => option_map snd (star_then c (match_here re') s)
  | Plus c :: re' =>
      match s with
      | x :: t =>
          if c x then option_map snd (star_then c (match_here re') t)
          else None
      | [] => None
      end
  | Cap c :: re' =>
      match s with
      | x :: t =>
          if c x then
            match star_then c (match_here re') t with
            | Some (m, (gs, rest)) => Some ((x :: m) :: gs, rest)
            | None => None
            end
          else None
      | [] => None
      end
  end.

(** Replacement templates: literal text and group references [\n]. *)
Inductive titem : Type :=
| TLit (s : str)
| TRef (n : nat).

Definition template := list titem.

Definition group (gs : list str) (n : nat) : str := nth (n - 1) gs [].

Definition expand (tpl : template) (gs : list str) : str :=
  concat (map (fun i => match i with TLit s => s | TRef n => group gs n end) tpl).

(** [re.sub(re, tpl, s)]: leftmost non-overlapping matches, scanning from
    left to right; the search resumes where the last match ended. A match
    that consumes nothing is replaced and the scan moves one character on
    (no pattern of this program matches the empty string). The fuel is the
    number of positions of [s] plus one, which the scan never exhausts. *)
Fixpoint sub_from (fuel : nat) (re : regex) (tpl : template) (s : str) : str :=
  match fuel with
  | O => s
  | S n =>
      match match_here re s with
      | Some (gs, rest) =>
          if (length rest <? length s)%nat then expand tpl gs ++ sub_from n re tpl rest
          else expand tpl gs ++
               match s with [] => [] | x :: t => x :: sub_from n re tpl t end
      | None =>
          match s with [] => [] | x :: t => x :: sub_from n re tpl t end
      end
  end.

Definition sub (re : regex) (tpl : template) (s : str) : str :=
  sub_from (S (length s)) re tpl s.

(** [re.findall(re, s)] for a pattern with one group: the group of each
    match, in the order of the matches. *)
Fixpoint findall_from (fuel : nat) (re : regex) (s : str) : list str :=
  match fuel with
  | O => []
  | S n =>
      match match_here re s with
      | Some (gs, rest) =>
          group gs 1 ::
          (if (length rest <? length s)%nat then findall_from n re rest
           else match s with [] => [] | _ :: t => findall_from n re t end)
      | None =>
          match s with [] => [] | _ :: t => findall_from n re t end
      end
  end.

Definition findall (re : regex) (s : str) : list str :=
  findall_from (S (length s)) re s.

(** [re.search(re, s) is not None]: some suffix of [s] starts with a match. *)
Fixpoint search (re : regex) (s : str) : bool :=
  match match_here re s with
  | Some _ => true
  | None => match s with [] => false | _ :: t => search re t end
  end.

(** [re.search(re, s).group(0)]: the text of the leftmost match. *)
Fixpoint search_group0 (re : regex) (s : str) : option str :=
  match match_here re s with
  | Some (_, rest) => Some (firstn (length s - length rest) s)
  | None => match s with [] => None | _ :: t => search_group0 re t end
  end.

(** Character classes. *)
Definition is_char (a : ascii) : cls := fun c => N.eqb c (ch a).
Definition not_char (a : ascii) : cls := fun c => negb (N.eqb c (ch a)).
Definition not_chars (a b : ascii) : cls :=
  fun c => negb (N.eqb c (ch a)) && negb (N.eqb c (ch b)).

End Re.

(* ================================================================= *)
(** ** core/normalize.py *)

Module Normalize.
Import Re.

(** [[A-Za-z0-9_]] *)
Definition name_char : cls :=
  fun c => is_upper c || is_lower c || is_digit c || N.eqb c (ch "_").

(** [:([A-Za-z0-9_]+)] *)
Definition colon_re : regex := [One (is_char ":"); Cap name_char].

(** [<[^:>]*:([^>]+)>] *)
Definition typed_re : regex :=
  [One (is_char "<"); Star (not_chars ":" ">"); One (is_char ":");
   Cap (not_char ">"); One (is_char ">")].

(** [<([^>]+)>] *)
Definition untyped_re : regex :=
  [One (is_char "<"); Cap (not_char ">"); One (is_char ">")].

(** [//+] *)
Definition slashes_re : regex := [One (is_char "/"); Plus (is_char "/")].

(** [_PARAM_RE = {([^}]+)}] *)
Definition _PARAM_RE : regex :=
  [One (is_char "{"); Cap (not_char "}"); One (is_char "}")].

(** The replacement [r"{\1}"]. *)
Definition brace_group : template := [TLit (lit "{"); TRef 1; TLit (lit "}")].

Definition normalize_path (raw : str) : str :=
  let p := strip raw in
  let p := if starts_with_char (ch "/") p then p else lit "/" ++ p in
  let p := sub colon_re brace_group p in
  let p := sub typed_re brace_group p in
  let p := sub untyped_re brace_group p in
  let p := sub slashes_re [TLit (lit "/")] p in
  p.

(** The descriptor built for one name. *)
Definition path_param (n : str) : value :=
  VDict [(lit "name", VStr n);
         (lit "in", VStr (lit "path"));
         (lit "required", VBool true);
         (lit "schema", VDict [(lit "type", VStr (lit "string"))])].

Definition extract_path_params (path : str) : list value :=
  let names := findall _PARAM_RE path in
  map path_param names.

End Normalize.

(* ================================================================= *)
(** ** core/types.py *)

Module Types.

Module FileIndex.
Record t : Type := mk { path : str; ext : str; size : Z; head : str; tail : str }.
End FileIndex.

Module SearchQuery.
Record t : Type := mk { regex : str; glob : str; why : str }.
End SearchQuery.

Module SearchPlan.
Record t : Type := mk { frameworks : list str; searches : list SearchQuery.t }.
End SearchPlan.

Module Match.
Record t : Type := mk {
  file : str; line : Z; match_ : str; before : list str; after : list str }.
End Match.

Module DiscoveredRoute.
Record t : Type := mk {
  method : str; raw_path : str; file : str; line : Z; evidence : list str }.
End DiscoveredRoute.

Module Enrichment.
Record t : Type := mk {
  summary : option str;
  auth : option str;
  requestBody : option dict;
  responses : option dict }.
End Enrichment.

Module RouteDef.
Record t : Type := mk {
  method : str;
  path : str;
  parameters : list value;
  requestBody : option dict;
  responses : dict;
  evidence : dict;
  summary : option str;
  auth : option str }.
End RouteDef.

Module Snippet.
Record t : Type := mk { file : str; start : Z; end_ : Z; text : str }.
End Snippet.

End Types.
Export Types.

(* ================================================================= *)
(** ** core/reader.py *)

Module Reader.

Section Reader.

(** [open(path, "r", encoding="utf-8", errors="ignore").readlines()]:
    the lines of the file, or the exception [open] raises. *)
Variable open_lines : str -> result (list str).

Definition _safe_read_lines (abs_path : str) : result (list str) :=
  open_lines abs_path.

Definition read_snippet (repo_dir file : str) (center_line radius : Z)
  : result Snippet.t :=
  let abs_path := if isabs file then file else path_join repo_dir file in
  lines <- _safe_read_lines abs_path ;;
  let start := Z.max 1 (center_line - radius) in
  let end_ := Z.min (Z.of_nat (length lines)) (center_line + radius) in
  let text := concat (py_slice lines (start - 1) end_) in
  Ok (Snippet.mk file start end_ text).

Definition read_file_section (repo_dir file : str) (start end_ : Z)
  : result Snippet.t :=
  let abs_path := if isabs file then file else path_join repo_dir file in
  lines <- _safe_read_lines abs_path ;;
  let start := Z.max 1 start in
  let end_ := Z.min (Z.of_nat (length lines)) end_ in
  let text := concat (py_slice lines (start - 1) end_) in
  Ok (Snippet.mk file start end_ text).

End Reader.

End Reader.

(* ================================================================= *)
(** ** core/spec.py *)

Module Spec.

Definition non_str : N := 1114112.

Definition int_key (z : Z) : str :=
  [non_str; if (z <? 0)%Z then 1%N else 0%N; Z.abs_N z].

(** [m * 2^e] with the factors 2 of [m] moved to a negative [e]. *)
Fixpoint odd_part (m : positive) (e : Z) : positive * Z :=
  match m with
  | xO m' => if (e <? 0)%Z then odd_part m' (e + 1) else (m, e)
  | _ => (m, e)
  end.

Definition float_key (f : spec_float) : str :=
  match f with
  | S754_zero _ => int_key 0
  | S754_infinity s => [(non_str + 1)%N; if s then 1%N else 0%N]
  | S754_nan => [(non_str + 2)%N]
  | S754_finite s m e =>
      let (m', e') := odd_part m e in
      if (e' <? 0)%Z
      then [(non_str + 4)%N; if s then 1%N else 0%N; Npos m'; Z.abs_N e']
      else int_key ((if s then -1 else 1) * Zpos m' * 2 ^ e')
  end.

Section Spec.

Context {L : PyLib}.

Definition build_openapi_skeleton (title version : str) (servers : option (list str))
  : dict :=
  [(lit "openapi", VStr (lit "3.0.3"));
   (lit "info", VDict [(lit "title", VStr title); (lit "version", VStr version)]);
   (lit "servers",
    VList (map (fun s => VDict [(lit "url", VStr s)])
               (match servers with
                | Some (x :: l) => x :: l
                | _ => [lit "http://localhost"]
                end)));
   (lit "paths", VDict [])].

(** The key an object is stored under. A string is its own key. A
    hashable object that is not a string is written as a key that starts
    with a number beyond the Unicode code points, so that it differs from
    every string; numbers that are equal ([1], [True], [1.0]) hash alike
    and get the same key (every NaN is taken to be the same object). A
    list or a dict is unhashable: [TypeError]. *)
Definition as_key (v : value) : result str :=
  match v with
  | VStr s => Ok s
  | VNone => Ok [(non_str + 3)%N]
  | VBool b => Ok (int_key (if b then 1 else 0))
  | VInt z => Ok (int_key z)
  | VFloat f => Ok (float_key f)
  | VList _ | VDict _ => Raise TypeError
  end.

(** [f"{x}"] *)
Definition format_value (v : value) : str :=
  match v with
  | VStr s => s
  | _ => py_str v
  end.

(** [spec["paths"].setdefault(path, {})] *)
Definition _ensure_path (spec : dict) (path : value) : result dict :=
  paths <- getitem spec (lit "paths") ;;
  match paths with
  | VDict p =>
      k <- as_key path ;;
      if dict_has p k then Ok spec
      else Ok (dict_set spec (lit "paths") (VDict (dict_set p k (VDict []))))
  | _ => Raise AttributeError
  end.

Definition permissive_object : value :=
  VDict [(lit "type", VStr (lit "object")); (lit "additionalProperties", VBool true)].

Definition _default_response : value :=
  VDict [(lit "description", VStr (lit "OK"));
         (lit "content",
          VDict [(lit "application/json", VDict [(lit "schema", permissive_object)])])].

(** [obj[k] = v] for a string [k]: only a dict takes it. *)
Definition setitem (obj : value) (k : str) (v : value) : result value :=
  match obj with
  | VDict d => Ok (VDict (dict_set d k v))
  | _ => Raise TypeError
  end.

(** [obj[k]] for a string [k]. *)
Definition subscript (obj : value) (k : str) : result value :=
  match obj with
  | VDict d => getitem d k
  | _ => Raise TypeError
  end.

Definition merge_route (spec route : dict) : result dict :=
  path <- getitem route (lit "path") ;;
  m <- getitem route (lit "method") ;;
  method <- match m with
            | VStr s => Ok (str_lower s)
            | _ => Raise AttributeError
            end ;;
  spec <- _ensure_path spec path ;;
  let shown := format_value path in
  path <- as_key path ;;
  let entry : dict :=
    [(lit "summary",
      get_or (dict_get route (lit "summary"))
             (VStr (str_upper method ++ lit " " ++ shown)));
     (lit "parameters", get_or (dict_get route (lit "parameters")) (VList []));
     (lit "responses",
      get_or (dict_get route (lit "responses"))
             (VDict [(lit "200", _default_response)]))] in
  let entry :=
    match dict_get route (lit "requestBody") with
    | None | Some VNone => entry
    | Some body =>
        dict_set entry (lit "requestBody")
          (VDict [(lit "required", VBool false);
                  (lit "content",
                   VDict [(lit "application/json", VDict [(lit "schema", body)])])])
    end in
  (* spec["paths"][path][method] = entry *)
  paths <- getitem spec (lit "paths") ;;
  ops <- subscript paths path ;;
  ops <- setitem ops method (VDict entry) ;;
  paths <- setitem paths path ops ;;
  Ok (dict_set spec (lit "paths") paths).

(** [k in obj] for a string [k]. *)
Definition py_in (k : str) (obj : value) : result bool :=
  match obj with
  | VDict d => Ok (dict_has d k)
  | VList l => Ok (existsb (fun x => match x with
                                    | VStr s => str_eqb s k
                                    | _ => false
                                    end) l)
  | VStr s => Ok (is_substring k s)
  | _ => Raise TypeError
  end.

(** [x["content"]["application/json"]["schema"] = permissive_object] *)
Definition permit_json_schema (x : value) : result value :=
  c <- subscript x (lit "content") ;;
  aj <- subscript c (lit "application/json") ;;
  aj <- setitem aj (lit "schema") permissive_object ;;
  c <- setitem c (lit "application/json") aj ;;
  setitem x (lit "content") c.

Definition downgrade_response (resp : value) : result value :=
  has <- py_in (lit "content") resp ;;
  if has then
    c <- subscript resp (lit "content") ;;
    has_json <- py_in (lit "application/json") c ;;
    if has_json then permit_json_schema resp else Ok resp
  else Ok resp.

Fixpoint map_items (f : value -> result value) (d : dict) : result dict :=
  match d with
  | [] => Ok []
  | (k, v) :: d' => v' <- f v ;; t <- map_items f d' ;; Ok ((k, v') :: t)
  end.

(** [obj.items()], which only a dict has. *)
Definition items (obj : value) : result dict :=
  match obj with
  | VDict d => Ok d
  | _ => Raise AttributeError
  end.

Definition downgrade_op (op : value) : result value :=
  has <- py_in (lit "requestBody") op ;;
  op <- (if has then
           body <- subscript op (lit "requestBody") ;;
           body <- permit_json_schema body ;;
           setitem op (lit "requestBody") body
         else Ok op) ;;
  d <- items op ;;
  match dict_get d (lit "responses") with
  | Some r =>
      if truthy r then
        rs <- items r ;;
        rs <- map_items downgrade_response rs ;;
        Ok (VDict (dict_set d (lit "responses") (VDict rs)))
      else Ok op
  | None => Ok op
  end.

Definition _downgrade_schemas (spec : dict) : result dict :=
  match dict_get spec (lit "paths") with
  | None => Ok spec
  | Some paths =>
      ps <- items paths ;;
      ps <- map_items (fun methods =>
                         ms <- items methods ;;
                         ms <- map_items downgrade_op ms ;;
                         Ok (VDict ms)) ps ;;
      Ok (dict_set spec (lit "paths") (VDict ps))
  end.

Definition validate_openapi (spec : dict) : bool * list str :=
  match validate_spec (VDict spec) with
  | None => (true, [])
  | Some msg => (false, [msg])
  end.

(** [export_spec]: the directories are created and the document is
    written as JSON by [write_json], which may raise. *)
Definition export_spec (write_json : str -> dict -> result unit)
    (spec : dict) (out_path : str) : result str :=
  _ <- write_json out_path spec ;;
  Ok out_path.

(** [[s["url"] for s in spec.get("servers", [])]] and
    [len(spec.get("paths", {}))] on a document built from the skeleton. *)
Definition server_urls (spec : dict) : list value :=
  match dict_get spec (lit "servers") with
  | Some (VList l) =>
      flat_map (fun s => match s with
                         | VDict d => match dict_get d (lit "url") with
                                      | Some u => [u]
                                      | None => []
                                      end
                         | _ => []
                         end) l
  | _ => []
  end.

Definition paths_count (spec : dict) : Z :=
  match dict_get spec (lit "paths") with
  | Some (VDict p) => Z.of_nat (length p)
  | _ => 0%Z
  end.

End Spec.

End Spec.

(* ================================================================= *)
(** ** core/searcher.py *)

Module Searcher.

Definition quote : str := [34%N].

Definition FALLBACK_QUERIES : list SearchQuery.t :=
  [ SearchQuery.mk (lit "\b(app|router)\.(get|post|put|patch|delete|options|head|all)\s*\(")
      (lit "**/*.{js,ts,jsx,tsx}") (lit "Generic JS HTTP methods");
    SearchQuery.mk (lit "express\.Router\(")
      (lit "**/*.{js,ts,jsx,tsx}") (lit "Express routers");
    SearchQuery.mk (lit "@Controller|@Get\(|@Post\(|@Put\(|@Delete\(")
      (lit "**/*.{ts,tsx}") (lit "NestJS annotations");
    SearchQuery.mk (lit "@\w+\.route\(")
      (lit "**/*.py") (lit "Flask route decorator");
    SearchQuery.mk (lit "@app\.(get|post|put|patch|delete)\(")
      (lit "**/*.py") (lit "FastAPI decorators");
    SearchQuery.mk (lit "\b(POST|GET|PUT|PATCH|DELETE)\s*\(")
      (lit "**/*.go") (lit "Go std http handlers");
    SearchQuery.mk (lit "\b(Handle|HandleFunc)\s*\(")
      (lit "**/*.go") (lit "Go mux/chi");
    SearchQuery.mk
      (lit "@RequestMapping|@GetMapping|@PostMapping|@PutMapping|@DeleteMapping")
      (lit "**/*.java") (lit "Spring annotations");
    SearchQuery.mk
      (lit "resources\s+:|get\s+['\" ++ quote ++ lit "]|post\s+['\" ++ quote ++ lit "]")
      (lit "**/*.rb") (lit "Rails routes") ].

Section Searcher.

Context {L : PyLib}.

(** The file system as the searcher sees it: [glob.glob(pattern,
    recursive=True)] and the lines of a file opened for reading. *)
Variable glob_glob : str -> list str.
Variable open_lines : str -> result (list str).

Definition len {A : Type} (l : list A) : Z := Z.of_nat (length l).

Definition rstrip_newline (l : str) : str := rstrip_by (N.eqb 10) l.

(** The loop over [enumerate(lines, start=1)], from line [i] on. *)
Fixpoint grep_lines (pattern : str -> bool) (path : str) (lines : list str)
    (context limit : Z) (i : Z) (todo : list str) (matches : list Match.t)
  : list Match.t :=
  match todo with
  | [] => matches
  | line :: todo' =>
      if pattern line then
        let start := Z.max 0 (i - context - 1) in
        let end_ := Z.min (len lines) (i + context) in
        let before := map rstrip_newline (py_slice lines start (i - 1)) in
        let after := map rstrip_newline (py_slice lines i end_) in
        let matches := matches ++ [Match.mk path i (strip line) before after] in
        if (len matches >=? limit)%Z then matches
        else grep_lines pattern path lines context limit (i + 1) todo' matches
      else grep_lines pattern path lines context limit (i + 1) todo' matches
  end.

Definition _grep_file (path regex : str) (context limit : Z)
  : result (list Match.t) :=
  match re_compile_ignorecase regex with
  | None => Ok []
  | Some pattern =>
      lines <- open_lines path ;;
      Ok (grep_lines pattern path lines context limit 1 lines [])
  end.

(** The loop over the files of one query. *)
Fixpoint search_files (files : list str) (regex : str) (context limit : Z)
    (acc : list Match.t) : result (list Match.t) :=
  match files with
  | [] => Ok acc
  | f :: files' =>
      ms <- _grep_file f regex context limit ;;
      let acc := acc ++ ms in
      if (len acc >=? limit)%Z then Ok acc
      else search_files files' regex context limit acc
  end.

(** The loop over [enumerate(queries)], from index [idx] on; the result
    lists the items of the returned dict in key order. *)
Fixpoint search_queries (repo_dir : str) (context limit : Z) (idx : Z)
    (queries : list SearchQuery.t) : result (list (Z * list Match.t)) :=
  match queries with
  | [] => Ok []
  | q :: queries' =>
      let files := glob_glob (path_join repo_dir (SearchQuery.glob q)) in
      acc <- search_files files (SearchQuery.regex q) context limit [] ;;
      results <- search_queries repo_dir context limit (idx + 1) queries' ;;
      Ok ((idx, acc) :: results)
  end.

Definition multi_search (repo_dir : str) (queries : list SearchQuery.t)
    (context limit : Z) : result (list (Z * list Match.t)) :=
  search_queries repo_dir context limit 0 queries.

End Searcher.

End Searcher.

(* ================================================================= *)
(** ** core/indexer.py *)

Module Indexer.

Definition IGNORE_DIRS : list str :=
  map lit [".git"; ".hg"; ".svn"; "node_modules"; "dist"; "build"; ".next";
           ".nuxt"; ".venv"; "venv"; "__pycache__"; "target"; "out"]%string.

Definition TEXT_LIKE : list str :=
  map lit [".js"; ".jsx"; ".ts"; ".tsx"; ".py"; ".go"; ".java"; ".rb"; ".php";
           ".cs"; ".kt"; ".scala"; ".rs"; ".c"; ".cpp"; ".mjs"; ".json";
           ".yml"; ".yaml"; ".md"; ".txt"]%string.

Definition str_in (x : str) (l : list str) : bool := existsb (str_eqb x) l.

Definition _should_skip_dir (name : str) : bool :=
  str_in name IGNORE_DIRS || starts_with_char (ch ".") name.

Definition _is_text_ext (ext : str) (allowed_exts : option (list str)) : bool :=
  match allowed_exts with
  | Some l => str_in ext l
  | None => str_in ext TEXT_LIKE
  end.

(** A file as the indexer meets it: what [os.path.getsize] returns and
    what opening and reading it in binary mode gives. *)
Record file : Type := mk_file {
  name : str;
  getsize : result Z;
  content : result (list byte)
}.

(** The tree under the repository directory. *)
#[warnings="-register-all"]
Inductive node : Type :=
| File (f : file)
| Dir (dirname : str) (children : list node).

Definition files_of (children : list node) : list file :=
  flat_map (fun c => match c with File f => [f] | Dir _ _ => [] end) children.

(** [os.walk], top-down, with the pruning of [build_inventory]: the
    directories in the order they are visited, each with its path relative
    to the top and its files. [walk_node] is the visit of one entry of a
    directory whose relative path is [root]. *)
Fixpoint walk_node (root : list str) (n : node) : list (list str * list file) :=
  match n with
  | File _ => []
  | Dir d sub =>
      if _should_skip_dir d then []
      else (root ++ [d], files_of sub) :: flat_map (walk_node (root ++ [d])) sub
  end.

Definition walk (top : list node) : list (list str * list file) :=
  ([], files_of top) :: flat_map (walk_node []) top.

(** [os.path.splitext(name)[1]]: the suffix from the last dot on, unless
    only dots come before it. *)
Fixpoint last_dot_suffix (s : str) : option str :=
  match s with
  | [] => None
  | x :: t =>
      match last_dot_suffix t with
      | Some e => Some e
      | None => if N.eqb x (ch ".") then Some s else None
      end
  end.

Definition splitext_ext (name : str) : str :=
  match last_dot_suffix name with
  | Some e =>
      let stem := firstn (length name - length e) name in
      if existsb (fun c => negb (N.eqb c (ch "."))) stem then e else []
  | None => []
  end.

(** [os.path.relpath(os.path.join(root, name), repo_dir)] for a file of
    the tree: the components from the top, joined by slashes. *)
Fixpoint join_components (cs : list str) : str :=
  match cs with
  | [] => []
  | [c] => c
  | c :: cs' => c ++ lit "/" ++ join_components cs'
  end.

(** [f.read(n)] at position [pos] of a binary file holding [data]: at
    most [n] bytes, the rest of the file for [n = -1] (the default), and
    [ValueError] for any other negative [n]. *)
Definition file_read (data : list byte) (pos n : Z) : result (list byte) :=
  if (n =? -1)%Z then Ok (skipn (Z.to_nat pos) data)
  else if (n <? 0)%Z then Raise ValueError
  else Ok (firstn (Z.to_nat n) (skipn (Z.to_nat pos) data)).

#[warnings="-register-all"]
Variant flow : Type :=
| Continue (results : list FileIndex.t) (count : Z)
| Return (results : list FileIndex.t).

Section Indexer.

Context {L : PyLib}.

Definition _read_head_tail (f : file) (max_bytes : Z) : str * str :=
  let chunk := Z.min max_bytes 8192 in
  let read : result (list byte * list byte) :=
    data <- content f ;;
    head_bytes <- file_read data 0 chunk ;;
    let size := Z.of_nat (length data) in
    tail_bytes <-
      (if (size - chunk <? 0)%Z          (* the seek raises OSError *)
       then file_read data 0 (-1)
       else file_read data (size - chunk) chunk) ;;
    Ok (head_bytes, tail_bytes) in
  match read with
  | Raise _ => ([], [])
  | Ok (head_bytes, tail_bytes) =>
      (decode_utf8_ignore head_bytes, decode_utf8_ignore tail_bytes)
  end.

(** The loop over the files of one directory. *)
Fixpoint visit_files (root : list str) (files : list file)
    (exts : option (list str)) (max_files max_bytes : Z)
    (results : list FileIndex.t) (count : Z) : flow :=
  match files with
  | [] => Continue results count
  | f :: files' =>
      if (count >=? max_files)%Z then Return results
      else
        match getsize f with
        | Raise _ => visit_files root files' exts max_files max_bytes results count
        | Ok size =>
            let ext := str_lower (splitext_ext (name f)) in
            if negb (_is_text_ext ext exts)
            then visit_files root files' exts max_files max_bytes results count
            else
              let (head, tail) := _read_head_tail f max_bytes in
              let rel := join_components (root ++ [name f]) in
              visit_files root files' exts max_files max_bytes
                (results ++ [FileIndex.mk rel ext size head tail]) (count + 1)
        end
  end.

(** The loop over the directories [os.walk] yields. *)
Fixpoint visit_dirs (dirs : list (list str * list file))
    (exts : option (list str)) (max_files max_bytes : Z)
    (results : list FileIndex.t) (count : Z) : list FileIndex.t :=
  match dirs with
  | [] => results
  | (root, files) :: dirs' =>
      match visit_files root files exts max_files max_bytes results count with
      | Return results => results
      | Continue results count =>
          visit_dirs dirs' exts max_files max_bytes results count
      end
  end.

Definition build_inventory (repo : list node) (exts : option (list str))
    (max_files max_bytes : Z) : list FileIndex.t :=
  visit_dirs (walk repo) exts max_files max_bytes [] 0.

End Indexer.

End Indexer.
(* ================================================================= *)
(** ** core/llm.py *)

Module Llm.

(** [\{.*\}] under [re.S]: the dot takes every character. *)
Definition brace_re : Re.regex :=
  [Re.One (Re.is_char "{"); Re.Star (fun _ => true); Re.One (Re.is_char "}")].

(** What the LLM service gives for one request: the exception raised by
    [generate_content] or by reading [resp.text], or the text (possibly
    [None]).  The prompt only influences this reply, which is arbitrary
    here, so the prompt itself is not modelled. *)
Definition reply := result (option str).

Section Llm.

Context {L : PyLib}.

(** [os.getenv("GEMINI_API_KEY")] *)
Variable api_key : option str.

Definition _ensure_client : result unit :=
  match api_key with
  | Some (_ :: _) => Ok tt
  | _ => Raise RuntimeError
  end.

Definition gemini_json (r : reply) : result value :=
  _ <- _ensure_client ;;
  resp <- r ;;
  let text := match resp with
              | Some (x :: t) => x :: t
              | _ => lit "{}"
              end in
  match json_loads text with
  | Ok v => Ok v
  | Raise e =>
      match Re.search_group0 brace_re text with
      | Some m => json_loads m
      | None => Raise e
      end
  end.

(** Pydantic validation of one keyword argument, by the annotation of the
    field. *)
Definition field_str (d : dict) (k : str) : result str :=
  match dict_get d k with
  | Some (VStr s) => Ok s
  | _ => Raise ValidationError
  end.

Definition field_str_default (d : dict) (k : str) (default : str) : result str :=
  match dict_get d k with
  | None => Ok default
  | Some (VStr s) => Ok s
  | Some _ => Raise ValidationError
  end.

Definition field_opt_str (d : dict) (k : str) : result (option str) :=
  match dict_get d k with
  | None | Some VNone => Ok None
  | Some (VStr s) => Ok (Some s)
  | Some _ => Raise ValidationError
  end.

Definition field_opt_dict (d : dict) (k : str) : result (option dict) :=
  match dict_get d k with
  | None | Some VNone => Ok None
  | Some (VDict x) => Ok (Some x)
  | Some _ => Raise ValidationError
  end.

Fixpoint str_list (l : list value) : result (list str) :=
  match l with
  | [] => Ok []
  | VStr s :: l' => t <- str_list l' ;; Ok (s :: t)
  | _ :: _ => Raise ValidationError
  end.

Definition field_str_list (d : dict) (k : str) : result (list str) :=
  match dict_get d k with
  | Some (VList l) => str_list l
  | _ => Raise ValidationError
  end.

Definition field_int (d : dict) (k : str) : result Z :=
  match dict_get d k with
  | Some v => match pydantic_int v with
              | Some z => Ok z
              | None => Raise ValidationError
              end
  | None => Raise ValidationError
  end.

(** Unpacking [data] into keyword arguments: it must be a mapping. *)
Definition kwargs (data : value) : result dict :=
  match data with
  | VDict d => Ok d
  | _ => Raise TypeError
  end.

(** [SearchQuery] built from the unpacked [s]. *)
Definition new_SearchQuery (s : value) : result SearchQuery.t :=
  d <- kwargs s ;;
  regex <- field_str d (lit "regex") ;;
  glob <- field_str_default d (lit "glob") (lit "**/*") ;;
  why <- field_str d (lit "why") ;;
  Ok (SearchQuery.mk regex glob why).

(** [DiscoveredRoute] built from the unpacked [item]. *)
Definition new_DiscoveredRoute (item : value) : result DiscoveredRoute.t :=
  d <- kwargs item ;;
  method <- field_str d (lit "method") ;;
  raw_path <- field_str d (lit "raw_path") ;;
  file <- field_str d (lit "file") ;;
  line <- field_int d (lit "line") ;;
  evidence <- field_str_list d (lit "evidence") ;;
  Ok (DiscoveredRoute.mk method raw_path file line evidence).

(** [Enrichment] built from the unpacked [data]. *)
Definition new_Enrichment (data : value) : result Enrichment.t :=
  d <- kwargs data ;;
  summary <- field_opt_str d (lit "summary") ;;
  auth <- field_opt_str d (lit "auth") ;;
  requestBody <- field_opt_dict d (lit "requestBody") ;;
  responses <- field_opt_dict d (lit "responses") ;;
  Ok (Enrichment.mk summary auth requestBody responses).

(** [for x in v]: the items a [for] loop over [v] sees. *)
Definition iterate (v : value) : result (list value) :=
  match v with
  | VList l => Ok l
  | VDict d => Ok (map (fun kv => VStr (fst kv)) d)
  | VStr s => Ok (map (fun c => VStr [c]) s)
  | _ => Raise TypeError
  end.

Fixpoint map_result {A B : Type} (f : A -> result B) (l : list A) : result (list B) :=
  match l with
  | [] => Ok []
  | x :: l' => y <- f x ;; t <- map_result f l' ;; Ok (y :: t)
  end.

(** [raw.get(k, [])] on whatever [json.loads] returned. *)
Definition raw_get (raw : value) (k : str) : result value :=
  match raw with
  | VDict d => match dict_get d k with Some v => Ok v | None => Ok (VList []) end
  | _ => Raise AttributeError
  end.

Definition plan_search (inventory : list FileIndex.t) (r : reply)
  : result SearchPlan.t :=
  raw <- gemini_json r ;;
  ss <- raw_get raw (lit "searches") ;;
  items <- iterate ss ;;
  searches <- map_result new_SearchQuery items ;;
  fw <- raw_get raw (lit "frameworks") ;;
  frameworks <- match fw with
                | VList l => str_list l
                | _ => Raise ValidationError
                end ;;
  Ok (SearchPlan.mk frameworks searches).

(** The loop of [extract_routes]: items that do not validate are dropped. *)
Fixpoint keep_valid_routes (items : list value) : list DiscoveredRoute.t :=
  match items with
  | [] => []
  | item :: items' =>
      match new_DiscoveredRoute item with
      | Ok r => r :: keep_valid_routes items'
      | Raise _ => keep_valid_routes items'
      end
  end.

Definition extract_routes (matches_map : list (Z * list Match.t)) (r : reply)
  : result (list DiscoveredRoute.t) :=
  raw <- gemini_json r ;;
  match raw with
  | VList items => Ok (keep_valid_routes items)
  | _ => Ok []
  end.

Definition null_enrichment : Enrichment.t := Enrichment.mk None None None None.

Definition enrich_route (snippet : Snippet.t) (method raw_path : str) (r : reply)
  : result Enrichment.t :=
  data <- gemini_json r ;;
  match new_Enrichment data with
  | Ok e => Ok e
  | Raise _ => Ok null_enrichment
  end.

End Llm.

End Llm.

(* ================================================================= *)
(** ** core/gitops.py *)

Module Gitops.

Section Gitops.

Context {L : PyLib}.

(** [os.path.basename] *)
Fixpoint basename (p : str) : str :=
  match p with
  | [] => []
  | x :: t => if existsb (N.eqb (ch "/")) t then basename t
              else if N.eqb x (ch "/") then t else p
  end.

Definition repo_name_from_url (repo_url : str) : str :=
  let name := basename (urlparse_path repo_url) in
  if ends_with (lit ".git") name then py_slice_to name (-4) else name.

End Gitops.

End Gitops.

(* ================================================================= *)
(** ** app.py *)

Module App.

Import Normalize.

Module GenerateOptions.
Record t : Type := mk {
  max_search_rounds : Z;
  max_files : Z;
  max_routes : Z;
  context_lines : Z;
  enrich_top_n : option Z;
  max_bytes_per_file : Z;
  exts : option (list str) }.
End GenerateOptions.

Module GenerateRequest.
Record t : Type := mk { repo_url : str; options : GenerateOptions.t }.
End GenerateRequest.

Module Report.
Record t : Type := mk {
  repo : str;
  inventory_count : Z;
  frameworks : list str;
  searches : list SearchQuery.t;
  matches_counts : list (Z * Z);
  routes_sample : list DiscoveredRoute.t;
  spec_servers : list value;
  paths_count : Z }.
End Report.

Module GenerateResponse.
Record t : Type := mk {
  status : str;
  spec_path : str;
  routes_found : Z;
  rounds_used : Z;
  skipped : list (str * Z);
  notes : list str;
  report : Report.t }.
End GenerateResponse.

(** The collaborators of one request: the clone, the checked-out tree as
    the indexer, the searcher and the reader see it, the credential, the
    replies of the LLM service in the order of the requests, and the
    write of the exported document. *)
Record World : Type := mk_world {
  clone_repo : str -> result str;
  repo_tree : str -> list Indexer.node;
  glob_glob : str -> list str;
  open_lines : str -> result (list str);
  api_key : option str;
  llm_reply : nat -> Llm.reply;
  write_json : str -> dict -> result unit
}.

Variant http_result : Type :=
| Response (r : GenerateResponse.t)
| HTTPException (status_code : Z) (detail : exn).

Section App.

Context {L : PyLib}.
Variable w : World.

Definition len {A : Type} (l : list A) : Z := Z.of_nat (length l).

(** [sum(len(v) for v in matches.values())] *)
Definition total_matches (matches : list (Z * list Match.t)) : Z :=
  fold_right (fun kv acc => (len (snd kv) + acc)%Z) 0%Z matches.

Definition opt_str (o : option str) : value :=
  match o with Some s => VStr s | None => VNone end.

Definition opt_dict (o : option dict) : value :=
  match o with Some d => VDict d | None => VNone end.

(** [RouteDef(...).model_dump()] *)
Definition model_dump (r : RouteDef.t) : dict :=
  [(lit "method", VStr (RouteDef.method r));
   (lit "path", VStr (RouteDef.path r));
   (lit "parameters", VList (RouteDef.parameters r));
   (lit "requestBody", opt_dict (RouteDef.requestBody r));
   (lit "responses", VDict (RouteDef.responses r));
   (lit "evidence", VDict (RouteDef.evidence r));
   (lit "summary", opt_str (RouteDef.summary r));
   (lit "auth", opt_str (RouteDef.auth r))].

(** The body of the loop over the selected routes; [i] numbers the
    requests made to the LLM service so far. *)
Definition merge_one (repo_dir : str) (r : DiscoveredRoute.t) (i : nat)
    (spec : dict) : result dict :=
  let norm := normalize_path (DiscoveredRoute.raw_path r) in
  let params := extract_path_params norm in
  snippet <- Reader.read_snippet (open_lines w) repo_dir
               (DiscoveredRoute.file r) (DiscoveredRoute.line r) 60 ;;
  enr <- Llm.enrich_route (api_key w) snippet (DiscoveredRoute.method r)
           (DiscoveredRoute.raw_path r) (llm_reply w i) ;;
  let route_def :=
    model_dump
      (RouteDef.mk
         (DiscoveredRoute.method r)
         norm
         params
         (Enrichment.requestBody enr)
         (match Enrichment.responses enr with
          | Some (x :: d) => x :: d
          | _ => [(lit "200", VDict [(lit "description", VStr (lit "OK"))])]
          end)
         [(lit "file", VStr (DiscoveredRoute.file r));
          (lit "line", VInt (DiscoveredRoute.line r));
          (lit "quotes", VList (map VStr (DiscoveredRoute.evidence r)))]
         (Enrichment.summary enr)
         (Enrichment.auth enr)) in
  Spec.merge_route spec route_def.

Fixpoint merge_all (repo_dir : str) (routes : list DiscoveredRoute.t) (i : nat)
    (spec : dict) (merged : Z) : result (dict * Z) :=
  match routes with
  | [] => Ok (spec, merged)
  | r :: routes' =>
      spec <- merge_one repo_dir r i spec ;;
      merge_all repo_dir routes' (S i) spec (merged + 1)
  end.

(** Step 2: the planned search and, when it finds nothing, the search
    with the fallback queries. *)
Definition search_rounds (repo_dir : str) (plan : SearchPlan.t) (context : Z)
  : result (bool * list (Z * list Match.t)) :=
  matches <- Searcher.multi_search (glob_glob w) (open_lines w) repo_dir
               (SearchPlan.searches plan) context 50 ;;
  if (total_matches matches =? 0)%Z then
    matches <- Searcher.multi_search (glob_glob w) (open_lines w) repo_dir
                 Searcher.FALLBACK_QUERIES context 50 ;;
    Ok (true, matches)
  else Ok (false, matches).

Definition generate (req : GenerateRequest.t) : result GenerateResponse.t :=
  let opts := GenerateRequest.options req in
  (* Step 1: clone + index *)
  repo_dir <- clone_repo w (GenerateRequest.repo_url req) ;;
  let inv := Indexer.build_inventory (repo_tree w repo_dir)
               (GenerateOptions.exts opts) (GenerateOptions.max_files opts)
               (GenerateOptions.max_bytes_per_file opts) in
  (* Step 2: LLM plan + search *)
  plan <- Llm.plan_search (api_key w) inv (llm_reply w 0) ;;
  found <- search_rounds repo_dir plan (GenerateOptions.context_lines opts) ;;
  let used_fallback := fst found in
  let matches := snd found in
  (* Step 3: extract endpoints *)
  routes <- Llm.extract_routes (api_key w) matches (llm_reply w 1) ;;
  (* Step 4: build OpenAPI *)
  let title := Gitops.repo_name_from_url (GenerateRequest.repo_url req)
               ++ lit " (Generated)" in
  let spec := Spec.build_openapi_skeleton title (lit "0.1.0") None in
  merged_spec <- merge_all repo_dir
                   (py_slice_to routes (GenerateOptions.max_routes opts)) 2 spec 0 ;;
  let spec := fst merged_spec in
  let merged := snd merged_spec in
  checked <-
    (if fst (Spec.validate_openapi spec) then Ok (spec, [])
     else
       spec <- Spec._downgrade_schemas spec ;;
       if fst (Spec.validate_openapi spec)
       then Ok (spec, [lit "Some schemas downgraded to permissive object."])
       else Ok (spec, [lit "Spec still invalid after downgrade; check logs."])) ;;
  let spec := fst checked in
  let notes_extra := snd checked in
  spec_path <- Spec.export_spec (write_json w) spec
                 (path_join repo_dir (lit "openapi.generated.json")) ;;
  Ok (GenerateResponse.mk
        (lit "ok")
        spec_path
        (len routes)
        (1 + (if used_fallback then 1 else 0))
        [(lit "files", 0%Z); (lit "routes", Z.max 0 (len routes - merged))]
        ([lit "Step 1 complete: repo cloned and indexed.";
          lit "Step 2 complete: planned searches and ran regex.";
          lit "Step 3 complete: extracted endpoints with evidence.";
          lit "Step 4 complete: assembled and validated OpenAPI spec."]
         ++ notes_extra)
        (Report.mk
           (Gitops.repo_name_from_url (GenerateRequest.repo_url req))
           (len inv)
           (SearchPlan.frameworks plan)
           (if used_fallback then Searcher.FALLBACK_QUERIES
            else SearchPlan.searches plan)
           (map (fun kv => (fst kv, len (snd kv))) matches)
           (py_slice_to routes 10)
           (Spec.server_urls spec)
           (Spec.paths_count spec))).

(** The handler: any exception becomes a 500 carrying it. *)
Definition post_generate (req : GenerateRequest.t) : http_result :=
  match generate req with
  | Ok r => Response r
  | Raise e => HTTPException 500 e
  end.

End App.

End App.

(* ================================================================= *)
(** ** GetDocs/openapi_to_mintlify_html.py *)

Module GetDocs.

Definition METHODS : list str :=
  map lit ["get"; "post"; "put"; "delete"; "patch"; "options"; "head";
           "trace"]%string.

(** [[{}]] *)
Definition brace_class : Re.cls :=
  fun c => N.eqb c (ch "{") || N.eqb c (ch "}").

Definition braces_re : Re.regex := [Re.One brace_class].

(** [s.strip("/")] *)
Definition strip_slashes (s : str) : str :=
  rstrip_by (Re.is_char "/") (drop_while (Re.is_char "/") s).

(** [s.replace("/", "-")] *)
Definition dash_slashes (s : str) : str :=
  map (fun c => if N.eqb c (ch "/") then ch "-" else c) s.

Definition isinstance_dict (v : value) : bool :=
  match v with VDict _ => true | _ => false end.

Section GetDocs.

Context {L : PyLib}.

Definition slugify (method path : str) : str :=
  let clean := strip_slashes path in
  let clean := Re.sub braces_re [] clean in
  let clean := match dash_slashes clean with
               | [] => lit "root"
               | x :: t => x :: t
               end in
  str_lower method ++ lit "-" ++ clean.

(** The inner loop of [list_operations], over the items of one path. *)
Definition item_operations (path : str) (item : value) : list (str * str) :=
  match item with
  | VDict methods =>
      flat_map (fun kv =>
                  if Indexer.str_in (str_lower (fst kv)) METHODS
                     && isinstance_dict (snd kv)
                  then [(str_upper (fst kv), path)] else [])
               methods
  | _ => []
  end.

(** [spec] is a document decoded from JSON: its keys are strings. A
    [paths] entry that is not a mapping has no [items]. *)
Definition list_operations (spec : dict) : result (list (str * str)) :=
  match dict_get spec (lit "paths") with
  | None => Ok []
  | Some (VDict paths) =>
      Ok (flat_map (fun kv => item_operations (fst kv) (snd kv)) paths)
  | Some _ => Raise AttributeError
  end.

End GetDocs.

End GetDocs.

(* ================================================================= *)
(** ** A small instance of the library interface

    Used to run the embedding on concrete inputs.  It stands for the
    library on ASCII data: case mapping of ASCII letters; JSON texts made
    of objects, arrays, strings without escapes, integers, [true],
    [false] and [null]; search patterns made of letters and digits, which
    match as literal text whatever the case (any other pattern is treated
    as malformed); ASCII bytes; URLs of the form scheme://host/path;
    conversion to an [int] field of ints, bools, floats without fractional
    part and strings of digits with an optional sign; [str] of [None],
    bools and ints. The validator accepts every document. *)

Module Sample.

Definition ascii_lower (s : str) : str :=
  map (fun c => if is_upper c then (c + 32)%N else c) s.

Definition ascii_upper (s : str) : str :=
  map (fun c => if is_lower c then (c - 32)%N else c) s.

Definition is_json_space (c : N) : bool :=
  N.eqb c 32 || N.eqb c 9 || N.eqb c 10 || N.eqb c 13.

Definition skip_ws (s : str) : str := drop_while is_json_space s.

(** The characters of a string literal up to the closing quote. *)
Fixpoint string_body (s : str) : option (str * str) :=
  match s with
  | [] => None
  | c :: t =>
      if N.eqb c 34 then Some ([], t)
      else if N.eqb c (ch "\") || (c <? 32)%N then None
      else match string_body t with
           | Some (b, r) => Some (c :: b, r)
           | None => None
           end
  end.

Definition digits_value (ds : str) : Z :=
  fold_left (fun acc d => (10 * acc + Z.of_N (d - 48))%Z) ds 0%Z.

(** An integer literal: an optional sign, then [0] or a digit string
    without leading zero, not continued as a fraction or an exponent. *)
Definition integer (s : str) : option (Z * str) :=
  let (neg, s') := match s with
                   | c :: t => if N.eqb c (ch "-") then (true, t) else (false, s)
                   | [] => (false, s)
                   end in
  let ds := take_while is_digit s' in
  let r := drop_while is_digit s' in
  match ds with
  | [] => None
  | d :: ds' =>
      if N.eqb d (ch "0") && negb (match ds' with [] => true | _ => false end)
      then None
      else if hd_is (fun c => N.eqb c (ch ".") || N.eqb c (ch "e") || N.eqb c (ch "E")) r
      then None
      else Some (if neg then (- digits_value ds)%Z else digits_value ds, r)
  end.

Fixpoint parse_value (fuel : nat) (s : str) : option (value * str) :=
  match fuel with
  | O => None
  | S n =>
      match skip_ws s with
      | [] => None
      | c :: t =>
          if N.eqb c (ch "[") then
            match skip_ws t with
            | c' :: t' => if N.eqb c' (ch "]") then Some (VList [], t')
                          else match parse_elems n t with
                               | Some (l, r) => Some (VList l, r)
                               | None => None
                               end
            | [] => None
            end
          else if N.eqb c (ch "{") then
            match skip_ws t with
            | c' :: t' => if N.eqb c' (ch "}") then Some (VDict [], t')
                          else match parse_members n t [] with
                               | Some (d, r) => Some (VDict d, r)
                               | None => None
                               end
            | [] => None
            end
          else if N.eqb c 34 then
            match string_body t with
            | Some (b, r) => Some (VStr b, r)
            | None => None
            end
          else if is_prefix_of (lit "null") (c :: t) then Some (VNone, skipn 4 (c :: t))
          else if is_prefix_of (lit "true") (c :: t) then Some (VBool true, skipn 4 (c :: t))
          else if is_prefix_of (lit "false") (c :: t) then Some (VBool false, skipn 5 (c :: t))
          else match integer (c :: t) with
               | Some (z, r) => Some (VInt z, r)
               | None => None
               end
      end
  end
with parse_elems (fuel : nat) (s : str) : option (list value * str) :=
  match fuel with
  | O => None
  | S n =>
      match parse_value n s with
      | Some (v, r) =>
          match skip_ws r with
          | c :: t =>
              if N.eqb c (ch "]") then Some ([v], t)
              else if N.eqb c (ch ",") then
                match parse_elems n t with
                | Some (l, r') => Some (v :: l, r')
                | None => None
                end
              else None
          | [] => None
          end
      | None => None
      end
  end
with parse_members (fuel : nat) (s : str) (acc : dict) : option (dict * str) :=
  match fuel with
  | O => None
  | S n =>
      match skip_ws s with
      | q :: t =>
          if N.eqb q 34 then
            match string_body t with
            | Some (k, r) =>
                match skip_ws r with
                | c :: r1 =>
                    if N.eqb c (ch ":") then
                      match parse_value n r1 with
                      | Some (v, r2) =>
                          let acc := dict_set acc k v in
                          match skip_ws r2 with
                          | c' :: r3 =>
                              if N.eqb c' (ch "}") then Some (acc, r3)
                              else if N.eqb c' (ch ",") then parse_members n r3 acc
                              else None
                          | [] => None
                          end
                      | None => None
                      end
                    else None
                | [] => None
                end
            | None => None
            end
          else None
      | [] => None
      end
  end.

Definition json_loads (s : str) : result value :=
  match parse_value (2 * length s + 2) s with
  | Some (v, r) => match skip_ws r with
                   | [] => Ok v
                   | _ :: _ => Raise JSONDecodeError
                   end
  | None => Raise JSONDecodeError
  end.

Definition is_alnum (c : N) : bool := is_upper c || is_lower c || is_digit c.

Definition re_compile_ignorecase (rx : str) : option (str -> bool) :=
  if forallb is_alnum rx
  then Some (fun line => is_substring (ascii_lower rx) (ascii_lower line))
  else None.

Definition decode_utf8_ignore (bs : list byte) : str :=
  filter (fun c => (c <? 128)%N) (map Byte.to_N bs).

(** A string of digits after an optional sign. *)
Definition int_of_str (s : str) : option Z :=
  let (neg, ds) := match s with
                   | c :: t => if N.eqb c (ch "-") then (true, t)
                               else if N.eqb c (ch "+") then (false, t)
                               else (false, s)
                   | [] => (false, s)
                   end in
  match ds with
  | [] => None
  | _ :: _ =>
      if forallb is_digit ds
      then Some (if neg then (- digits_value ds)%Z else digits_value ds)
      else None
  end.

(** A float without fractional part. *)
Definition int_of_float (f : spec_float) : option Z :=
  match f with
  | S754_zero _ => Some 0%Z
  | S754_finite s m e =>
      let (m', e') := Spec.odd_part m e in
      if (e' <? 0)%Z then None
      else Some ((if s then -1 else 1) * Zpos m' * 2 ^ e')%Z
  | _ => None
  end.

Definition pydantic_int (v : value) : option Z :=
  match v with
  | VInt z => Some z
  | VBool b => Some (if b then 1%Z else 0%Z)
  | VStr s => int_of_str s
  | VFloat f => int_of_float f
  | _ => None
  end.

(** [str(x)] for [None], a bool or an int. *)
Definition py_str (v : value) : str :=
  match v with
  | VNone => lit "None"
  | VBool true => lit "True"
  | VBool false => lit "False"
  | VInt z => lit (NilZero.string_of_int (Z.to_int z))
  | _ => []
  end.

(** The text after [scheme://host], up to a query or a fragment. *)
Fixpoint after_scheme (s : str) : str :=
  match s with
  | [] => []
  | c :: t => if is_prefix_of (lit "://") s then skipn 3 s else after_scheme t
  end.

Definition urlparse_path (url : str) : str :=
  let rest := after_scheme url in
  let from_slash := drop_while (fun c => negb (N.eqb c (ch "/"))) rest in
  take_while (fun c => negb (N.eqb c (ch "?") || N.eqb c (ch "#"))) from_slash.

Definition lib : PyLib := {|
  str_lower := ascii_lower;
  str_upper := ascii_upper;
  Py.json_loads := json_loads;
  Py.re_compile_ignorecase := re_compile_ignorecase;
  Py.decode_utf8_ignore := decode_utf8_ignore;
  validate_spec := fun _ => None;
  Py.pydantic_int := pydantic_int;
  Py.urlparse_path := urlparse_path;
  Py.py_str := py_str
|}.

(** Inputs for the examples. *)
Definition skeleton : dict :=
  Spec.build_openapi_skeleton (lit "demo (Generated)") (lit "0.1.0") None.

Definition route_upper : dict :=
  [(lit "path", VStr (lit "/a")); (lit "method", VStr (lit "GET"))].

Definition route_lower : dict :=
  [(lit "path", VStr (lit "/a")); (lit "method", VStr (lit "get"));
   (lit "summary", VStr (lit "List a")); (lit "responses", VDict [])].

(** A repository with two Python files, the first with one line and the
    second with two, each line holding [x]. *)
Definition two_files_glob (pattern : str) : list str :=
  [lit "/r/a.py"; lit "/r/b.py"].

Definition two_files_open (path : str) : result (list str) :=
  if str_eqb path (lit "/r/a.py") then Ok [[ch "x"; 10%N]]
  else if str_eqb path (lit "/r/b.py") then Ok [[ch "x"; 10%N]; [ch "x"; 10%N]]
  else Raise OSError.

Definition query_x : SearchQuery.t :=
  SearchQuery.mk (lit "x") (lit "**/*.py") (lit "lines with x").



(** A route with a request body and a typed JSON response, merged into
    the skeleton. *)
Definition route_post : dict :=
  [(lit "path", VStr (lit "/a")); (lit "method", VStr (lit "POST"));
   (lit "requestBody", VDict [(lit "type", VStr (lit "string"))]);
   (lit "responses",
    VDict [(lit "200",
            VDict [(lit "description", VStr (lit "OK"));
                   (lit "content",
                    VDict [(lit "application/json",
                            VDict [(lit "schema",
                                    VDict [(lit "type", VStr (lit "integer"))])])])]);
           (lit "404", VDict [(lit "description", VStr (lit "Not found"))])])].

Definition spec_post : dict :=
  match @Spec.merge_route lib skeleton route_post with
  | Ok s => s
  | Raise _ => skeleton
  end.

Definition some_snippet : Snippet.t :=
  Snippet.mk (lit "app.py") 1 1 [ch "x"; 10%N].

(** A service that answers the planner with an empty object and every
    later request with an empty array, over an empty checkout. *)
Definition quiet_world : App.World :=
  App.mk_world
    (fun _ => Ok (lit "/tmp/ai-openapi-0"))
    (fun _ => [])
    (fun _ => [])
    (fun _ => Raise OSError)
    (Some (lit "key"))
    (fun n => match n with
              | O => Ok (Some (lit "{}"))
              | S _ => Ok (Some (lit "[]"))
              end)
    (fun _ _ => Ok tt).

Definition default_options : App.GenerateOptions.t :=
  App.GenerateOptions.mk 3 200 300 20 None 200000
    (Some (map lit [".js"; ".jsx"; ".ts"; ".tsx"; ".py"; ".go"; ".java"; ".rb";
                    ".php"; ".cs"; ".kt"; ".scala"; ".rs"; ".c"; ".cpp"; ".mjs";
                    ".md"; ".yml"; ".yaml"; ".json"]%string)).

Definition some_request : App.GenerateRequest.t :=
  App.GenerateRequest.mk (lit "https://github.com/o/demo.git") default_options.

End Sample.

(* ================================================================= *)
(** * Properties *)

Module ReFacts.
Import Re.

Lemma drop_while_length f s : (length (drop_while f s) <= length s)%nat.
Proof. induction s as [|x t IH]; simpl; [lia|]. destruct (f x); simpl; lia. Qed.

Lemma take_drop_while f s : take_while f s ++ drop_while f s = s.
Proof. induction s as [|x t IH]; simpl; [reflexivity|]. destruct (f x); simpl; congruence. Qed.

Lemma take_while_all f s : forallb f (take_while f s) = true.
Proof. induction s as [|x t IH]; simpl; [reflexivity|]. destruct (f x) eqn:E; simpl; [rewrite E|]; auto. Qed.

Lemma star_then_inv {A : Type} (c : cls) (k : str -> option A) s m r :
  star_then c k s = Some (m, r) ->
  forallb c m = true /\ exists t, s = m ++ t /\ k t = Some r.
Proof.
  revert m r; induction s as [|x t IH]; intros m r; simpl.
  - destruct (k []) eqn:E; simpl; intros [= <- <-].
    split; [reflexivity|]. exists []; auto.
  - destruct (c x) eqn:Cx.
    + destruct (star_then c k t) as [[m' r']|] eqn:E.
      * intros [= <- <-]. destruct (IH _ _ eq_refl) as [Hm [t' [-> Hk]]].
        split; [simpl; rewrite Cx; exact Hm|]. exists t'; auto.
      * destruct (k (x :: t)) eqn:E2; simpl; intros [= <- <-].
        split; [reflexivity|]. exists (x :: t); auto.
    + destruct (k (x :: t)) eqn:E2; simpl; intros [= <- <-].
      split; [reflexivity|]. exists (x :: t); auto.
Qed.

(** The greedy run is the whole maximal run as soon as the continuation
    accepts after it, or can never start on a character of the class. *)
Lemma star_then_greedy {A : Type} (c : cls) (k : str -> option A) s :
  (k (drop_while c s) <> None \/ forall x t, c x = true -> k (x :: t) = None) ->
  star_then c k s = option_map (pair (take_while c s)) (k (drop_while c s)).
Proof.
  induction s as [|x t IH]; intros H; simpl; [reflexivity|].
  destruct (c x) eqn:Cx; [|reflexivity].
  simpl in H. rewrite Cx in H. rewrite (IH H).
  destruct (k (drop_while c t)) eqn:E; simpl; [reflexivity|].
  destruct H as [H|H]; [congruence|]. rewrite (H x t Cx). reflexivity.
Qed.

Lemma infix_pre (m1 m : str) (gs : list str) :
  Forall (fun g => exists a b, m = a ++ g ++ b) gs ->
  Forall (fun g => exists a b, m1 ++ m = a ++ g ++ b) gs.
Proof.
  intros HF. eapply Forall_impl; [|exact HF].
  intros g [a0 [b0 ->]]. exists (m1 ++ a0), b0. rewrite app_assoc; reflexivity.
Qed.

(** A match consumes a prefix of the subject, and its groups are pieces
    of that prefix. *)
Lemma match_here_app re : forall s gs rest,
  match_here re s = Some (gs, rest) ->
  exists m, s = m ++ rest /\ Forall (fun g => exists a b, m = a ++ g ++ b) gs.
Proof.
  induction re as [|a re IH]; intros s gs rest; simpl.
  - intros [= <- <-]. exists []; auto.
  - destruct a as [c|c|c|c].
    + destruct s as [|x t]; [discriminate|]. destruct (c x); [|discriminate].
      intros H. destruct (IH _ _ _ H) as [m [-> HF]]. exists (x :: m). split; [reflexivity|]. apply (infix_pre [x]); exact HF.
    + destruct (star_then c (match_here re) s) as [[m [gs' rest']]|] eqn:E;
        [|discriminate]. simpl. intros [= <- <-].
      destruct (star_then_inv _ _ _ _ _ E) as [_ [t [-> Hk]]].
      destruct (IH _ _ _ Hk) as [m2 [-> HF]].
      exists (m ++ m2). rewrite app_assoc. split; [reflexivity|].
      apply infix_pre; exact HF.
    + destruct s as [|x t]; [discriminate|]. destruct (c x); [|discriminate].
      destruct (star_then c (match_here re) t) as [[m [gs' rest']]|] eqn:E;
        [|discriminate]. simpl. intros [= <- <-].
      destruct (star_then_inv _ _ _ _ _ E) as [_ [t' [-> Hk]]].
      destruct (IH _ _ _ Hk) as [m2 [-> HF]].
      exists (x :: m ++ m2). simpl. rewrite app_assoc. split; [reflexivity|].
      apply (infix_pre (x :: m)); exact HF.
    + destruct s as [|x t]; [discriminate|]. destruct (c x); [|discriminate].
      destruct (star_then c (match_here re) t) as [[m [gs' rest']]|] eqn:E;
        [|discriminate]. intros [= <- <-].
      destruct (star_then_inv _ _ _ _ _ E) as [_ [t' [-> Hk]]].
      destruct (IH _ _ _ Hk) as [m2 [-> HF]].
      exists (x :: m ++ m2). simpl. rewrite app_assoc. split; [reflexivity|].
      constructor.
      * exists [], m2. reflexivity.
      * apply (infix_pre (x :: m)). exact HF.
Qed.

(** Fuel beyond the length of the subject changes nothing. *)
Lemma sub_from_fuel re tpl : forall n m s,
  (length s < n)%nat -> (length s < m)%nat ->
  sub_from n re tpl s = sub_from m re tpl s.
Proof.
  induction n as [|n IH]; intros m s Hn Hm; [lia|].
  destruct m as [|m]; [lia|]. simpl.
  destruct (match_here re s) as [[gs rest]|].
  - destruct (length rest <? length s)%nat eqn:L.
    + apply Nat.ltb_lt in L. f_equal. apply IH; lia.
    + destruct s as [|x t]; [reflexivity|]. simpl in *. do 2 f_equal. apply IH; lia.
  - destruct s as [|x t]; [reflexivity|]. simpl in *. f_equal. apply IH; lia.
Qed.

Lemma sub_eq re tpl s :
  sub re tpl s =
  match match_here re s with
  | Some (gs, rest) =>
      if (length rest <? length s)%nat then expand tpl gs ++ sub re tpl rest
      else expand tpl gs ++ match s with [] => [] | x :: t => x :: sub re tpl t end
  | None => match s with [] => [] | x :: t => x :: sub re tpl t end
  end.
Proof.
  unfold sub at 1. simpl.
  destruct (match_here re s) as [[gs rest]|].
  - destruct (length rest <? length s)%nat eqn:L.
    + apply Nat.ltb_lt in L. f_equal. apply sub_from_fuel; lia.
    + destruct s as [|x t]; reflexivity.
  - destruct s as [|x t]; reflexivity.
Qed.

(** A pattern is consuming when none of its matches is empty. *)
Definition consuming (re : regex) : Prop :=
  forall s gs rest, match_here re s = Some (gs, rest) -> (length rest < length s)%nat.

Lemma consuming_One c re : consuming (One c :: re).
Proof.
  intros s gs rest. simpl. destruct s as [|x t]; [discriminate|].
  destruct (c x); [|discriminate]. intros H.
  destruct (match_here_app _ _ _ _ H) as [m [-> _]]. simpl. rewrite length_app. lia.
Qed.

Lemma sub_nil re tpl : consuming re -> sub re tpl [] = [].
Proof.
  intros Hc. rewrite sub_eq. destruct (match_here re []) as [[gs rest]|] eqn:E;
    [|reflexivity]. apply Hc in E. simpl in E. lia.
Qed.

Lemma sub_miss re tpl x t :
  match_here re (x :: t) = None -> sub re tpl (x :: t) = x :: sub re tpl t.
Proof. intros E. rewrite sub_eq, E. reflexivity. Qed.

Lemma sub_hit re tpl s gs rest :
  consuming re -> match_here re s = Some (gs, rest) ->
  sub re tpl s = expand tpl gs ++ sub re tpl rest.
Proof.
  intros Hc E. rewrite sub_eq, E. apply Hc in E.
  apply Nat.ltb_lt in E. rewrite E. reflexivity.
Qed.

(** Induction along the scan of [re.sub]. *)
Lemma sub_scan_ind re tpl (P : str -> str -> Prop) :
  consuming re ->
  P [] [] ->
  (forall x t o, match_here re (x :: t) = None -> P t o -> P (x :: t) (x :: o)) ->
  (forall s gs rest o, match_here re s = Some (gs, rest) ->
                       P rest o -> P s (expand tpl gs ++ o)) ->
  forall s, P s (sub re tpl s).
Proof.
  intros Hc Hnil Hmiss Hhit s.
  remember (length s) as n eqn:Hn. revert s Hn.
  induction n as [n IH] using lt_wf_ind. intros s ->.
  destruct (match_here re s) as [[gs rest]|] eqn:E.
  - rewrite (sub_hit re tpl s gs rest Hc E). apply (Hhit s gs rest); [exact E|].
    apply (IH (length rest)); [exact (Hc _ _ _ E)|reflexivity].
  - destruct s as [|x t].
    + rewrite (sub_nil re tpl Hc). exact Hnil.
    + rewrite (sub_miss re tpl x t E). apply Hmiss; [exact E|].
      apply (IH (length t)); [simpl; lia|reflexivity].
Qed.

(** Where the pattern matches nowhere, [re.sub] returns its subject. *)
Lemma sub_id re tpl s : search re s = false -> sub re tpl s = s.
Proof.
  induction s as [|x t IH]; simpl; intros H; rewrite sub_eq;
    destruct (match_here re _) as [[gs rest]|]; try discriminate; [reflexivity|].
  rewrite (IH H). reflexivity.
Qed.

Lemma findall_from_fuel re : forall n m s,
  (length s < n)%nat -> (length s < m)%nat ->
  findall_from n re s = findall_from m re s.
Proof.
  induction n as [|n IH]; intros m s Hn Hm; [lia|].
  destruct m as [|m]; [lia|]. simpl.
  destruct (match_here re s) as [[gs rest]|].
  - destruct (length rest <? length s)%nat eqn:E.
    + apply Nat.ltb_lt in E. f_equal. apply IH; lia.
    + destruct s as [|x t]; [reflexivity|]. simpl in *. f_equal. apply IH; lia.
  - destruct s as [|x t]; [reflexivity|]. simpl in *. apply IH; lia.
Qed.

Lemma findall_miss re x t :
  match_here re (x :: t) = None -> findall re (x :: t) = findall re t.
Proof. intros E. unfold findall at 1. simpl. rewrite E. reflexivity. Qed.

Lemma findall_hit re s gs rest :
  consuming re -> match_here re s = Some (gs, rest) ->
  findall re s = group gs 1 :: findall re rest.
Proof.
  intros Hc E. unfold findall at 1. simpl. rewrite E.
  pose proof (Hc _ _ _ E) as Hlt. apply Nat.ltb_lt in Hlt. rewrite Hlt.
  f_equal. apply findall_from_fuel; apply Nat.ltb_lt in Hlt; lia.
Qed.

Lemma take_while_app_stop f (a : str) c r :
  forallb f a = true -> f c = false -> take_while f (a ++ c :: r) = a.
Proof.
  intros Ha Hc. induction a as [|x a IH]; simpl in *; [rewrite Hc; reflexivity|].
  apply andb_prop in Ha. destruct Ha as [Hx Ha]. rewrite Hx, (IH Ha). reflexivity.
Qed.

Lemma drop_while_app_stop f (a : str) c r :
  forallb f a = true -> f c = false -> drop_while f (a ++ c :: r) = c :: r.
Proof.
  intros Ha Hc. induction a as [|x a IH]; simpl in *; [rewrite Hc; reflexivity|].
  apply andb_prop in Ha. destruct Ha as [Hx Ha]. rewrite Hx. exact (IH Ha).
Qed.

Section ScanInvariants.

Variables (re : regex) (tpl : template).
Hypothesis Hc : consuming re.

Lemma hd_is_app g (a b : str) : a <> [] -> hd_is g (a ++ b) = hd_is g a.
Proof. destruct a; [congruence|reflexivity]. Qed.

Lemma last_is_app f (a b : str) :
  last_is f (a ++ b) = match b with [] => last_is f a | _ :: _ => last_is f b end.
Proof.
  induction a as [|x a IH]; simpl.
  - destruct b; reflexivity.
  - rewrite IH. destruct a as [|y a]; simpl; destruct b; reflexivity.
Qed.

Lemma no_pair_app f g (a b : str) :
  no_pair f g (a ++ b) =
  no_pair f g a && no_pair f g b && negb (last_is f a && hd_is g b).
Proof.
  induction a as [|x a IH]; simpl.
  - rewrite andb_true_r. reflexivity.
  - rewrite IH. destruct a as [|y a]; simpl.
    + destruct (f x), (hd_is g b), (no_pair f g b); reflexivity.
    + destruct (f x), (g y), (no_pair f g a), (no_pair f g b),
        (match a with [] => f y | _ :: _ => last_is f a end), (hd_is g b); reflexivity.
Qed.

Lemma count_if_app f (a b : str) : count_if f (a ++ b) = (count_if f a + count_if f b)%nat.
Proof. induction a as [|x a IH]; simpl; [reflexivity|]. rewrite IH. lia. Qed.

(** The first character of the result: preserved where a match that
    starts the subject is replaced by text with the same property. *)
Lemma sub_hd g :
  (forall s gs rest, match_here re s = Some (gs, rest) -> hd_is g s = true ->
                     hd_is g (expand tpl gs) = true) ->
  forall s, hd_is g s = true -> hd_is g (sub re tpl s) = true.
Proof.
  intros He s Hs. destruct (match_here re s) as [[gs rest]|] eqn:E.
  - rewrite (sub_hit re tpl s gs rest Hc E).
    pose proof (He _ _ _ E Hs) as H.
    destruct (expand tpl gs); [discriminate|exact H].
  - destruct s as [|x t]; [discriminate|].
    rewrite (sub_miss re tpl x t E). exact Hs.
Qed.

(** The result is empty exactly when the subject is. *)
Lemma sub_nonempty :
  (forall gs, expand tpl gs <> []) ->
  forall s, s = [] <-> sub re tpl s = [].
Proof.
  intros He s. destruct (match_here re s) as [[gs rest]|] eqn:E.
  - rewrite (sub_hit re tpl s gs rest Hc E). pose proof (Hc _ _ _ E) as L.
    split; intros H.
    + subst s. simpl in L. lia.
    + apply app_eq_nil in H. destruct H as [H _]. destruct (He gs H).
  - destruct s as [|x t].
    + rewrite (sub_nil re tpl Hc). tauto.
    + rewrite (sub_miss re tpl x t E). split; discriminate.
Qed.

(** The last character of the result. *)
Lemma sub_last f :
  (forall gs, expand tpl gs <> [] /\ last_is f (expand tpl gs) = false) ->
  forall s, last_is f s = false -> last_is f (sub re tpl s) = false.
Proof.
  intros He s.
  assert (Hne : forall gs, expand tpl gs <> []) by (intros gs; apply He).
  remember (length s) as n eqn:Hn. revert s Hn.
  induction n as [n IH] using lt_wf_ind. intros s -> Hs.
  destruct (match_here re s) as [[gs rest]|] eqn:E.
  - rewrite (sub_hit re tpl s gs rest Hc E), last_is_app.
    destruct (sub re tpl rest) as [|y o] eqn:Eo; [apply He|].
    rewrite <- Eo. apply (IH (length rest)); [exact (Hc _ _ _ E)|reflexivity|].
    destruct (match_here_app _ _ _ _ E) as [m [-> _]].
    rewrite last_is_app in Hs. destruct rest; [|exact Hs].
    rewrite (sub_nil re tpl Hc) in Eo. discriminate.
  - destruct s as [|x t]; [rewrite (sub_nil re tpl Hc); reflexivity|].
    rewrite (sub_miss re tpl x t E).
    change (x :: sub re tpl t) with ([x] ++ sub re tpl t). rewrite last_is_app.
    destruct (sub re tpl t) as [|y o] eqn:Eo.
    + apply (sub_nonempty Hne) in Eo. subst t. exact Hs.
    + rewrite <- Eo. apply (IH (length t)); [simpl; lia|reflexivity|].
      destruct t as [|z t]; [rewrite (sub_nil re tpl Hc) in Eo; discriminate|exact Hs].
Qed.

(** Adjacent pairs: the scan keeps (or establishes) the absence of an
    [f]-character followed by a [g]-character, for subjects satisfying a
    property [I] that suffixes inherit. *)
Lemma sub_no_pair f g (I : str -> Prop) :
  (forall m rest, I (m ++ rest) -> I rest) ->
  (forall x t, I (x :: t) -> match_here re (x :: t) = None ->
               f x = true -> hd_is g t = true -> False) ->
  (forall s gs rest, I s -> match_here re s = Some (gs, rest) ->
     no_pair f g (expand tpl gs) = true /\ expand tpl gs <> [] /\
     (hd_is g (expand tpl gs) = true -> hd_is g s = true) /\
     (last_is f (expand tpl gs) = true -> hd_is g rest = true -> False)) ->
  forall s, I s ->
    no_pair f g (sub re tpl s) = true /\
    (hd_is g (sub re tpl s) = true -> hd_is g s = true).
Proof.
  intros Htail Hmiss Hhit s.
  remember (length s) as n eqn:Hn. revert s Hn.
  induction n as [n IH] using lt_wf_ind. intros s -> Hs.
  destruct (match_here re s) as [[gs rest]|] eqn:E.
  - rewrite (sub_hit re tpl s gs rest Hc E).
    destruct (Hhit _ _ _ Hs E) as (He1 & He2 & He3 & He4).
    destruct (match_here_app _ _ _ _ E) as [m [Hm _]].
    assert (Hr : I rest) by (apply (Htail m); rewrite <- Hm; exact Hs).
    destruct (IH (length rest) (Hc _ _ _ E) rest eq_refl Hr) as [IH1 IH2].
    split.
    + rewrite no_pair_app, He1, IH1. simpl.
      destruct (last_is f (expand tpl gs)) eqn:L; [|reflexivity].
      destruct (hd_is g (sub re tpl rest)) eqn:G; [|reflexivity].
      destruct (He4 eq_refl (IH2 eq_refl)).
    + rewrite hd_is_app by exact He2. exact He3.
  - destruct s as [|x t]; [rewrite (sub_nil re tpl Hc); split; auto|].
    rewrite (sub_miss re tpl x t E).
    assert (Ht : I t) by (apply (Htail [x]); exact Hs).
    destruct (IH (length t) (Nat.lt_succ_diag_r _) t eq_refl Ht) as [IH1 IH2].
    split; [|auto]. simpl. rewrite IH1, andb_true_r.
    destruct (f x) eqn:F; [|reflexivity].
    destruct (hd_is g (sub re tpl t)) eqn:G; [|reflexivity].
    destruct (Hmiss x t Hs E F (IH2 eq_refl)).
Qed.

(** Counting: each replacement lowers the count of [f]-characters by at
    least [d]. *)
Lemma sub_count f (d : nat) :
  (forall m gs rest, match_here re (m ++ rest) = Some (gs, rest) ->
     (count_if f (expand tpl gs) + d <= count_if f m)%nat) ->
  forall s,
    (count_if f (sub re tpl s) <= count_if f s)%nat /\
    (search re s = true -> (count_if f (sub re tpl s) + d <= count_if f s)%nat).
Proof.
  intros He s.
  remember (length s) as n eqn:Hn. revert s Hn.
  induction n as [n IH] using lt_wf_ind. intros s ->.
  destruct (match_here re s) as [[gs rest]|] eqn:E.
  - rewrite (sub_hit re tpl s gs rest Hc E).
    destruct (match_here_app _ _ _ _ E) as [m [Hm _]].
    destruct (IH (length rest) (Hc _ _ _ E) rest eq_refl) as [IH1 _].
    subst s. pose proof (He _ _ _ E) as H.
    rewrite !count_if_app. split; intros; lia.
  - destruct s as [|x t].
    + rewrite (sub_nil re tpl Hc). simpl. rewrite E. split; [lia|discriminate].
    + rewrite (sub_miss re tpl x t E).
      destruct (IH (length t) (Nat.lt_succ_diag_r _) t eq_refl) as [IH1 IH2].
      simpl. rewrite E. split; [lia|]. intros H. specialize (IH2 H). lia.
Qed.

End ScanInvariants.

End ReFacts.

Module NormalizeFacts.
Import Re ReFacts Normalize.

Lemma is_char_eq a x : is_char a x = true <-> x = ch a.
Proof. unfold is_char. apply N.eqb_eq. Qed.

Lemma not_char_is_char a x : not_char a x = negb (is_char a x).
Proof. reflexivity. Qed.

Lemma drop_while_hd f s : hd_is f (drop_while f s) = false.
Proof.
  induction s as [|x t IH]; simpl; [reflexivity|].
  destruct (f x) eqn:E; [exact IH|simpl; exact E].
Qed.

Lemma match_One c re x t :
  match_here (One c :: re) (x :: t) = if c x then match_here re t else None.
Proof. reflexivity. Qed.

Lemma match_Star_skip c re s :
  (forall x t, c x = true -> match_here re (x :: t) = None) ->
  match_here (Star c :: re) s = match_here re (drop_while c s).
Proof.
  intros H. cbn [match_here]. rewrite star_then_greedy by (right; exact H).
  destruct (match_here re (drop_while c s)) as [[gs rest]|]; reflexivity.
Qed.

(** [:([A-Za-z0-9_]+)] at the start of [s]. *)
Lemma match_colon s :
  match_here colon_re s =
  match s with
  | x :: y :: t =>
      if is_char ":" x && name_char y
      then Some ([y :: take_while name_char t], drop_while name_char t)
      else None
  | _ => None
  end.
Proof.
  unfold colon_re. destruct s as [|x [|y t]]; cbn [match_here].
  - reflexivity.
  - destruct (is_char ":" x); reflexivity.
  - destruct (is_char ":" x); cbn [andb]; [|reflexivity].
    destruct (name_char y); [|reflexivity].
    rewrite star_then_greedy by (left; discriminate). reflexivity.
Qed.

(** [a([^b]+)b] at the start of [s]: the shape of [<([^>]+)>] and of
    [{([^}]+)}]. *)
Lemma match_delim a b s :
  match_here [One (is_char a); Cap (not_char b); One (is_char b)] s =
  match s with
  | x :: y :: t =>
      if is_char a x && not_char b y then
        match drop_while (not_char b) t with
        | _ :: rest => Some ([y :: take_while (not_char b) t], rest)
        | [] => None
        end
      else None
  | _ => None
  end.
Proof.
  destruct s as [|x [|y t]]; cbn [match_here].
  - reflexivity.
  - destruct (is_char a x); reflexivity.
  - destruct (is_char a x); cbn [andb]; [|reflexivity].
    destruct (not_char b y); [|reflexivity].
    rewrite star_then_greedy.
    + pose proof (drop_while_hd (not_char b) t) as H.
      destruct (drop_while (not_char b) t) as [|z rest]; [reflexivity|].
      cbn [match_here]. simpl in H. rewrite not_char_is_char in H.
      destruct (is_char b z); [reflexivity|discriminate].
    + right. intros x0 t0 H0. cbn [match_here].
      rewrite not_char_is_char in H0. destruct (is_char b x0); [discriminate|reflexivity].
Qed.

Lemma match_untyped s :
  match_here untyped_re s =
  match s with
  | x :: y :: t =>
      if is_char "<" x && not_char ">" y then
        match drop_while (not_char ">") t with
        | _ :: rest => Some ([y :: take_while (not_char ">") t], rest)
        | [] => None
        end
      else None
  | _ => None
  end.
Proof. apply match_delim. Qed.

Lemma match_param s :
  match_here _PARAM_RE s =
  match s with
  | x :: y :: t =>
      if is_char "{" x && not_char "}" y then
        match drop_while (not_char "}") t with
        | _ :: rest => Some ([y :: take_while (not_char "}") t], rest)
        | [] => None
        end
      else None
  | _ => None
  end.
Proof. apply match_delim. Qed.

(** [<[^:>]*:([^>]+)>] at the start of [s]. *)
Lemma match_typed s :
  match_here typed_re s =
  match s with
  | x :: t =>
      if is_char "<" x then
        match drop_while (not_chars ":" ">") t with
        | z :: y :: t' =>
            if is_char ":" z && not_char ">" y then
              match drop_while (not_char ">") t' with
              | _ :: rest => Some ([y :: take_while (not_char ">") t'], rest)
              | [] => None
              end
            else None
        | _ => None
        end
      else None
  | [] => None
  end.
Proof.
  unfold typed_re. destruct s as [|x t]; [reflexivity|].
  rewrite match_One. destruct (is_char "<" x); [|reflexivity].
  rewrite match_Star_skip.
  - rewrite match_delim.
    destruct (drop_while (not_chars ":" ">") t) as [|z [|y t']]; reflexivity.
  - intros x0 t0 H0. rewrite match_delim.
    destruct t0 as [|y0 t0]; [reflexivity|].
    unfold not_chars in H0. unfold is_char.
    destruct (N.eqb x0 (ch ":")); [discriminate|reflexivity].
Qed.

(** [//+] at the start of [s]. *)
Lemma match_slashes s :
  match_here slashes_re s =
  match s with
  | x :: y :: t =>
      if is_char "/" x && is_char "/" y
      then Some ([], drop_while (is_char "/") t)
      else None
  | _ => None
  end.
Proof.
  unfold slashes_re. destruct s as [|x [|y t]]; cbn [match_here].
  - reflexivity.
  - destruct (is_char "/" x); reflexivity.
  - destruct (is_char "/" x); cbn [andb]; [|reflexivity].
    destruct (is_char "/" y); [|reflexivity].
    rewrite star_then_greedy by (left; discriminate). reflexivity.
Qed.

Definition no_colon_name : str -> bool := no_pair (is_char ":") name_char.
Definition no_double_slash : str -> bool := no_pair (is_char "/") (is_char "/").

Lemma expand_brace gs : expand brace_group gs = ch "{" :: group gs 1 ++ [ch "}"].
Proof. reflexivity. Qed.

Lemma expand_slash gs : expand [TLit (lit "/")] gs = [ch "/"].
Proof. reflexivity. Qed.

Definition path_template (tpl : template) : Prop :=
  tpl = brace_group \/ tpl = [TLit (lit "/")].

Lemma name_char_not_colon x : name_char x = true -> is_char ":" x = false.
Proof.
  intros H. unfold is_char. destruct (N.eqb_spec x (ch ":")) as [->|]; [|reflexivity].
  vm_compute in H. discriminate.
Qed.

Lemma no_pair_none f g s :
  forallb (fun c => negb (f c)) s = true -> no_pair f g s = true.
Proof.
  induction s as [|x t IH]; simpl; [reflexivity|].
  intros H. apply andb_prop in H. destruct H as [H1 H2].
  rewrite (IH H2). apply negb_true_iff in H1. rewrite H1. reflexivity.
Qed.

Lemma no_colon_name_brace g0 :
  no_colon_name (ch "{" :: g0 ++ [ch "}"]) = no_colon_name g0.
Proof.
  unfold no_colon_name. change (ch "{" :: g0 ++ [ch "}"]) with ([ch "{"] ++ g0 ++ [ch "}"]).
  rewrite !no_pair_app.
  destruct (no_pair (is_char ":") name_char g0), (last_is (is_char ":") g0),
    (hd_is name_char (g0 ++ [ch "}"])); reflexivity.
Qed.

Lemma last_is_brace f g0 : last_is f (ch "{" :: g0 ++ [ch "}"]) = f (ch "}").
Proof.
  change (ch "{" :: g0 ++ [ch "}"]) with ((ch "{" :: g0) ++ [ch "}"]).
  rewrite last_is_app. reflexivity.
Qed.

Lemma no_colon_name_infix a g0 b :
  no_colon_name (a ++ g0 ++ b) = true -> no_colon_name g0 = true.
Proof.
  unfold no_colon_name. rewrite !no_pair_app. intros H.
  destruct (no_pair (is_char ":") name_char g0); [reflexivity|].
  rewrite !andb_false_r in H. simpl in H. rewrite ?andb_false_r in H. discriminate.
Qed.

Lemma group_infix (m : str) gs n :
  Forall (fun g => exists a b, m = a ++ g ++ b) gs ->
  exists a b, group gs n = [] \/ m = a ++ group gs n ++ b.
Proof.
  intros HF. unfold group. destruct (nth_in_or_default (n - 1) gs []) as [Hin | E].
  - rewrite Forall_forall in HF. destruct (HF _ Hin) as [a [b ->]].
    exists a, b. right; reflexivity.
  - exists [], []. left; exact E.
Qed.

(** The colon rewrite leaves no [:] directly before a name character. *)
Lemma sub_colon_no_colon_name s :
  no_colon_name (sub colon_re brace_group s) = true.
Proof.
  apply (sub_no_pair colon_re brace_group (consuming_One _ _)
           (is_char ":") name_char (fun _ => True)); auto.
  - intros x t _ E F G. rewrite match_colon in E.
    destruct t as [|y t]; [discriminate|]. simpl in G. rewrite F, G in E. discriminate.
  - intros s0 gs rest _ E. rewrite match_colon in E.
    destruct s0 as [|x [|y t]]; try discriminate.
    destruct (is_char ":" x && name_char y) eqn:B; [|discriminate].
    injection E as <- <-. rewrite expand_brace.
    apply andb_prop in B. destruct B as [_ By].
    change (no_pair (is_char ":") name_char) with no_colon_name.
    rewrite no_colon_name_brace. repeat split.
    + apply no_pair_none. change (group [y :: take_while name_char t] 1)
        with (y :: take_while name_char t).
      pose proof (take_while_all name_char (y :: t)) as HA. simpl in HA.
      rewrite By in HA. revert HA. generalize (y :: take_while name_char t).
      induction l as [|c l IH]; simpl; [reflexivity|].
      intros H. apply andb_prop in H. destruct H as [H1 H2].
      rewrite (name_char_not_colon _ H1), (IH H2). reflexivity.
    + discriminate.
    + simpl. discriminate.
    + rewrite last_is_brace. discriminate.
Qed.

(** The later rewrites keep that property. *)
Lemma sub_keeps_no_colon_name re tpl s :
  consuming re -> path_template tpl ->
  no_colon_name s = true -> no_colon_name (sub re tpl s) = true.
Proof.
  intros Hc Ht Hs.
  apply (sub_no_pair re tpl Hc (is_char ":") name_char
           (fun s => no_colon_name s = true)); auto.
  - intros m rest H. apply (no_colon_name_infix m rest []).
    rewrite app_nil_r. exact H.
  - intros x t H _ F G. unfold no_colon_name in H. simpl in H.
    rewrite F, G in H. discriminate.
  - intros s0 gs rest H0 E. destruct Ht as [-> | ->].
    + rewrite expand_brace.
      change (no_pair (is_char ":") name_char) with no_colon_name.
      rewrite no_colon_name_brace. repeat split.
      * destruct (match_here_app _ _ _ _ E) as [m [-> HF]].
        destruct (group_infix m gs 1 HF) as [a [b [-> | Hm]]]; [reflexivity|].
        rewrite Hm, <- !app_assoc in H0.
        apply (no_colon_name_infix _ _ _ H0).
      * discriminate.
      * simpl. discriminate.
      * rewrite last_is_brace. discriminate.
    + rewrite expand_slash. repeat split; simpl; discriminate.
Qed.

(** The slash rewrite leaves no doubled slash. *)
Lemma sub_slashes_no_double_slash s :
  no_double_slash (sub slashes_re [TLit (lit "/")] s) = true.
Proof.
  apply (sub_no_pair slashes_re [TLit (lit "/")] (consuming_One _ _)
           (is_char "/") (is_char "/") (fun _ => True)); auto.
  - intros x t _ E F G. rewrite match_slashes in E.
    destruct t as [|y t]; [discriminate|]. simpl in G. rewrite F, G in E. discriminate.
  - intros s0 gs rest _ E. rewrite match_slashes in E.
    destruct s0 as [|x [|y t]]; try discriminate.
    destruct (is_char "/" x && is_char "/" y) eqn:B; [|discriminate].
    injection E as <- <-. rewrite expand_slash.
    apply andb_prop in B. destruct B as [Bx _]. repeat split.
    + discriminate.
    + intros _. exact Bx.
    + intros _ H. rewrite drop_while_hd in H. discriminate.
Qed.

Lemma no_colon_name_search s :
  no_colon_name s = true -> search colon_re s = false.
Proof.
  unfold no_colon_name. induction s as [|x t IH]; [reflexivity|].
  intros H. simpl in H. apply andb_prop in H. destruct H as [H1 H2].
  cbn [search]. rewrite match_colon. destruct t as [|y t]; [reflexivity|].
  simpl in H1. apply negb_true_iff in H1. rewrite H1. apply IH. exact H2.
Qed.

Lemma no_double_slash_search s :
  no_double_slash s = true -> search slashes_re s = false.
Proof.
  unfold no_double_slash. induction s as [|x t IH]; [reflexivity|].
  intros H. simpl in H. apply andb_prop in H. destruct H as [H1 H2].
  cbn [search]. rewrite match_slashes. destruct t as [|y t]; [reflexivity|].
  simpl in H1. apply negb_true_iff in H1. rewrite H1. apply IH. exact H2.
Qed.

Lemma drop_while_weaken (f g : N -> bool) s :
  (forall c, f c = true -> g c = true) ->
  drop_while g (drop_while f s) = drop_while g s.
Proof.
  intros Hfg. induction s as [|x t IH]; [reflexivity|]. simpl.
  destruct (f x) eqn:F; [rewrite (Hfg _ F); exact IH|reflexivity].
Qed.

(** Where the typed pattern matches, the untyped one matches too. *)
Lemma typed_untyped_here s :
  match_here untyped_re s = None -> match_here typed_re s = None.
Proof.
  rewrite match_untyped, match_typed. destruct s as [|x t]; [reflexivity|].
  destruct (is_char "<" x); [|reflexivity]. cbn [andb].
  assert (Hw : forall c, not_chars ":" ">" c = true -> not_char ">" c = true).
  { intros c H. unfold not_chars in H. apply andb_prop in H. apply H. }
  pose proof (drop_while_weaken (not_chars ":" ">") (not_char ">") t Hw) as D.
  destruct (drop_while (not_chars ":" ">") t) as [|z [|y t']] eqn:E; try reflexivity.
  destruct (is_char ":" z && not_char ">" y) eqn:B; [|reflexivity].
  apply andb_prop in B. destruct B as [Bz By]. apply is_char_eq in Bz. subst z.
  simpl in D. rewrite By in D.
  destruct t as [|y0 t0]; [discriminate|].
  assert (Hy0 : not_char ">" y0 = true).
  { simpl in E. destruct (not_chars ":" ">" y0) eqn:F; [apply Hw; exact F|].
    injection E as -> _. reflexivity. }
  rewrite Hy0. simpl in D. rewrite Hy0 in D. rewrite <- D.
  destruct (drop_while (not_char ">") t'); [reflexivity|discriminate].
Qed.

Lemma typed_untyped_search s :
  search untyped_re s = false -> search typed_re s = false.
Proof.
  induction s as [|x t IH]; cbn [search].
  - destruct (match_here untyped_re []) eqn:E; [discriminate|].
    rewrite (typed_untyped_here _ E). reflexivity.
  - destruct (match_here untyped_re (x :: t)) eqn:E; [discriminate|].
    rewrite (typed_untyped_here _ E). exact IH.
Qed.

(** The four rewrites of [normalize_path], after the leading slash. *)
Definition rewrites (p : str) : str :=
  sub slashes_re [TLit (lit "/")]
    (sub untyped_re brace_group (sub typed_re brace_group (sub colon_re brace_group p))).

Definition lead (p : str) : str :=
  if starts_with_char (ch "/") p then p else lit "/" ++ p.

Lemma normalize_path_eq raw : normalize_path raw = rewrites (lead (strip raw)).
Proof. reflexivity. Qed.

(** A path in progress: starts with a slash, does not end in white space. *)
Definition framed (s : str) : Prop :=
  hd_is (is_char "/") s = true /\ last_is is_space s = false.

Lemma rstrip_by_last f s : last_is f (rstrip_by f s) = false.
Proof.
  induction s as [|x t IH]; [reflexivity|]. simpl.
  destruct (rstrip_by f t) as [|y t'] eqn:E.
  - destruct (f x) eqn:F; [reflexivity|simpl; exact F].
  - exact IH.
Qed.

Lemma rstrip_by_id f s : last_is f s = false -> rstrip_by f s = s.
Proof.
  induction s as [|x t IH]; [reflexivity|]. simpl. intros H.
  destruct t as [|y t'].
  - simpl. rewrite H. reflexivity.
  - rewrite (IH H). reflexivity.
Qed.

Lemma lead_strip_framed raw : framed (lead (strip raw)).
Proof.
  unfold lead, framed. pose proof (rstrip_by_last is_space (drop_while is_space raw)) as L.
  fold (strip raw) in L. destruct (starts_with_char (ch "/") (strip raw)) eqn:E.
  - split; [|exact L]. destruct (strip raw); [discriminate|exact E].
  - split; [reflexivity|]. rewrite last_is_app.
    destruct (strip raw); [reflexivity|exact L].
Qed.

Lemma framed_strip_lead s : framed s -> lead (strip s) = s.
Proof.
  intros [H L]. assert (E : strip s = s).
  { unfold strip. destruct s as [|x t]; [discriminate|].
    simpl in H. apply is_char_eq in H. subst x.
    change (drop_while is_space (ch "/" :: t)) with (ch "/" :: t).
    apply rstrip_by_id. exact L. }
  rewrite E. unfold lead. destruct s as [|x t]; [discriminate|].
  cbn [hd_is] in H. apply is_char_eq in H. subst x. reflexivity.
Qed.

Lemma hit_hd a re s r :
  match_here (One (is_char a) :: re) s = Some r -> hd_is (is_char a) s = true.
Proof.
  destruct s as [|x t]; [discriminate|]. rewrite match_One. simpl.
  destruct (is_char a x); [reflexivity|discriminate].
Qed.

Lemma path_template_last tpl gs :
  path_template tpl ->
  expand tpl gs <> [] /\ last_is is_space (expand tpl gs) = false.
Proof.
  intros [-> | ->].
  - rewrite expand_brace, last_is_brace. split; [discriminate|reflexivity].
  - rewrite expand_slash. split; [discriminate|reflexivity].
Qed.

Lemma sub_framed a re tpl s :
  path_template tpl ->
  (a = "/"%char -> tpl = [TLit (lit "/")]) ->
  framed s -> framed (sub (One (is_char a) :: re) tpl s).
Proof.
  intros Ht Ha [H L]. split.
  - apply (sub_hd _ tpl (consuming_One _ _) (is_char "/")); [|exact H].
    intros s0 gs rest E H0. apply hit_hd in E.
    destruct s0 as [|x t]; [discriminate|]. simpl in *.
    apply is_char_eq in E. apply is_char_eq in H0. subst x.
    assert (a = "/"%char) as Ea.
    { unfold ch in H0. apply (f_equal ascii_of_N) in H0.
      rewrite !ascii_N_embedding in H0. exact H0. }
    rewrite (Ha Ea). reflexivity.
  - apply (sub_last _ tpl (consuming_One _ _) is_space); [|exact L].
    intros gs. apply path_template_last. exact Ht.
Qed.

Lemma rewrites_framed s : framed s -> framed (rewrites s).
Proof.
  intros H. unfold rewrites.
  apply sub_framed; [right; reflexivity|reflexivity|].
  apply sub_framed; [left; reflexivity|discriminate|].
  apply sub_framed; [left; reflexivity|discriminate|].
  apply sub_framed; [left; reflexivity|discriminate|exact H].
Qed.

Lemma rewrites_no_colon_name s : no_colon_name (rewrites s) = true.
Proof.
  unfold rewrites.
  apply sub_keeps_no_colon_name; [apply consuming_One|right; reflexivity|].
  apply sub_keeps_no_colon_name; [apply consuming_One|left; reflexivity|].
  apply sub_keeps_no_colon_name; [apply consuming_One|left; reflexivity|].
  apply sub_colon_no_colon_name.
Qed.

(** The normal form is a fixed point as soon as no [<...>] is left in it. *)
Lemma normalize_path_fixed raw :
  search untyped_re (normalize_path raw) = false ->
  normalize_path (normalize_path raw) = normalize_path raw.
Proof.
  intros Hs. rewrite (normalize_path_eq (normalize_path raw)).
  set (q := normalize_path raw) in *.
  assert (Hq : q = rewrites (lead (strip raw))) by reflexivity.
  assert (Fq : framed q).
  { rewrite Hq. apply rewrites_framed, lead_strip_framed. }
  rewrite (framed_strip_lead q Fq). unfold rewrites.
  rewrite (sub_id colon_re).
  2:{ apply no_colon_name_search. rewrite Hq. apply rewrites_no_colon_name. }
  rewrite (sub_id typed_re) by (apply typed_untyped_search; exact Hs).
  rewrite (sub_id untyped_re) by exact Hs.
  apply sub_id. apply no_double_slash_search.
  rewrite Hq. apply sub_slashes_no_double_slash.
Qed.

(** Counting [<]: the angle rewrites remove at least one per match. *)
Definition count_lt : str -> nat := count_if (is_char "<").

Lemma count_lt_brace g0 : count_lt (ch "{" :: g0 ++ [ch "}"]) = count_lt g0.
Proof.
  unfold count_lt. change (ch "{" :: g0 ++ [ch "}"]) with ([ch "{"] ++ g0 ++ [ch "}"]).
  rewrite !count_if_app. simpl. lia.
Qed.

Lemma match_untyped_shape s gs rest :
  match_here untyped_re s = Some (gs, rest) ->
  exists g w, gs = [g] /\ s = ch "<" :: g ++ w :: rest.
Proof.
  rewrite match_untyped. destruct s as [|x [|y t]]; try discriminate.
  destruct (is_char "<" x && not_char ">" y) eqn:B; [|discriminate].
  apply andb_prop in B. destruct B as [Bx _]. apply is_char_eq in Bx. subst x.
  destruct (drop_while (not_char ">") t) as [|w r] eqn:D; [discriminate|].
  intros [= <- <-]. exists (y :: take_while (not_char ">") t), w.
  split; [reflexivity|]. simpl. rewrite <- D, take_drop_while. reflexivity.
Qed.

Lemma match_typed_shape s gs rest :
  match_here typed_re s = Some (gs, rest) ->
  exists pre g w, gs = [g] /\ s = ch "<" :: pre ++ ch ":" :: g ++ w :: rest.
Proof.
  rewrite match_typed. destruct s as [|x t]; [discriminate|].
  destruct (is_char "<" x) eqn:Bx; [|discriminate].
  apply is_char_eq in Bx. subst x.
  destruct (drop_while (not_chars ":" ">") t) as [|z [|y t']] eqn:D1; try discriminate.
  destruct (is_char ":" z && not_char ">" y) eqn:B; [|discriminate].
  apply andb_prop in B. destruct B as [Bz _]. apply is_char_eq in Bz. subst z.
  destruct (drop_while (not_char ">") t') as [|w r] eqn:D2; [discriminate|].
  intros [= <- <-].
  exists (take_while (not_chars ":" ">") t), (y :: take_while (not_char ">") t'), w.
  split; [reflexivity|]. f_equal.
  rewrite <- (take_drop_while (not_chars ":" ">") t) at 1. rewrite D1.
  do 2 f_equal. simpl. rewrite <- D2, take_drop_while. reflexivity.
Qed.

Lemma count_untyped m gs rest :
  match_here untyped_re (m ++ rest) = Some (gs, rest) ->
  (count_lt (expand brace_group gs) + 1 <= count_lt m)%nat.
Proof.
  intros E. destruct (match_untyped_shape _ _ _ E) as (g & w & -> & Hs).
  change (ch "<" :: g ++ w :: rest) with ([ch "<"] ++ g ++ [w] ++ rest) in Hs.
  rewrite !app_assoc in Hs. apply app_inv_tail in Hs. subst m.
  rewrite expand_brace, count_lt_brace. unfold count_lt, group. simpl.
  rewrite count_if_app. lia.
Qed.

Lemma count_typed m gs rest :
  match_here typed_re (m ++ rest) = Some (gs, rest) ->
  (count_lt (expand brace_group gs) + 1 <= count_lt m)%nat.
Proof.
  intros E. destruct (match_typed_shape _ _ _ E) as (pre & g & w & -> & Hs).
  change (ch "<" :: pre ++ ch ":" :: g ++ w :: rest)
    with ([ch "<"] ++ pre ++ [ch ":"] ++ g ++ [w] ++ rest) in Hs.
  rewrite !app_assoc in Hs. apply app_inv_tail in Hs. subst m.
  rewrite expand_brace, count_lt_brace. unfold count_lt, group. simpl.
  rewrite !count_if_app. simpl. lia.
Qed.

Lemma count_slashes m gs rest :
  match_here slashes_re (m ++ rest) = Some (gs, rest) ->
  (count_lt (expand [TLit (lit "/")] gs) + 0 <= count_lt m)%nat.
Proof. intros _. rewrite expand_slash. simpl. lia. Qed.

(** Where a [<...>] is left in the normal form, normalizing again changes it. *)
Lemma normalize_path_moves raw :
  search untyped_re (normalize_path raw) = true ->
  normalize_path (normalize_path raw) <> normalize_path raw.
Proof.
  intros Hs. rewrite (normalize_path_eq (normalize_path raw)).
  set (q := normalize_path raw) in *.
  assert (Hq : q = rewrites (lead (strip raw))) by reflexivity.
  assert (Fq : framed q).
  { rewrite Hq. apply rewrites_framed, lead_strip_framed. }
  rewrite (framed_strip_lead q Fq). unfold rewrites.
  rewrite (sub_id colon_re).
  2:{ apply no_colon_name_search. rewrite Hq. apply rewrites_no_colon_name. }
  intros Heq. apply (f_equal count_lt) in Heq.
  destruct (sub_count slashes_re [TLit (lit "/")] (consuming_One _ _)
              (is_char "<") 0 count_slashes
              (sub untyped_re brace_group (sub typed_re brace_group q))) as [C1 _].
  destruct (sub_count untyped_re brace_group (consuming_One _ _)
              (is_char "<") 1 count_untyped
              (sub typed_re brace_group q)) as [C2 C2'].
  destruct (sub_count typed_re brace_group (consuming_One _ _)
              (is_char "<") 1 count_typed q) as [C3 C3'].
  fold count_lt in *.
  destruct (search typed_re q) eqn:St.
  - specialize (C3' eq_refl). lia.
  - rewrite (sub_id typed_re brace_group q St) in *.
    specialize (C2' Hs). lia.
Qed.

Lemma count_colon m gs rest :
  match_here colon_re (m ++ rest) = Some (gs, rest) ->
  (count_lt (expand brace_group gs) + 0 <= count_lt m)%nat.
Proof.
  rewrite match_colon. destruct (m ++ rest) as [|x [|y t]] eqn:Hs; try discriminate.
  destruct (is_char ":" x && name_char y); [|discriminate].
  intros [= <- Hr].
  assert (Hm : m = x :: y :: take_while name_char t).
  { apply (app_inv_tail rest). rewrite Hs. simpl.
    rewrite <- Hr. rewrite take_drop_while. reflexivity. }
  rewrite expand_brace, count_lt_brace, Hm. unfold count_lt, group. simpl. lia.
Qed.

Lemma count_if_drop_while f g s :
  (count_if f (drop_while g s) <= count_if f s)%nat.
Proof.
  induction s as [|x t IH]; simpl; [lia|]. destruct (g x); simpl; lia.
Qed.

Lemma count_if_rstrip_by f g s :
  (count_if f (rstrip_by g s) <= count_if f s)%nat.
Proof.
  induction s as [|x t IH]; simpl; [lia|].
  destruct (rstrip_by g t) as [|y t'].
  - destruct (g x); simpl; lia.
  - simpl in *. lia.
Qed.

Lemma count_lt_normalize raw :
  (count_lt (normalize_path raw) <= count_lt raw)%nat.
Proof.
  rewrite normalize_path_eq. unfold rewrites.
  pose proof (proj1 (sub_count slashes_re [TLit (lit "/")] (consuming_One _ _)
    (is_char "<") 0 count_slashes
    (sub untyped_re brace_group (sub typed_re brace_group
       (sub colon_re brace_group (lead (strip raw))))))) as H1.
  pose proof (proj1 (sub_count untyped_re brace_group (consuming_One _ _)
    (is_char "<") 1 count_untyped
    (sub typed_re brace_group (sub colon_re brace_group (lead (strip raw)))))) as H2.
  pose proof (proj1 (sub_count typed_re brace_group (consuming_One _ _)
    (is_char "<") 1 count_typed
    (sub colon_re brace_group (lead (strip raw))))) as H3.
  pose proof (proj1 (sub_count colon_re brace_group (consuming_One _ _)
    (is_char "<") 0 count_colon (lead (strip raw)))) as H4.
  assert (H5 : (count_lt (lead (strip raw)) <= count_lt raw)%nat).
  { unfold lead, strip, count_lt.
    pose proof (count_if_rstrip_by (is_char "<") is_space (drop_while is_space raw)).
    pose proof (count_if_drop_while (is_char "<") is_space raw).
    destruct (starts_with_char _ _); simpl; lia. }
  fold count_lt in *. lia.
Qed.

Lemma no_lt_no_search s : count_lt s = O -> search untyped_re s = false.
Proof.
  unfold count_lt. induction s as [|x t IH]; [reflexivity|].
  intros H. cbn [search]. rewrite match_untyped. cbn [count_if] in H.
  destruct (is_char "<" x); [discriminate|].
  destruct t; cbn [andb]; apply IH; exact H.
Qed.

(** Every normalized path starts with a slash and holds no doubled
    slash. *)
Theorem normalize_path_slashes raw :
  hd_is (is_char "/") (normalize_path raw) = true /\
  no_double_slash (normalize_path raw) = true.
Proof.
  split.
  - rewrite normalize_path_eq. apply rewrites_framed, lead_strip_framed.
  - apply sub_slashes_no_double_slash.
Qed.

(** C1, as the code computes it: the colon rewrite runs first and takes
    [:item_id] inside the angle brackets, so the typed rewrite finds no
    colon and the untyped one wraps what is left:
    [normalize_path("/items/<int:item_id>")] is ["/items/{int{item_id}}"]
    and not ["/items/{item_id}"]. *)
Theorem normalize_path_typed_param :
  sub colon_re brace_group (lit "/items/<int:item_id>") = lit "/items/<int{item_id}>" /\
  sub typed_re brace_group (lit "/items/<int{item_id}>") = lit "/items/<int{item_id}>" /\
  sub untyped_re brace_group (lit "/items/<int{item_id}>") = lit "/items/{int{item_id}}" /\
  normalize_path (lit "/items/<int:item_id>") = lit "/items/{int{item_id}}" /\
  str_eqb (normalize_path (lit "/items/<int:item_id>")) (lit "/items/{item_id}") = false.
Proof. split; [|split; [|split; [|split]]]; vm_compute; reflexivity. Qed.

(** C7 (as amended): normalizing twice gives the same path as
    normalizing once exactly when no segment [<x>] (x a non-empty run of
    characters other than [>]) is left in the normalized path; this is the
    case of every raw path without [<]. *)
Theorem normalize_path_idempotent_iff raw :
  (normalize_path (normalize_path raw) = normalize_path raw <->
   search untyped_re (normalize_path raw) = false) /\
  (count_lt raw = O ->
   normalize_path (normalize_path raw) = normalize_path raw).
Proof.
  split; [split|].
  - intros H. destruct (search untyped_re (normalize_path raw)) eqn:E; [|reflexivity].
    destruct (normalize_path_moves raw E H).
  - apply normalize_path_fixed.
  - intros H. apply normalize_path_fixed, no_lt_no_search.
    pose proof (count_lt_normalize raw). lia.
Qed.

(** C7 as stated fails: ["<<a>>"] normalizes to ["/{<a}>"], which
    normalizes to ["/{{a}}"]. *)
Lemma normalize_path_not_idempotent :
  normalize_path (lit "<<a>>") = lit "/{<a}>" /\
  normalize_path (normalize_path (lit "<<a>>")) = lit "/{{a}}" /\
  normalize_path (normalize_path (lit "<<a>>")) <> normalize_path (lit "<<a>>").
Proof.
  split; [|split]; vm_compute; [reflexivity | reflexivity | discriminate].
Qed.

(** A path written as literal text and brace-delimited names. *)
Definition braced (n : str) : str := ch "{" :: n ++ [ch "}"].

Definition path_of (sep0 : str) (items : list (str * str)) : str :=
  sep0 ++ concat (map (fun ns => braced (fst ns) ++ snd ns) items).

Lemma findall_param_sep sep rest :
  forallb (not_char "{") sep = true ->
  findall _PARAM_RE (sep ++ rest) = findall _PARAM_RE rest.
Proof.
  induction sep as [|x sep IH]; simpl; intros H; [reflexivity|].
  apply andb_prop in H. destruct H as [Hx H].
  rewrite findall_miss; [exact (IH H)|].
  rewrite match_param. rewrite not_char_is_char in Hx.
  apply negb_true_iff in Hx. rewrite Hx. destruct (sep ++ rest); reflexivity.
Qed.

Lemma findall_param_name n rest :
  n <> [] -> forallb (not_char "}") n = true ->
  findall _PARAM_RE (braced n ++ rest) = n :: findall _PARAM_RE rest.
Proof.
  intros Hn Ha. destruct n as [|y n]; [congruence|].
  simpl in Ha. apply andb_prop in Ha. destruct Ha as [Hy Ha].
  assert (Hstop : not_char "}" (ch "}") = false) by reflexivity.
  rewrite (findall_hit _PARAM_RE (braced (y :: n) ++ rest) [y :: n] rest).
  - reflexivity.
  - apply consuming_One.
  - rewrite match_param. unfold braced. simpl. rewrite Hy.
    rewrite <- app_assoc. simpl.
    change 125%N with (ch "}").
    rewrite (drop_while_app_stop _ n _ rest Ha Hstop).
    rewrite (take_while_app_stop _ n _ rest Ha Hstop). reflexivity.
Qed.

(** C9: the parameters of the normalized ["/users/:id/posts/:postId"] are
    [id] then [postId], each in the path, required and string-typed; and
    for a path made of literal text and brace-delimited names, one
    descriptor is emitted per name, in the order of the path, repeated
    names included. *)
Theorem extract_path_params_order :
  extract_path_params (normalize_path (lit "/users/:id/posts/:postId")) =
    [VDict [(lit "name", VStr (lit "id")); (lit "in", VStr (lit "path"));
            (lit "required", VBool true);
            (lit "schema", VDict [(lit "type", VStr (lit "string"))])];
     VDict [(lit "name", VStr (lit "postId")); (lit "in", VStr (lit "path"));
            (lit "required", VBool true);
            (lit "schema", VDict [(lit "type", VStr (lit "string"))])]] /\
  forall sep0 items,
    forallb (not_char "{") sep0 = true ->
    Forall (fun ns => fst ns <> [] /\
                      forallb (not_char "}") (fst ns) = true /\
                      forallb (not_char "{") (snd ns) = true) items ->
    extract_path_params (path_of sep0 items) = map (fun ns => path_param (fst ns)) items.
Proof.
  split; [vm_compute; reflexivity|].
  intros sep0 items H0 HF. unfold extract_path_params, path_of.
  rewrite (findall_param_sep _ _ H0). rewrite <- map_map with (f := fst) (g := path_param).
  f_equal. induction HF as [|[n sep] items (Hn & Ha & Hs) HF IH]; [reflexivity|].
  simpl in Hn, Ha, Hs. cbn [map concat fst snd]. rewrite <- app_assoc.
  rewrite (findall_param_name _ _ Hn Ha).
  rewrite (findall_param_sep _ _ Hs). rewrite IH. reflexivity.
Qed.

(** A path with the same name twice yields two descriptors. *)
Lemma extract_path_params_order_witness :
  extract_path_params (path_of (lit "/a/") [(lit "id", lit "/b/"); (lit "id", lit "")])
  = [path_param (lit "id"); path_param (lit "id")].
Proof.
  apply (proj2 extract_path_params_order (lit "/a/")
           [(lit "id", lit "/b/"); (lit "id", lit "")]).
  - reflexivity.
  - repeat constructor; discriminate.
Defined.

End NormalizeFacts.

(* ================================================================= *)
(** ** Properties of core/reader.py *)

Module ReaderFacts.
Import Reader.

Lemma py_slice_to_end {A : Type} (l : list A) (a : Z) :
  (0 <= a)%Z ->
  py_slice l a (Z.of_nat (length l)) = skipn (Z.to_nat a) l.
Proof.
  intros Ha. unfold py_slice, slice_index.
  destruct (a <? 0)%Z eqn:E1; [apply Z.ltb_lt in E1; lia|].
  destruct (Z.of_nat (length l) <? 0)%Z eqn:E2; [apply Z.ltb_lt in E2; lia|].
  rewrite Z.min_id.
  destruct (Z.le_gt_cases a (Z.of_nat (length l))) as [Hle|Hgt].
  - rewrite Z.min_l by lia. apply firstn_all2. rewrite length_skipn. lia.
  - rewrite Z.min_r by lia. rewrite Z.sub_diag. simpl.
    rewrite skipn_all2 by lia. reflexivity.
Qed.

Section ReaderFacts.

Variable open_lines : str -> result (list str).

Definition abs_path (repo_dir file : str) : str :=
  if isabs file then file else path_join repo_dir file.

(** C10 (as amended): for a readable file of L lines, a center line
    c > L and a radius r >= 0, [read_snippet] returns a snippet with
    start = max(1, c - r) and end = L whose text is the concatenation of
    the lines from start to L; when c - r > L the text is empty and start
    is greater than end. *)
Theorem read_snippet_past_end repo_dir file lines c r :
  open_lines (abs_path repo_dir file) = Ok lines ->
  (Z.of_nat (length lines) < c)%Z -> (0 <= r)%Z ->
  exists s,
    read_snippet open_lines repo_dir file c r = Ok s /\
    Snippet.file s = file /\
    Snippet.start s = Z.max 1 (c - r) /\
    Snippet.end_ s = Z.of_nat (length lines) /\
    Snippet.text s = concat (skipn (Z.to_nat (Snippet.start s - 1)) lines) /\
    ((Z.of_nat (length lines) < c - r)%Z ->
       Snippet.text s = [] /\ (Snippet.end_ s < Snippet.start s)%Z).
Proof.
  intros Hopen Hc Hr. unfold read_snippet, _safe_read_lines.
  fold (abs_path repo_dir file). rewrite Hopen. cbn [bind].
  rewrite (Z.min_l (Z.of_nat (length lines)) (c + r)) by lia.
  rewrite py_slice_to_end by lia.
  eexists. split; [reflexivity|]. cbn.
  repeat split; try reflexivity.
  - rewrite skipn_all2 by lia. reflexivity.
  - lia.
Qed.

End ReaderFacts.

(** A one-line file read around line 5 with radius 1: the window
    starts at line 4, ends at line 1 and holds no text. *)
Lemma read_snippet_past_end_witness :
  read_snippet (fun _ => Ok [[ch "a"; 10%N]]) (lit "/repo") (lit "f.py") 5 1
  = Ok (Snippet.mk (lit "f.py") 4 1 []) /\
  exists s,
    read_snippet (fun _ => Ok [[ch "a"; 10%N]]) (lit "/repo") (lit "f.py") 5 1 = Ok s /\
    Snippet.file s = lit "f.py" /\
    Snippet.start s = Z.max 1 (5 - 1) /\
    Snippet.end_ s = 1%Z /\
    Snippet.text s = concat (skipn (Z.to_nat (Snippet.start s - 1)) [[ch "a"; 10%N]]) /\
    ((1 < 5 - 1)%Z -> Snippet.text s = [] /\ (Snippet.end_ s < Snippet.start s)%Z).
Proof.
  split; [reflexivity|].
  apply (read_snippet_past_end (fun _ => Ok [[ch "a"; 10%N]])
           (lit "/repo") (lit "f.py") [[ch "a"; 10%N]] 5 1);
    [reflexivity | simpl; lia | lia].
Defined.

(** C10 as stated fails: on a one-line file, center line 2 and radius 1
    give start = end = 1 and the text of line 1, which is not empty. *)
Lemma read_snippet_text_not_empty :
  read_snippet (fun _ => Ok [[ch "a"; 10%N]]) (lit "/repo") (lit "f.py") 2 1
  = Ok (Snippet.mk (lit "f.py") 1 1 [ch "a"; 10%N]) /\
  [ch "a"; 10%N] <> @nil N.
Proof. split; [reflexivity|discriminate]. Qed.

End ReaderFacts.

(* ================================================================= *)
(** ** Properties of dicts and of core/spec.py *)

Module DictFacts.

Lemma str_eqb_eq a b : str_eqb a b = true <-> a = b.
Proof.
  revert b; induction a as [|x a IH]; intros [|y b]; simpl;
    try (split; [discriminate|discriminate]); [tauto|].
  rewrite andb_true_iff, N.eqb_eq, IH. split.
  - intros [-> ->]; reflexivity.
  - intros [= -> ->]; auto.
Qed.

Lemma str_eqb_refl a : str_eqb a a = true.
Proof. apply str_eqb_eq. reflexivity. Qed.

Lemma str_eqb_neq a b : a <> b -> str_eqb a b = false.
Proof.
  intros H. destruct (str_eqb a b) eqn:E; [|reflexivity].
  apply str_eqb_eq in E. contradiction.
Qed.

Lemma dict_get_set_same d k v : dict_get (dict_set d k v) k = Some v.
Proof.
  induction d as [|[k' v'] d IH]; simpl.
  - rewrite str_eqb_refl. reflexivity.
  - destruct (str_eqb k' k) eqn:E; simpl; rewrite E; [reflexivity|exact IH].
Qed.

Lemma dict_get_set_other d k v k' :
  k <> k' -> dict_get (dict_set d k v) k' = dict_get d k'.
Proof.
  intros Hk. induction d as [|[k0 v0] d IH]; simpl.
  - rewrite (str_eqb_neq _ _ Hk). reflexivity.
  - destruct (str_eqb k0 k) eqn:E; simpl.
    + apply str_eqb_eq in E. subst k0. rewrite (str_eqb_neq _ _ Hk). reflexivity.
    + rewrite IH. reflexivity.
Qed.

Lemma dict_set_set d k v v' : dict_set (dict_set d k v) k v' = dict_set d k v'.
Proof.
  induction d as [|[k0 v0] d IH]; simpl.
  - rewrite str_eqb_refl. reflexivity.
  - destruct (str_eqb k0 k) eqn:E; simpl; rewrite E; [reflexivity|].
    rewrite IH. reflexivity.
Qed.

(** The items of [d] stored under the key [k]. *)
Definition items_at (d : dict) (k : str) : list value :=
  map snd (filter (fun kv => str_eqb (fst kv) k) d).

Lemma items_at_absent d k : ~ In k (map fst d) -> items_at d k = [].
Proof.
  unfold items_at. induction d as [|[k0 v0] d IH]; simpl; [reflexivity|].
  intros H. destruct (str_eqb k0 k) eqn:E.
  - apply str_eqb_eq in E. subst. tauto.
  - apply IH. tauto.
Qed.

(** A dict with unique keys holds exactly the assigned value under the
    assigned key. *)
Lemma items_at_set d k v :
  NoDup (map fst d) -> items_at (dict_set d k v) k = [v].
Proof.
  unfold items_at. induction d as [|[k0 v0] d IH]; simpl; intros ND.
  - rewrite str_eqb_refl. reflexivity.
  - inversion ND as [|? ? Hnin ND']; subst.
    destruct (str_eqb k0 k) eqn:E; simpl; rewrite E.
    + apply str_eqb_eq in E. subst k0. simpl. f_equal.
      apply (items_at_absent d k Hnin).
    + apply IH. exact ND'.
Qed.

Lemma dict_set_keys d k v :
  map fst (dict_set d k v) =
  if dict_has d k then map fst d else map fst d ++ [k].
Proof.
  unfold dict_has. induction d as [|[k0 v0] d IH]; simpl; [reflexivity|].
  destruct (str_eqb k0 k) eqn:E; simpl; [reflexivity|].
  rewrite IH. destruct (dict_get d k); reflexivity.
Qed.

Lemma dict_get_none_keys d k : dict_get d k = None -> ~ In k (map fst d).
Proof.
  induction d as [|[k0 v0] d IH]; simpl; [tauto|].
  destruct (str_eqb k0 k) eqn:E; [discriminate|].
  intros H [H1|H1]; [subst; rewrite str_eqb_refl in E; discriminate|].
  exact (IH H H1).
Qed.

Lemma dict_set_nodup d k v : NoDup (map fst d) -> NoDup (map fst (dict_set d k v)).
Proof.
  intros ND. rewrite dict_set_keys. unfold dict_has.
  destruct (dict_get d k) eqn:E; [exact ND|].
  apply NoDup_app; [exact ND|constructor; [tauto|constructor]|].
  intros x Hx [Hk|[]]. subst x. exact (dict_get_none_keys d k E Hx).
Qed.

End DictFacts.

Module SpecFacts.
Import Spec DictFacts.

Section SpecFacts.

Context {L : PyLib}.

(** The operation object [merge_route] builds for a route, given the
    lower-cased method and the path. *)
Definition operation (route : dict) (method path : str) : dict :=
  let entry : dict :=
    [(lit "summary",
      get_or (dict_get route (lit "summary"))
             (VStr (str_upper method ++ lit " " ++ path)));
     (lit "parameters", get_or (dict_get route (lit "parameters")) (VList []));
     (lit "responses",
      get_or (dict_get route (lit "responses"))
             (VDict [(lit "200", _default_response)]))] in
  match dict_get route (lit "requestBody") with
  | None | Some VNone => entry
  | Some body =>
      dict_set entry (lit "requestBody")
        (VDict [(lit "required", VBool false);
                (lit "content",
                 VDict [(lit "application/json", VDict [(lit "schema", body)])])])
  end.

(** The operations already stored under a path. *)
Definition ops_at (p : dict) (path : str) : dict :=
  match dict_get p path with
  | Some (VDict o) => o
  | _ => []
  end.

(** [spec["paths"][path]], read as the list of the operation objects
    stored under [method]: a Python dict holds at most one. *)
Definition operations_at (spec : dict) (path method : str) : list value :=
  match dict_get spec (lit "paths") with
  | Some (VDict p) => items_at (ops_at p path) method
  | _ => []
  end.

(** [spec["paths"][path][method]] *)
Definition lookup_operation (spec : dict) (path method : str) : option value :=
  match dict_get spec (lit "paths") with
  | Some (VDict p) => dict_get (ops_at p path) method
  | _ => None
  end.

(** A document as the assembler keeps it: [paths] maps each path to a
    dict of operations (with the unique keys every Python dict has). *)
Definition document (spec : dict) : Prop :=
  exists p, dict_get spec (lit "paths") = Some (VDict p) /\
            forall k v, dict_get p k = Some v ->
                        exists o, v = VDict o /\ NoDup (map fst o).

Lemma skeleton_document title version servers :
  document (build_openapi_skeleton title version servers).
Proof. exists []. split; [reflexivity|]. intros k v H. discriminate. Qed.

(** What a merge does to a document. *)
Lemma merge_route_eq spec route path m p :
  dict_get route (lit "path") = Some (VStr path) ->
  dict_get route (lit "method") = Some (VStr m) ->
  dict_get spec (lit "paths") = Some (VDict p) ->
  (forall v, dict_get p path = Some v -> exists o, v = VDict o) ->
  merge_route spec route =
  Ok (dict_set spec (lit "paths")
        (VDict (dict_set p path
                  (VDict (dict_set (ops_at p path) (str_lower m)
                            (VDict (operation route (str_lower m) path))))))).
Proof.
  intros Hp Hm Hs Ho. unfold merge_route, getitem. rewrite Hp, Hm. cbn [bind].
  unfold _ensure_path, getitem. rewrite Hs. cbn [bind as_key].
  fold (operation route (str_lower m) path).
  unfold dict_has, ops_at. destruct (dict_get p path) as [v|] eqn:E.
  - destruct (Ho v eq_refl) as [o ->]. cbn [bind]. rewrite Hs. cbn [bind subscript].
    unfold getitem. rewrite E. reflexivity.
  - cbn [bind]. rewrite dict_get_set_same. cbn [bind subscript].
    unfold getitem. rewrite dict_get_set_same. cbn [bind setitem].
    rewrite !dict_set_set. reflexivity.
Qed.

Lemma merge_route_document spec route path m :
  dict_get route (lit "path") = Some (VStr path) ->
  dict_get route (lit "method") = Some (VStr m) ->
  document spec ->
  exists spec', merge_route spec route = Ok spec' /\ document spec' /\
    operations_at spec' path (str_lower m)
      = [VDict (operation route (str_lower m) path)] /\
    lookup_operation spec' path (str_lower m)
      = Some (VDict (operation route (str_lower m) path)).
Proof.
  intros Hp Hm [p [Hs Hd]].
  assert (Ho : forall v, dict_get p path = Some v -> exists o, v = VDict o).
  { intros v Hv. destruct (Hd _ _ Hv) as [o [-> _]]. exists o; reflexivity. }
  assert (ND : NoDup (map fst (ops_at p path))).
  { unfold ops_at. destruct (dict_get p path) as [v|] eqn:E; [|constructor].
    destruct (Hd _ _ E) as [o [-> ND]]. exact ND. }
  eexists. split; [apply (merge_route_eq spec route path m p Hp Hm Hs Ho)|].
  split; [|split].
  - eexists. split; [apply dict_get_set_same|].
    intros k v. destruct (list_eq_dec N.eq_dec path k) as [<-|Hk].
    + rewrite dict_get_set_same. intros [= <-]. eexists. split; [reflexivity|].
      apply dict_set_nodup. exact ND.
    + rewrite dict_get_set_other by exact Hk. apply Hd.
  - unfold operations_at. rewrite dict_get_set_same.
    unfold ops_at at 1. rewrite dict_get_set_same.
    apply items_at_set. exact ND.
  - unfold lookup_operation. rewrite dict_get_set_same.
    unfold ops_at at 1. rewrite dict_get_set_same.
    apply dict_get_set_same.
Qed.

(** The fields of the operation object. *)
Lemma operation_fields route method path :
  dict_get (operation route method path) (lit "summary")
  = Some (get_or (dict_get route (lit "summary"))
            (VStr (str_upper method ++ lit " " ++ path))) /\
  dict_get (operation route method path) (lit "parameters")
  = Some (get_or (dict_get route (lit "parameters")) (VList [])) /\
  dict_get (operation route method path) (lit "responses")
  = Some (get_or (dict_get route (lit "responses"))
            (VDict [(lit "200", _default_response)])) /\
  dict_get (operation route method path) (lit "requestBody")
  = match dict_get route (lit "requestBody") with
    | None | Some VNone => None
    | Some body =>
        Some (VDict [(lit "required", VBool false);
                     (lit "content",
                      VDict [(lit "application/json",
                              VDict [(lit "schema", body)])])])
    end /\
  (forall k, In k (map fst (operation route method path)) ->
             In k [lit "summary"; lit "parameters"; lit "responses";
                   lit "requestBody"]).
Proof.
  unfold operation.
  destruct (dict_get route (lit "requestBody")) as [[]|];
    (split; [reflexivity|]; split; [reflexivity|]; split; [reflexivity|];
     split; [reflexivity|]; intros k H; simpl in H |- *; tauto).
Qed.

(** C6: merging two routes with the same path and the same method up to
    case, one after the other, raises no error and leaves exactly one
    operation object at paths[path][lower-cased method], which holds the
    data of the second route and nothing of the first: its summary is the
    second route's summary, or "METHOD path" when the second route has
    none; its parameters and its responses are the second route's when
    these are not empty; its request body wraps the second route's, and it
    has none when the second route has none; it has no other entry. *)
Theorem merge_route_last_write_wins spec r1 r2 path m1 m2 :
  document spec ->
  dict_get r1 (lit "path") = Some (VStr path) ->
  dict_get r1 (lit "method") = Some (VStr m1) ->
  dict_get r2 (lit "path") = Some (VStr path) ->
  dict_get r2 (lit "method") = Some (VStr m2) ->
  str_lower m1 = str_lower m2 ->
  exists spec1 spec2 op,
    merge_route spec r1 = Ok spec1 /\
    merge_route spec1 r2 = Ok spec2 /\
    operations_at spec2 path (str_lower m1) = [VDict op] /\
    lookup_operation spec2 path (str_lower m1) = Some (VDict op) /\
    (forall s, dict_get r2 (lit "summary") = Some (VStr s) -> s <> [] ->
               dict_get op (lit "summary") = Some (VStr s)) /\
    (dict_get r2 (lit "summary") = None \/
     dict_get r2 (lit "summary") = Some VNone \/
     dict_get r2 (lit "summary") = Some (VStr []) ->
     dict_get op (lit "summary")
     = Some (VStr (str_upper (str_lower m2) ++ lit " " ++ path))) /\
    (forall x l, dict_get r2 (lit "parameters") = Some (VList (x :: l)) ->
                 dict_get op (lit "parameters") = Some (VList (x :: l))) /\
    (dict_get r2 (lit "parameters") = None \/
     dict_get r2 (lit "parameters") = Some VNone \/
     dict_get r2 (lit "parameters") = Some (VList []) ->
     dict_get op (lit "parameters") = Some (VList [])) /\
    (forall kv d, dict_get r2 (lit "responses") = Some (VDict (kv :: d)) ->
                  dict_get op (lit "responses") = Some (VDict (kv :: d))) /\
    (forall body, dict_get r2 (lit "requestBody") = Some body -> body <> VNone ->
       dict_get op (lit "requestBody")
       = Some (VDict [(lit "required", VBool false);
                      (lit "content",
                       VDict [(lit "application/json",
                               VDict [(lit "schema", body)])])])) /\
    (dict_get r2 (lit "requestBody") = None \/
     dict_get r2 (lit "requestBody") = Some VNone ->
     dict_get op (lit "requestBody") = None) /\
    (forall k, In k (map fst op) ->
               In k [lit "summary"; lit "parameters"; lit "responses";
                     lit "requestBody"]).
Proof.
  intros Hd Hp1 Hm1 Hp2 Hm2 Hl.
  destruct (merge_route_document spec r1 path m1 Hp1 Hm1 Hd)
    as (spec1 & E1 & Hd1 & _ & _).
  destruct (merge_route_document spec1 r2 path m2 Hp2 Hm2 Hd1)
    as (spec2 & E2 & _ & O2 & K2).
  destruct (operation_fields r2 (str_lower m2) path) as (Fs & Fp & Fr & Fb & Fk).
  exists spec1, spec2, (operation r2 (str_lower m2) path). rewrite Hl.
  split; [exact E1|]. split; [exact E2|]. split; [exact O2|]. split; [exact K2|].
  split; [|split; [|split; [|split; [|split; [|split; [|split]]]]]].
  - intros s0 H Hne. rewrite Fs, H. destruct s0; [congruence|reflexivity].
  - intros H. rewrite Fs. destruct H as [-> | [-> | ->]]; reflexivity.
  - intros x l H. rewrite Fp, H. reflexivity.
  - intros H. rewrite Fp. destruct H as [-> | [-> | ->]]; reflexivity.
  - intros kv d H. rewrite Fr, H. reflexivity.
  - intros body H Hne. rewrite Fb, H. destruct body; try reflexivity. congruence.
  - intros H. rewrite Fb. destruct H as [-> | ->]; reflexivity.
  - exact Fk.
Qed.

(** C8: for a route whose responses are absent, null or empty, the merged
    operation has a responses map with the single key "200", bound to an
    OK response whose application/json schema is
    {type: object, additionalProperties: true}. *)
Theorem merge_route_default_response spec route path m :
  document spec ->
  dict_get route (lit "path") = Some (VStr path) ->
  dict_get route (lit "method") = Some (VStr m) ->
  (dict_get route (lit "responses") = None \/
   dict_get route (lit "responses") = Some VNone \/
   dict_get route (lit "responses") = Some (VDict [])) ->
  exists spec' op,
    merge_route spec route = Ok spec' /\
    lookup_operation spec' path (str_lower m) = Some (VDict op) /\
    dict_get op (lit "responses") =
    Some (VDict
      [(lit "200",
        VDict [(lit "description", VStr (lit "OK"));
               (lit "content",
                VDict [(lit "application/json",
                        VDict [(lit "schema",
                                VDict [(lit "type", VStr (lit "object"));
                                       (lit "additionalProperties", VBool true)])])])])]).
Proof.
  intros Hd Hp Hm Hr.
  destruct (merge_route_document spec route path m Hp Hm Hd)
    as (spec' & E & _ & _ & K).
  exists spec', (operation route (str_lower m) path).
  split; [exact E|]. split; [exact K|].
  assert (G : get_or (dict_get route (lit "responses"))
                (VDict [(lit "200", _default_response)])
              = VDict [(lit "200", _default_response)]).
  { destruct Hr as [-> | [-> | ->]]; reflexivity. }
  unfold operation. rewrite G.
  destruct (dict_get route (lit "requestBody")) as [[]|]; reflexivity.
Qed.

End SpecFacts.

(** Two routes for GET /a: the first, written [GET], has a summary, a
    parameter, a request body and a 404 response; the second, written
    [get], has another summary and a 200 response only. *)
Definition route_first : dict :=
  [(lit "path", VStr (lit "/a")); (lit "method", VStr (lit "GET"));
   (lit "summary", VStr (lit "Old"));
   (lit "parameters", VList [VDict [(lit "name", VStr (lit "id"))]]);
   (lit "requestBody", VDict [(lit "type", VStr (lit "string"))]);
   (lit "responses", VDict [(lit "404", VDict [(lit "description", VStr (lit "No"))])])].

Definition route_second : dict :=
  [(lit "path", VStr (lit "/a")); (lit "method", VStr (lit "get"));
   (lit "summary", VStr (lit "New"));
   (lit "responses", VDict [(lit "200", VDict [(lit "description", VStr (lit "Yes"))])])].

(** Merged one after the other into the skeleton: one operation is
    left under [/a], [get], and it is the second route's. *)
Lemma merge_route_last_write_wins_witness :
  (s1 <- @merge_route Sample.lib Sample.skeleton route_first ;;
   s2 <- @merge_route Sample.lib s1 route_second ;;
   Ok (dict_get s2 (lit "paths")))
  = Ok (Some (VDict
      [(lit "/a",
        VDict [(lit "get",
                VDict [(lit "summary", VStr (lit "New"));
                       (lit "parameters", VList []);
                       (lit "responses",
                        VDict [(lit "200",
                                VDict [(lit "description", VStr (lit "Yes"))])])])])])) /\
  exists spec1 spec2 op,
    @merge_route Sample.lib Sample.skeleton route_first = Ok spec1 /\
    @merge_route Sample.lib spec1 route_second = Ok spec2 /\
    operations_at spec2 (lit "/a") (lit "get") = [VDict op] /\
    lookup_operation spec2 (lit "/a") (lit "get") = Some (VDict op) /\
    (forall s, dict_get route_second (lit "summary") = Some (VStr s) -> s <> [] ->
               dict_get op (lit "summary") = Some (VStr s)) /\
    (dict_get route_second (lit "summary") = None \/
     dict_get route_second (lit "summary") = Some VNone \/
     dict_get route_second (lit "summary") = Some (VStr []) ->
     dict_get op (lit "summary") = Some (VStr (lit "GET /a"))) /\
    (forall x l, dict_get route_second (lit "parameters") = Some (VList (x :: l)) ->
                 dict_get op (lit "parameters") = Some (VList (x :: l))) /\
    (dict_get route_second (lit "parameters") = None \/
     dict_get route_second (lit "parameters") = Some VNone \/
     dict_get route_second (lit "parameters") = Some (VList []) ->
     dict_get op (lit "parameters") = Some (VList [])) /\
    (forall kv d, dict_get route_second (lit "responses") = Some (VDict (kv :: d)) ->
                  dict_get op (lit "responses") = Some (VDict (kv :: d))) /\
    (forall body, dict_get route_second (lit "requestBody") = Some body ->
       body <> VNone ->
       dict_get op (lit "requestBody")
       = Some (VDict [(lit "required", VBool false);
                      (lit "content",
                       VDict [(lit "application/json",
                               VDict [(lit "schema", body)])])])) /\
    (dict_get route_second (lit "requestBody") = None \/
     dict_get route_second (lit "requestBody") = Some VNone ->
     dict_get op (lit "requestBody") = None) /\
    (forall k, In k (map fst op) ->
               In k [lit "summary"; lit "parameters"; lit "responses";
                     lit "requestBody"]).
Proof.
  split; [vm_compute; reflexivity|].
  apply (@merge_route_last_write_wins Sample.lib Sample.skeleton
           route_first route_second (lit "/a") (lit "GET") (lit "get"));
    try reflexivity.
  apply skeleton_document.
Defined.

(** A route with an empty responses map, merged into the skeleton. *)
Lemma merge_route_default_response_witness :
  exists spec' op,
    @merge_route Sample.lib Sample.skeleton Sample.route_lower = Ok spec' /\
    lookup_operation spec' (lit "/a") (lit "get") = Some (VDict op) /\
    dict_get op (lit "responses") =
    Some (VDict
      [(lit "200",
        VDict [(lit "description", VStr (lit "OK"));
               (lit "content",
                VDict [(lit "application/json",
                        VDict [(lit "schema",
                                VDict [(lit "type", VStr (lit "object"));
                                       (lit "additionalProperties", VBool true)])])])])]).
Proof.
  apply (@merge_route_default_response Sample.lib Sample.skeleton
           Sample.route_lower (lit "/a") (lit "get")); try reflexivity.
  - apply skeleton_document.
  - right; right; reflexivity.
Defined.

End SpecFacts.

(* ================================================================= *)
(** ** Properties of core/searcher.py *)

Module SearcherFacts.
Import Searcher.

Section SearcherFacts.

Context {L : PyLib}.
Variable glob_glob : str -> list str.
Variable open_lines : str -> result (list str).

(** What one file contributes: at most [limit] matches, and one match
    when [limit] is below 1 (the cap is tested after the append). *)
Lemma grep_lines_bound pattern path lines context limit todo : forall i matches,
  (len matches < Z.max limit 1)%Z ->
  (len (grep_lines pattern path lines context limit i todo matches)
   <= Z.max limit 1)%Z.
Proof.
  induction todo as [|line todo IH]; intros i matches Hm; cbn [grep_lines]; [lia|].
  destruct (pattern line); [|apply IH; exact Hm].
  set (m := Match.mk _ _ _ _ _).
  assert (Hl : len (matches ++ [m]) = (len matches + 1)%Z).
  { unfold len. rewrite length_app. simpl. lia. }
  destruct (len (matches ++ [m]) >=? limit)%Z eqn:E.
  - lia.
  - apply IH. rewrite Z.geb_leb in E. apply Z.leb_gt in E. lia.
Qed.

Lemma _grep_file_bound path regex context limit ms :
  _grep_file open_lines path regex context limit = Ok ms ->
  (len ms <= Z.max limit 1)%Z.
Proof.
  unfold _grep_file. destruct (re_compile_ignorecase regex) as [pattern|].
  - destruct (open_lines path) as [lines|e]; [|discriminate].
    cbn [bind]. intros [= <-]. apply grep_lines_bound. unfold len. simpl. lia.
  - intros [= <-]. unfold len. simpl. lia.
Qed.

(** What the files of one query contribute: the cap is tested between
    files, after a whole file has been added, so a query can hold up to
    [limit - 1] matches from earlier files plus [limit] from the last. *)
Lemma search_files_bound regex context limit files : forall acc r,
  (len acc < Z.max limit 1)%Z ->
  search_files open_lines files regex context limit acc = Ok r ->
  (len r <= 2 * Z.max limit 1 - 1)%Z.
Proof.
  induction files as [|f files IH]; intros acc r Ha; cbn [search_files].
  - intros [= <-]. lia.
  - destruct (_grep_file open_lines f regex context limit) as [ms|e] eqn:G;
      [|discriminate]. cbn [bind].
    pose proof (_grep_file_bound _ _ _ _ _ G) as Hms.
    assert (Hl : len (acc ++ ms) = (len acc + len ms)%Z).
    { unfold len. rewrite length_app. lia. }
    destruct (len (acc ++ ms) >=? limit)%Z eqn:E.
    + intros [= <-]. lia.
    + apply IH. rewrite Z.geb_leb in E. apply Z.leb_gt in E. lia.
Qed.

Lemma multi_search_bound repo_dir context limit queries : forall idx results,
  search_queries glob_glob open_lines repo_dir context limit idx queries = Ok results ->
  Forall (fun kv => (len (snd kv) <= 2 * Z.max limit 1 - 1)%Z) results.
Proof.
  induction queries as [|q queries IH]; intros idx results; simpl.
  - intros [= <-]. constructor.
  - destruct (search_files open_lines _ _ context limit []) as [acc|e] eqn:S;
      [|discriminate]. cbn [bind].
    destruct (search_queries glob_glob open_lines repo_dir context limit (idx + 1) queries)
      as [rest|e] eqn:R; [|discriminate]. cbn [bind]. intros [= <-].
    constructor; [|exact (IH _ _ R)].
    simpl. refine (search_files_bound _ _ _ _ [] acc _ S). unfold len. simpl. lia.
Qed.

(** Each list of the mapping [multi_search] returns holds at most
    [2 * max(limit, 1) - 1] matches. *)
Theorem multi_search_at_most repo_dir queries context limit results :
  multi_search glob_glob open_lines repo_dir queries context limit = Ok results ->
  Forall (fun kv => (len (snd kv) <= 2 * Z.max limit 1 - 1)%Z) results.
Proof. apply multi_search_bound. Qed.

End SearcherFacts.

(** The bound is reached by the two files of the sample repository. *)
Lemma multi_search_at_most_witness :
  match @multi_search Sample.lib Sample.two_files_glob Sample.two_files_open
          (lit "/r") [Sample.query_x] 0 2 with
  | Ok results => Forall (fun kv => (len (snd kv) <= 2 * Z.max 2 1 - 1)%Z) results
  | Raise _ => False
  end.
Proof.
  destruct (@multi_search Sample.lib Sample.two_files_glob Sample.two_files_open
              (lit "/r") [Sample.query_x] 0 2) as [results|e] eqn:E.
  - exact (@multi_search_at_most Sample.lib Sample.two_files_glob
             Sample.two_files_open (lit "/r") [Sample.query_x] 0 2 results E).
  - vm_compute in E. discriminate.
Defined.

(** C3, as the code computes it: with [limit = 2], a query whose glob
    gives a file with one matching line and then a file with two matching
    lines returns three matches. The first file leaves the accumulator
    below the cap, and the second file adds its own full quota. *)
Theorem multi_search_exceeds_limit :
  exists m1 m2 m3,
    @multi_search Sample.lib Sample.two_files_glob Sample.two_files_open
      (lit "/r") [Sample.query_x] 0 2
    = Ok [(0%Z, [m1; m2; m3])] /\
    Match.file m1 = lit "/r/a.py" /\ Match.line m1 = 1%Z /\
    Match.file m2 = lit "/r/b.py" /\ Match.line m2 = 1%Z /\
    Match.file m3 = lit "/r/b.py" /\ Match.line m3 = 2%Z /\
    (2 < len [m1; m2; m3])%Z.
Proof.
  do 3 eexists. split; [vm_compute; reflexivity|].
  repeat (split; [reflexivity|]). reflexivity.
Qed.

End SearcherFacts.

(* ================================================================= *)
(** ** Properties of core/indexer.py *)

Module IndexerFacts.
Import Indexer.

Section IndexerFacts.

Context {L : PyLib}.















End IndexerFacts.






End IndexerFacts.

(* ================================================================= *)
(** ** Properties of core/llm.py *)

Module LlmFacts.
Import Llm.

Section LlmFacts.

Context {L : PyLib}.
Variable api_key : option str.

(** A text with no brace in it that the decoder rejects makes
    [gemini_json] raise what the decoder raised. *)
Lemma gemini_json_not_json k ks text e :
  api_key = Some (k :: ks) -> text <> [] ->
  json_loads text = Raise e ->
  Re.search_group0 brace_re text = None ->
  gemini_json api_key (Ok (Some text)) = Raise e.
Proof.
  intros -> Ht Hj Hs. unfold gemini_json. cbn [_ensure_client bind].
  destruct text as [|c t]; [congruence|]. rewrite Hj, Hs. reflexivity.
Qed.

End LlmFacts.

(** A reply that decodes to an object whose summary is a number does not
    validate: the enrichment is all null. *)
Example enrich_route_invalid_shape :
  @enrich_route Sample.lib (Some (lit "key")) Sample.some_snippet
    (lit "get") (lit "/a")
    (Ok (Some (lit "{" ++ Searcher.quote ++ lit "summary" ++ Searcher.quote ++ lit ": 5}")))
  = Ok null_enrichment.
Proof. vm_compute. reflexivity. Qed.

(** When the service answers [oops], which is not JSON and holds no
    braces, [enrich_route] raises the decoding error. *)
Lemma enrich_route_raises :
  @gemini_json Sample.lib (Some (lit "key")) (Ok (Some (lit "oops")))
  = Raise JSONDecodeError /\
  @enrich_route Sample.lib (Some (lit "key")) Sample.some_snippet
    (lit "get") (lit "/a") (Ok (Some (lit "oops")))
  = Raise JSONDecodeError.
Proof. split; vm_compute; reflexivity. Qed.

End LlmFacts.

(* ================================================================= *)
(** ** Properties of app.py *)

Module AppFacts.
Import App.

Section AppFacts.

Context {L : PyLib}.
Variable w : World.

Definition counts (matches : list (Z * list Match.t)) : list (Z * Z) :=
  map (fun kv => (fst kv, len (snd kv))) matches.

(** The search stage, by the number of matches of the planned queries. *)
Lemma search_rounds_eq repo_dir plan context planned :
  Searcher.multi_search (glob_glob w) (open_lines w) repo_dir
    (SearchPlan.searches plan) context 50 = Ok planned ->
  search_rounds w repo_dir plan context =
  if (total_matches planned =? 0)%Z then
    match Searcher.multi_search (glob_glob w) (open_lines w) repo_dir
            Searcher.FALLBACK_QUERIES context 50 with
    | Ok fallback => Ok (true, fallback)
    | Raise e => Raise e
    end
  else Ok (false, planned).
Proof.
  intros H. unfold search_rounds. rewrite H. cbn [bind].
  destruct (total_matches planned =? 0)%Z; [|reflexivity].
  destruct (Searcher.multi_search _ _ _ Searcher.FALLBACK_QUERIES _ _); reflexivity.
Qed.

(** What a response says about the search stage. *)
Lemma generate_rounds req resp :
  generate w req = Ok resp ->
  exists repo_dir plan used_fallback matches,
    clone_repo w (GenerateRequest.repo_url req) = Ok repo_dir /\
    Llm.plan_search (api_key w)
      (Indexer.build_inventory (repo_tree w repo_dir)
         (GenerateOptions.exts (GenerateRequest.options req))
         (GenerateOptions.max_files (GenerateRequest.options req))
         (GenerateOptions.max_bytes_per_file (GenerateRequest.options req)))
      (llm_reply w 0) = Ok plan /\
    search_rounds w repo_dir plan
      (GenerateOptions.context_lines (GenerateRequest.options req))
      = Ok (used_fallback, matches) /\
    GenerateResponse.rounds_used resp = (1 + (if used_fallback then 1 else 0))%Z /\
    Report.searches (GenerateResponse.report resp)
      = (if used_fallback then Searcher.FALLBACK_QUERIES
         else SearchPlan.searches plan) /\
    Report.matches_counts (GenerateResponse.report resp) = counts matches.
Proof.
  unfold generate.
  destruct (clone_repo w (GenerateRequest.repo_url req)) as [repo_dir|] eqn:C;
    [|discriminate]. cbn [bind].
  destruct (Llm.plan_search _ _ _) as [plan|] eqn:P; [|discriminate]. cbn [bind].
  destruct (search_rounds w repo_dir plan _) as [[used matches]|] eqn:S;
    [|discriminate]. cbn [bind fst snd].
  destruct (Llm.extract_routes _ _ _) as [routes|]; [|discriminate]. cbn [bind].
  destruct (merge_all _ _ _ _ _ _) as [[spec merged]|]; [|discriminate].
  cbn [bind fst snd].
  match goal with
  | |- bind ?c _ = _ -> _ => destruct c as [[spec' notes]|]; [|discriminate]
  end.
  cbn [bind fst snd].
  destruct (Spec.export_spec _ _ _) as [spec_path|]; [|discriminate]. cbn [bind].
  intros [= <-]. exists repo_dir, plan, used, matches.
  split; [reflexivity|]. split; [exact P|]. split; [exact S|].
  cbn. repeat (split; [reflexivity|]). reflexivity.
Qed.

(** No match summed over the queries: every list is empty. *)
Lemma total_matches_zero (matches : list (Z * list Match.t)) :
  total_matches matches = 0%Z <-> Forall (fun kv => snd kv = []) matches.
Proof.
  assert (Hpos : forall ms : list (Z * list Match.t), (0 <= total_matches ms)%Z).
  { induction ms as [|kv ms IH]; cbn [total_matches fold_right]; [lia|].
    fold (total_matches ms). unfold len. lia. }
  induction matches as [|kv ms IH]; cbn [total_matches fold_right].
  - split; [constructor|reflexivity].
  - fold (total_matches ms). pose proof (Hpos ms) as H0. split.
    + intros H. constructor.
      * destruct (snd kv); [reflexivity|]. unfold len in H. cbn [length] in H. lia.
      * apply IH. unfold len in H. lia.
    + intros H. inversion H as [|? ? Hk Hms]; subst. rewrite Hk.
      apply IH in Hms. rewrite Hms. reflexivity.
Qed.

Lemma total_matches_pos (matches : list (Z * list Match.t)) :
  Exists (fun kv => snd kv <> []) matches -> total_matches matches <> 0%Z.
Proof.
  intros HE H0. apply total_matches_zero in H0.
  apply Exists_exists in HE. destruct HE as (kv & Hin & Hne).
  rewrite Forall_forall in H0. exact (Hne (H0 kv Hin)).
Qed.

(** C5: in every request that is answered, the planned queries were
    searched first. When none of them has a match, the search was run
    again with the fallback queries, the fallback queries and the numbers
    of their matches are the ones reported and [rounds_used] is 2. When
    one of them has a match, the planned queries and the numbers of their
    matches are the ones reported and [rounds_used] is 1. *)
Theorem post_generate_rounds_used req resp :
  post_generate w req = Response resp ->
  exists repo_dir plan planned,
    clone_repo w (GenerateRequest.repo_url req) = Ok repo_dir /\
    Llm.plan_search (api_key w)
      (Indexer.build_inventory (repo_tree w repo_dir)
         (GenerateOptions.exts (GenerateRequest.options req))
         (GenerateOptions.max_files (GenerateRequest.options req))
         (GenerateOptions.max_bytes_per_file (GenerateRequest.options req)))
      (llm_reply w 0) = Ok plan /\
    Searcher.multi_search (glob_glob w) (open_lines w) repo_dir
      (SearchPlan.searches plan)
      (GenerateOptions.context_lines (GenerateRequest.options req)) 50
      = Ok planned /\
    (Forall (fun kv => snd kv = []) planned ->
       GenerateResponse.rounds_used resp = 2%Z /\
       Report.searches (GenerateResponse.report resp) = Searcher.FALLBACK_QUERIES /\
       exists fallback,
         Searcher.multi_search (glob_glob w) (open_lines w) repo_dir
           Searcher.FALLBACK_QUERIES
           (GenerateOptions.context_lines (GenerateRequest.options req)) 50
           = Ok fallback /\
         Report.matches_counts (GenerateResponse.report resp)
         = map (fun kv => (fst kv, Z.of_nat (length (snd kv)))) fallback) /\
    (Exists (fun kv => snd kv <> []) planned ->
       GenerateResponse.rounds_used resp = 1%Z /\
       Report.searches (GenerateResponse.report resp) = SearchPlan.searches plan /\
       Report.matches_counts (GenerateResponse.report resp)
       = map (fun kv => (fst kv, Z.of_nat (length (snd kv)))) planned).
Proof.
  unfold post_generate. destruct (generate w req) as [r|e] eqn:G; [|discriminate].
  intros [= ->].
  destruct (generate_rounds req resp G)
    as (repo_dir & plan & used & matches & C & P & S & R & Q & M).
  exists repo_dir, plan.
  destruct (Searcher.multi_search (glob_glob w) (open_lines w) repo_dir
              (SearchPlan.searches plan)
              (GenerateOptions.context_lines (GenerateRequest.options req)) 50)
    as [planned|e] eqn:E.
  2:{ unfold search_rounds in S. rewrite E in S. discriminate. }
  exists planned. split; [exact C|]. split; [exact P|]. split; [reflexivity|].
  rewrite (search_rounds_eq repo_dir plan _ planned E) in S.
  destruct (total_matches planned =? 0)%Z eqn:T.
  - apply Z.eqb_eq in T.
    destruct (Searcher.multi_search _ _ _ Searcher.FALLBACK_QUERIES _ _)
      as [fallback|e] eqn:F; [|discriminate].
    injection S as <- <-. split.
    + intros _. split; [exact R|]. split; [exact Q|].
      exists fallback. split; [reflexivity|exact M].
    + intros H. destruct (total_matches_pos planned H T).
  - apply Z.eqb_neq in T. injection S as <- <-. split.
    + intros H. apply total_matches_zero in H. contradiction.
    + intros _. split; [exact R|]. split; [exact Q|exact M].
Qed.

End AppFacts.

Definition in_quotes (s : string) : str := Searcher.quote ++ lit s ++ Searcher.quote.

(** A plan with one query, for the lines that hold [x] in Python files. *)
Definition plan_x_text : str :=
  lit "{" ++ in_quotes "frameworks" ++ lit ": [], " ++ in_quotes "searches"
  ++ lit ": [{" ++ in_quotes "regex" ++ lit ": " ++ in_quotes "x" ++ lit ", "
  ++ in_quotes "glob" ++ lit ": " ++ in_quotes "**/*.py" ++ lit ", "
  ++ in_quotes "why" ++ lit ": " ++ in_quotes "lines with x" ++ lit "}]}".

(** A service that plans this query and then reports no route, over the
    checkout with two Python files. *)
Definition two_files_world : World :=
  mk_world
    (fun _ => Ok (lit "/r"))
    (fun _ => [])
    Sample.two_files_glob
    Sample.two_files_open
    (Some (lit "key"))
    (fun n => match n with
              | O => Ok (Some plan_x_text)
              | S _ => Ok (Some (lit "[]"))
              end)
    (fun _ _ => Ok tt).

(** Two requests. Over an empty checkout the planned queries (none) find
    nothing: the fallback queries are searched and two rounds are
    reported. Over the two files the planned query finds three lines: one
    round is reported, with the planned query. *)
Lemma post_generate_rounds_used_witness :
  (exists resp,
    @post_generate Sample.lib Sample.quiet_world Sample.some_request = Response resp /\
    GenerateResponse.rounds_used resp = 2%Z /\
    Report.searches (GenerateResponse.report resp) = Searcher.FALLBACK_QUERIES /\
    exists repo_dir plan planned,
      clone_repo Sample.quiet_world
        (GenerateRequest.repo_url Sample.some_request) = Ok repo_dir /\
      @Llm.plan_search Sample.lib (api_key Sample.quiet_world)
        (@Indexer.build_inventory Sample.lib
           (repo_tree Sample.quiet_world repo_dir)
           (GenerateOptions.exts (GenerateRequest.options Sample.some_request))
           (GenerateOptions.max_files (GenerateRequest.options Sample.some_request))
           (GenerateOptions.max_bytes_per_file
              (GenerateRequest.options Sample.some_request)))
        (llm_reply Sample.quiet_world 0) = Ok plan /\
      @Searcher.multi_search Sample.lib (glob_glob Sample.quiet_world)
        (open_lines Sample.quiet_world) repo_dir (SearchPlan.searches plan)
        (GenerateOptions.context_lines (GenerateRequest.options Sample.some_request)) 50
        = Ok planned /\
      (Forall (fun kv => snd kv = []) planned ->
         GenerateResponse.rounds_used resp = 2%Z /\
         Report.searches (GenerateResponse.report resp) = Searcher.FALLBACK_QUERIES /\
         exists fallback,
           @Searcher.multi_search Sample.lib (glob_glob Sample.quiet_world)
             (open_lines Sample.quiet_world) repo_dir Searcher.FALLBACK_QUERIES
             (GenerateOptions.context_lines
                (GenerateRequest.options Sample.some_request)) 50
             = Ok fallback /\
           Report.matches_counts (GenerateResponse.report resp)
           = map (fun kv => (fst kv, Z.of_nat (length (snd kv)))) fallback) /\
      (Exists (fun kv => snd kv <> []) planned ->
         GenerateResponse.rounds_used resp = 1%Z /\
         Report.searches (GenerateResponse.report resp) = SearchPlan.searches plan /\
         Report.matches_counts (GenerateResponse.report resp)
         = map (fun kv => (fst kv, Z.of_nat (length (snd kv)))) planned)) /\
  (exists resp,
    @post_generate Sample.lib two_files_world Sample.some_request = Response resp /\
    GenerateResponse.rounds_used resp = 1%Z /\
    Report.searches (GenerateResponse.report resp)
    = [SearchQuery.mk (lit "x") (lit "**/*.py") (lit "lines with x")] /\
    Report.matches_counts (GenerateResponse.report resp) = [(0%Z, 3%Z)] /\
    exists repo_dir plan planned,
      clone_repo two_files_world
        (GenerateRequest.repo_url Sample.some_request) = Ok repo_dir /\
      @Llm.plan_search Sample.lib (api_key two_files_world)
        (@Indexer.build_inventory Sample.lib
           (repo_tree two_files_world repo_dir)
           (GenerateOptions.exts (GenerateRequest.options Sample.some_request))
           (GenerateOptions.max_files (GenerateRequest.options Sample.some_request))
           (GenerateOptions.max_bytes_per_file
              (GenerateRequest.options Sample.some_request)))
        (llm_reply two_files_world 0) = Ok plan /\
      @Searcher.multi_search Sample.lib (glob_glob two_files_world)
        (open_lines two_files_world) repo_dir (SearchPlan.searches plan)
        (GenerateOptions.context_lines (GenerateRequest.options Sample.some_request)) 50
        = Ok planned /\
      (Forall (fun kv => snd kv = []) planned ->
         GenerateResponse.rounds_used resp = 2%Z /\
         Report.searches (GenerateResponse.report resp) = Searcher.FALLBACK_QUERIES /\
         exists fallback,
           @Searcher.multi_search Sample.lib (glob_glob two_files_world)
             (open_lines two_files_world) repo_dir Searcher.FALLBACK_QUERIES
             (GenerateOptions.context_lines
                (GenerateRequest.options Sample.some_request)) 50
             = Ok fallback /\
           Report.matches_counts (GenerateResponse.report resp)
           = map (fun kv => (fst kv, Z.of_nat (length (snd kv)))) fallback) /\
      (Exists (fun kv => snd kv <> []) planned ->
         GenerateResponse.rounds_used resp = 1%Z /\
         Report.searches (GenerateResponse.report resp) = SearchPlan.searches plan /\
         Report.matches_counts (GenerateResponse.report resp)
         = map (fun kv => (fst kv, Z.of_nat (length (snd kv)))) planned)).
Proof.
  split.
  - eexists. split; [vm_compute; reflexivity|].
    split; [reflexivity|]. split; [reflexivity|].
    apply (@post_generate_rounds_used Sample.lib Sample.quiet_world Sample.some_request).
    vm_compute. reflexivity.
  - eexists. split; [vm_compute; reflexivity|].
    split; [reflexivity|]. split; [reflexivity|]. split; [reflexivity|].
    apply (@post_generate_rounds_used Sample.lib two_files_world Sample.some_request).
    vm_compute. reflexivity.
Defined.

End AppFacts.

(* ================================================================= *)
(** ** More on core/normalize.py *)

Module NormalizeMore.
Import Re ReFacts Normalize NormalizeFacts.

(** Every [:name] has been rewritten: in a normalized path no colon is
    directly followed by a character of [[A-Za-z0-9_]]. *)
Theorem normalize_path_no_colon_param raw :
  no_colon_name (normalize_path raw) = true /\
  search colon_re (normalize_path raw) = false.
Proof.
  assert (H : no_colon_name (normalize_path raw) = true).
  { rewrite normalize_path_eq. apply rewrites_no_colon_name. }
  split; [exact H|]. apply no_colon_name_search. exact H.
Qed.

(** A path that is already in canonical form is returned as it is. *)
Theorem normalize_path_canonical p :
  hd_is (is_char "/") p = true ->
  last_is is_space p = false ->
  search colon_re p = false ->
  search untyped_re p = false ->
  search slashes_re p = false ->
  normalize_path p = p.
Proof.
  intros Hh Hl Hc Hu Hs. rewrite normalize_path_eq.
  rewrite (framed_strip_lead p (conj Hh Hl)). unfold rewrites.
  rewrite (sub_id colon_re) by exact Hc.
  rewrite (sub_id typed_re) by (apply typed_untyped_search; exact Hu).
  rewrite (sub_id untyped_re) by exact Hu.
  apply sub_id. exact Hs.
Qed.

Lemma normalize_path_canonical_witness :
  normalize_path (lit "/users/{id}/posts") = lit "/users/{id}/posts".
Proof.
  apply normalize_path_canonical; reflexivity.
Defined.

(** A path without an opening brace has no parameter. *)
Theorem extract_path_params_no_brace path :
  forallb (not_char "{") path = true -> extract_path_params path = [].
Proof.
  intros H. unfold extract_path_params.
  rewrite <- (app_nil_r path). rewrite (findall_param_sep path [] H). reflexivity.
Qed.

Lemma extract_path_params_no_brace_witness :
  extract_path_params (lit "/health/live") = [].
Proof. apply extract_path_params_no_brace. reflexivity. Defined.

(** *** Paths written segment by segment

    A route path in Express or Flask notation: literal segments and
    parameters written [:name] or [<name>]. *)

Inductive segment : Type :=
| Lit (s : str)
| Colon (n : str)
| Angle (n : str).

(** Characters of a literal segment: [[A-Za-z0-9_.-]]. *)
Definition seg_char (c : N) : bool :=
  name_char c || N.eqb c (ch "-") || N.eqb c (ch ".").

Definition well_formed (g : segment) : Prop :=
  match g with
  | Lit s => s <> [] /\ forallb seg_char s = true
  | Colon n | Angle n => n <> [] /\ forallb name_char n = true
  end.

Definition raw_seg (g : segment) : str :=
  match g with
  | Lit s => s
  | Colon n => ch ":" :: n
  | Angle n => ch "<" :: n ++ [ch ">"]
  end.

(** After the colon rewrite. *)
Definition mid_seg (g : segment) : str :=
  match g with
  | Lit s => s
  | Colon n => braced n
  | Angle n => ch "<" :: n ++ [ch ">"]
  end.

Definition norm_seg (g : segment) : str :=
  match g with
  | Lit s => s
  | Colon n | Angle n => braced n
  end.

Definition path_with (f : segment -> str) (segs : list segment) : str :=
  concat (map (fun g => ch "/" :: f g) segs).

Definition param_names (segs : list segment) : list str :=
  flat_map (fun g => match g with
                     | Lit _ => []
                     | Colon n | Angle n => [n]
                     end) segs.

Lemma name_char_range c : name_char c = true -> (48 <= c <= 122)%N.
Proof.
  unfold name_char, is_upper, is_lower, is_digit, ch. simpl.
  rewrite !orb_true_iff, !andb_true_iff, !N.leb_le, N.eqb_eq. lia.
Qed.

Lemma seg_char_range c : seg_char c = true -> (45 <= c <= 122)%N.
Proof.
  unfold seg_char. rewrite !orb_true_iff. intros [[H|H]|H].
  - apply name_char_range in H. lia.
  - apply N.eqb_eq in H. subst. vm_compute. split; discriminate.
  - apply N.eqb_eq in H. subst. vm_compute. split; discriminate.
Qed.

Lemma seg_char_name c : name_char c = true -> seg_char c = true.
Proof. intros H. unfold seg_char. rewrite H. reflexivity. Qed.

(** Characters met in such paths, other than the one a pattern starts
    with. *)
Definition plain (c : N) : Prop := (45 <= c <= 125)%N.

Lemma plain_not_space c : plain c -> is_space c = false.
Proof.
  unfold plain, is_space. intros H. apply not_true_is_false. intros E.
  rewrite !orb_true_iff, !andb_true_iff, !N.leb_le, !N.eqb_eq in E. lia.
Qed.

Lemma forallb_impl (f g : N -> bool) (s : str) :
  (forall c, f c = true -> g c = true) -> forallb f s = true -> forallb g s = true.
Proof.
  intros H. induction s as [|x t IH]; simpl; [reflexivity|].
  intros E. apply andb_prop in E. destruct E as [E1 E2].
  rewrite (H _ E1), (IH E2). reflexivity.
Qed.

Lemma last_is_none f (s : str) :
  forallb (fun c => negb (f c)) s = true -> last_is f s = false.
Proof.
  induction s as [|x t IH]; simpl; [reflexivity|].
  intros E. apply andb_prop in E. destruct E as [E1 E2].
  destruct t; [apply negb_true_iff; exact E1|exact (IH E2)].
Qed.

(** The scan copies a run of characters none of which starts a match. *)
Lemma sub_skip a re tpl (s rest : str) :
  forallb (not_char a) s = true ->
  sub (One (is_char a) :: re) tpl (s ++ rest)
  = s ++ sub (One (is_char a) :: re) tpl rest.
Proof.
  induction s as [|x t IH]; simpl; intros H; [reflexivity|].
  apply andb_prop in H. destruct H as [Hx H].
  rewrite sub_miss; [rewrite (IH H); reflexivity|].
  rewrite match_One. rewrite not_char_is_char in Hx.
  apply negb_true_iff in Hx. rewrite Hx. reflexivity.
Qed.

Lemma take_while_app_end f (a rest : str) :
  forallb f a = true -> hd_is f rest = false -> take_while f (a ++ rest) = a.
Proof.
  intros Ha Hr. induction a as [|x a IH]; simpl in *.
  - destruct rest as [|c r]; [reflexivity|]. simpl in Hr. simpl. rewrite Hr. reflexivity.
  - apply andb_prop in Ha. destruct Ha as [Hx Ha]. rewrite Hx, (IH Ha). reflexivity.
Qed.

Lemma drop_while_app_end f (a rest : str) :
  forallb f a = true -> hd_is f rest = false -> drop_while f (a ++ rest) = rest.
Proof.
  intros Ha Hr. induction a as [|x a IH]; simpl in *.
  - destruct rest as [|c r]; [reflexivity|]. simpl in Hr. simpl. rewrite Hr. reflexivity.
  - apply andb_prop in Ha. destruct Ha as [Hx Ha]. rewrite Hx. exact (IH Ha).
Qed.

(** One [:name] at the start of the subject, before a character that
    cannot continue the name. *)
Lemma sub_colon_param n rest :
  n <> [] -> forallb name_char n = true -> hd_is name_char rest = false ->
  sub colon_re brace_group (ch ":" :: n ++ rest)
  = braced n ++ sub colon_re brace_group rest.
Proof.
  intros Hn Ha Hr. destruct n as [|y n]; [congruence|].
  simpl in Ha. apply andb_prop in Ha. destruct Ha as [Hy Ha].
  rewrite (sub_hit colon_re brace_group _ [y :: n] rest (consuming_One _ _)).
  - rewrite expand_brace. unfold braced, group. simpl.
    rewrite <- app_assoc. reflexivity.
  - rewrite match_colon. simpl. rewrite Hy.
    rewrite (take_while_app_end _ n rest Ha Hr), (drop_while_app_end _ n rest Ha Hr).
    reflexivity.
Qed.

(** One [<name>] at the start of the subject. *)
Lemma sub_untyped_param n rest :
  n <> [] -> forallb (not_char ">") n = true ->
  sub untyped_re brace_group (ch "<" :: n ++ ch ">" :: rest)
  = braced n ++ sub untyped_re brace_group rest.
Proof.
  intros Hn Ha. destruct n as [|y n]; [congruence|].
  simpl in Ha. apply andb_prop in Ha. destruct Ha as [Hy Ha].
  assert (Hstop : not_char ">" (ch ">") = false) by reflexivity.
  rewrite (sub_hit untyped_re brace_group _ [y :: n] rest (consuming_One _ _)).
  - rewrite expand_brace. unfold braced, group. simpl.
    rewrite <- app_assoc. reflexivity.
  - rewrite match_untyped. simpl. rewrite Hy.
    change 62%N with (ch ">").
    rewrite (drop_while_app_stop _ n _ rest Ha Hstop).
    rewrite (take_while_app_stop _ n _ rest Ha Hstop). reflexivity.
Qed.

Lemma class_not (f : N -> bool) a (s : str) :
  f (ch a) = false -> forallb f s = true -> forallb (not_char a) s = true.
Proof.
  intros Ha. apply forallb_impl. intros c Hc. unfold not_char.
  destruct (N.eqb_spec c (ch a)) as [->|]; [congruence|reflexivity].
Qed.

Lemma path_with_hd f segs :
  hd_is name_char (path_with f segs) = false.
Proof. destruct segs; reflexivity. Qed.

Lemma path_with_cons f g segs :
  path_with f (g :: segs) = ch "/" :: f g ++ path_with f segs.
Proof. reflexivity. Qed.

(** The colon rewrite, segment by segment. *)
Lemma sub_colon_segments segs :
  Forall well_formed segs ->
  sub colon_re brace_group (path_with raw_seg segs) = path_with mid_seg segs.
Proof.
  induction 1 as [|g segs Hg HF IH].
  - apply sub_nil, consuming_One.
  - rewrite !path_with_cons.
    rewrite sub_miss by (rewrite match_colon; destruct (raw_seg g ++ _); reflexivity).
    f_equal. destruct g as [s|n|n]; destruct Hg as [Hn Ha]; cbn [raw_seg mid_seg].
    + unfold colon_re. rewrite sub_skip; [fold colon_re; rewrite IH; reflexivity|].
      apply (class_not seg_char); [reflexivity|exact Ha].
    + rewrite <- app_comm_cons.
      rewrite (sub_colon_param n _ Hn Ha (path_with_hd _ _)). rewrite IH. reflexivity.
    + change (ch "<" :: n ++ [ch ">"]) with ([ch "<"] ++ n ++ [ch ">"]).
      rewrite <- !app_assoc. unfold colon_re.
      rewrite sub_skip by reflexivity.
      rewrite sub_skip
        by (apply (class_not name_char); [reflexivity|exact Ha]).
      rewrite sub_skip by reflexivity.
      fold colon_re. rewrite IH. reflexivity.
Qed.

(** The untyped rewrite, segment by segment. *)
Lemma sub_untyped_segments segs :
  Forall well_formed segs ->
  sub untyped_re brace_group (path_with mid_seg segs) = path_with norm_seg segs.
Proof.
  induction 1 as [|g segs Hg HF IH].
  - apply sub_nil, consuming_One.
  - rewrite !path_with_cons.
    rewrite sub_miss by reflexivity.
    f_equal. destruct g as [s|n|n]; destruct Hg as [Hn Ha]; cbn [mid_seg norm_seg].
    + unfold untyped_re. rewrite sub_skip; [fold untyped_re; rewrite IH; reflexivity|].
      apply (class_not seg_char); [reflexivity|exact Ha].
    + unfold braced.
      change (ch "{" :: n ++ [ch "}"]) with ([ch "{"] ++ n ++ [ch "}"]).
      rewrite <- !app_assoc. unfold untyped_re.
      rewrite sub_skip by reflexivity.
      rewrite sub_skip
        by (apply (class_not name_char); [reflexivity|exact Ha]).
      rewrite sub_skip by reflexivity.
      fold untyped_re. rewrite IH. reflexivity.
    + change ((ch "<" :: n ++ [ch ">"]) ++ path_with mid_seg segs)
        with (ch "<" :: (n ++ [ch ">"]) ++ path_with mid_seg segs).
      rewrite <- app_assoc. simpl app at 2.
      rewrite sub_untyped_param; [rewrite IH; reflexivity|exact Hn|].
      apply (class_not name_char); [reflexivity|exact Ha].
Qed.

Definition plainb (c : N) : bool := ((45 <=? c) && (c <=? 125))%N.

Lemma plainb_not_space c : plainb c = true -> is_space c = false.
Proof.
  unfold plainb. rewrite andb_true_iff, !N.leb_le. intros H.
  apply plain_not_space. exact H.
Qed.

Lemma path_with_forallb (P : N -> bool) f segs :
  P (ch "/") = true ->
  (forall g, well_formed g -> forallb P (f g) = true) ->
  Forall well_formed segs -> forallb P (path_with f segs) = true.
Proof.
  intros Hs Hf. induction 1 as [|g segs Hg HF IH]; [reflexivity|].
  rewrite path_with_cons. cbn [forallb]. rewrite Hs, forallb_app, (Hf g Hg), IH.
  reflexivity.
Qed.

Lemma seg_forallb (P : N -> bool) f :
  (forall c, seg_char c = true -> P c = true) ->
  (forall s, f (Lit s) = s) ->
  (forall n, exists a b, (f (Colon n) = a :: n ++ b /\ P a = true /\ forallb P b = true)) ->
  (forall n, exists a b, (f (Angle n) = a :: n ++ b /\ P a = true /\ forallb P b = true)) ->
  forall g, well_formed g -> forallb P (f g) = true.
Proof.
  intros HP HL HC HA g Hg. destruct g as [s|n|n]; destruct Hg as [_ Ha].
  - rewrite HL. exact (forallb_impl _ _ s HP Ha).
  - destruct (HC n) as (a & b & -> & Pa & Pb). simpl.
    rewrite Pa, forallb_app, Pb, andb_true_r.
    apply (forallb_impl name_char); [|exact Ha].
    intros c Hc. apply HP, seg_char_name, Hc.
  - destruct (HA n) as (a & b & -> & Pa & Pb). simpl.
    rewrite Pa, forallb_app, Pb, andb_true_r.
    apply (forallb_impl name_char); [|exact Ha].
    intros c Hc. apply HP, seg_char_name, Hc.
Qed.

Lemma raw_path_framed segs :
  segs <> [] -> Forall well_formed segs -> framed (path_with raw_seg segs).
Proof.
  intros Hne HF. split.
  - destruct segs; [congruence|reflexivity].
  - apply last_is_none.
    apply (forallb_impl plainb); [intros c Hc; rewrite (plainb_not_space c Hc); reflexivity|].
    apply path_with_forallb; [reflexivity| |exact HF].
    apply seg_forallb.
    + intros c Hc. apply seg_char_range in Hc. unfold plainb.
      apply andb_true_iff. rewrite !N.leb_le. lia.
    + reflexivity.
    + intros n. exists (ch ":"), []. rewrite app_nil_r. repeat split.
    + intros n. exists (ch "<"), [ch ">"]. repeat split.
Qed.

Lemma forallb_drop_while (P f : N -> bool) (s : str) :
  forallb P s = true -> forallb P (drop_while f s) = true.
Proof.
  induction s as [|x t IH]; simpl; [reflexivity|]. intros H.
  destruct (f x); [|exact H]. apply andb_prop in H. apply IH, H.
Qed.

(** The typed pattern needs a colon. *)
Lemma no_colon_no_typed (s : str) :
  forallb (not_char ":") s = true -> search typed_re s = false.
Proof.
  induction s as [|x t IH]; [reflexivity|]. simpl forallb. intros H.
  apply andb_prop in H. destruct H as [_ H].
  cbn [search]. rewrite match_typed.
  destruct (is_char "<" x); [|exact (IH H)].
  pose proof (forallb_drop_while _ (not_chars ":" ">") t H) as D.
  destruct (drop_while (not_chars ":" ">") t) as [|z [|y t']]; try exact (IH H).
  simpl in D. apply andb_prop in D. destruct D as [Dz _].
  rewrite not_char_is_char in Dz. apply negb_true_iff in Dz. rewrite Dz.
  exact (IH H).
Qed.

Lemma mid_path_no_colon segs :
  Forall well_formed segs -> forallb (not_char ":") (path_with mid_seg segs) = true.
Proof.
  apply path_with_forallb; [reflexivity|]. apply seg_forallb.
  - intros c Hc. unfold not_char.
    destruct (N.eqb_spec c (ch ":")) as [->|]; [discriminate|reflexivity].
  - reflexivity.
  - intros n. exists (ch "{"), [ch "}"]. repeat split.
  - intros n. exists (ch "<"), [ch ">"]. repeat split.
Qed.

Lemma norm_seg_no_slash g :
  well_formed g -> norm_seg g <> [] /\ forallb (not_char "/") (norm_seg g) = true.
Proof.
  intros Hg. split.
  - destruct g as [s|n|n]; destruct Hg as [Hn _]; [exact Hn|discriminate|discriminate].
  - revert g Hg. apply seg_forallb.
    + intros c Hc. unfold not_char.
      destruct (N.eqb_spec c (ch "/")) as [->|]; [discriminate|reflexivity].
    + reflexivity.
    + intros n. exists (ch "{"), [ch "}"]. repeat split.
    + intros n. exists (ch "{"), [ch "}"]. repeat split.
Qed.

Lemma norm_path_no_double_slash segs :
  Forall well_formed segs -> no_double_slash (path_with norm_seg segs) = true.
Proof.
  unfold no_double_slash. induction 1 as [|g segs Hg HF IH]; [reflexivity|].
  rewrite path_with_cons. destruct (norm_seg_no_slash g Hg) as [Hne Hns].
  cbn [no_pair]. rewrite hd_is_app by exact Hne. rewrite no_pair_app, IH.
  rewrite (no_pair_none (is_char "/") (is_char "/") _ Hns).
  rewrite (last_is_none (is_char "/") _ Hns).
  destruct (norm_seg g) as [|c a]; [congruence|].
  simpl in Hns. apply andb_prop in Hns. destruct Hns as [Hc _].
  simpl. rewrite not_char_is_char in Hc. apply negb_true_iff in Hc. rewrite Hc.
  reflexivity.
Qed.

Lemma findall_norm_path segs :
  Forall well_formed segs ->
  findall _PARAM_RE (path_with norm_seg segs) = param_names segs.
Proof.
  induction 1 as [|g segs Hg HF IH]; [reflexivity|].
  rewrite path_with_cons.
  change (ch "/" :: norm_seg g ++ path_with norm_seg segs)
    with ([ch "/"] ++ norm_seg g ++ path_with norm_seg segs).
  rewrite findall_param_sep by reflexivity.
  destruct g as [s|n|n]; destruct Hg as [Hn Ha]; cbn [norm_seg param_names flat_map].
  - rewrite findall_param_sep; [exact IH|].
    apply (class_not seg_char); [reflexivity|exact Ha].
  - rewrite findall_param_name; [rewrite IH; reflexivity|exact Hn|].
    apply (class_not name_char); [reflexivity|exact Ha].
  - rewrite findall_param_name; [rewrite IH; reflexivity|exact Hn|].
    apply (class_not name_char); [reflexivity|exact Ha].
Qed.

(** A path made of literal segments and of parameters written [:name]
    or [<name>] is normalized segment by segment: the literals stay, each
    parameter becomes [{name}], and [extract_path_params] then gives the
    parameter names in the order of the path. *)
Theorem normalize_path_segments segs :
  segs <> [] -> Forall well_formed segs ->
  normalize_path (path_with raw_seg segs) = path_with norm_seg segs /\
  extract_path_params (normalize_path (path_with raw_seg segs))
  = map path_param (param_names segs).
Proof.
  intros Hne HF.
  assert (E : normalize_path (path_with raw_seg segs) = path_with norm_seg segs).
  { rewrite normalize_path_eq.
    rewrite (framed_strip_lead _ (raw_path_framed segs Hne HF)). unfold rewrites.
    rewrite (sub_colon_segments segs HF).
    rewrite (sub_id typed_re)
      by (apply no_colon_no_typed, mid_path_no_colon; exact HF).
    rewrite (sub_untyped_segments segs HF).
    apply sub_id, no_double_slash_search, norm_path_no_double_slash. exact HF. }
  split; [exact E|]. rewrite E. unfold extract_path_params.
  rewrite (findall_norm_path segs HF). reflexivity.
Qed.

Lemma normalize_path_segments_witness :
  normalize_path (lit "/api/v1.0/users/:user_id/posts/<post_id>")
  = lit "/api/v1.0/users/{user_id}/posts/{post_id}" /\
  extract_path_params (normalize_path (lit "/api/v1.0/users/:user_id/posts/<post_id>"))
  = map path_param [lit "user_id"; lit "post_id"].
Proof.
  apply (normalize_path_segments
           [Lit (lit "api"); Lit (lit "v1.0"); Lit (lit "users");
            Colon (lit "user_id"); Lit (lit "posts"); Angle (lit "post_id")]).
  - discriminate.
  - repeat constructor; discriminate.
Defined.

End NormalizeMore.

(* ================================================================= *)
(** ** More on core/reader.py *)

Module ReaderMore.
Import Reader ReaderFacts.

Lemma py_slice_within {A : Type} (l : list A) (a b : Z) :
  (0 <= a)%Z -> (0 <= b <= Z.of_nat (length l))%Z ->
  py_slice l a b = firstn (Z.to_nat (b - a)) (skipn (Z.to_nat a) l).
Proof.
  intros Ha Hb. unfold py_slice, slice_index.
  destruct (a <? 0)%Z eqn:E1; [apply Z.ltb_lt in E1; lia|].
  destruct (b <? 0)%Z eqn:E2; [apply Z.ltb_lt in E2; lia|].
  rewrite (Z.min_l b) by lia.
  destruct (Z.le_gt_cases a (Z.of_nat (length l))) as [Hle|Hgt].
  - rewrite Z.min_l by lia. reflexivity.
  - rewrite Z.min_r by lia. rewrite !skipn_all2 by lia.
    rewrite !firstn_nil. reflexivity.
Qed.

Lemma py_slice_negative_end {A : Type} (l : list A) (a b : Z) :
  (0 <= a)%Z -> (- Z.of_nat (length l) <= b < 0)%Z ->
  py_slice l a b
  = firstn (Z.to_nat (Z.of_nat (length l) + b - a)) (skipn (Z.to_nat a) l).
Proof.
  intros Ha Hb. unfold py_slice, slice_index.
  destruct (a <? 0)%Z eqn:E1; [apply Z.ltb_lt in E1; lia|].
  destruct (b <? 0)%Z eqn:E2; [|apply Z.ltb_ge in E2; lia].
  rewrite (Z.max_l (b + Z.of_nat (length l))) by lia.
  destruct (Z.le_gt_cases a (Z.of_nat (length l))) as [Hle|Hgt].
  - rewrite Z.min_l by lia. f_equal. lia.
  - rewrite Z.min_r by lia. rewrite !skipn_all2 by lia.
    rewrite !firstn_nil. reflexivity.
Qed.

Section ReaderMore.

Variable open_lines : str -> result (list str).

(** The lines numbered [first] to [last] (from 1). *)
Definition lines_between (lines : list str) (first last : Z) : list str :=
  firstn (Z.to_nat (last - first + 1)) (skipn (Z.to_nat (first - 1)) lines).

(** Around a line of the file, [read_snippet] returns the lines from
    max(1, c - r) to min(L, c + r): a window that holds line c, stays
    inside the file and has at most 2r + 1 lines. *)
Theorem read_snippet_window repo_dir file lines c r :
  open_lines (abs_path repo_dir file) = Ok lines ->
  (1 <= c <= Z.of_nat (length lines))%Z -> (0 <= r)%Z ->
  exists s,
    read_snippet open_lines repo_dir file c r = Ok s /\
    Snippet.start s = Z.max 1 (c - r) /\
    Snippet.end_ s = Z.min (Z.of_nat (length lines)) (c + r) /\
    (1 <= Snippet.start s <= c)%Z /\
    (c <= Snippet.end_ s <= Z.of_nat (length lines))%Z /\
    Snippet.text s = concat (lines_between lines (Snippet.start s) (Snippet.end_ s)) /\
    (Z.of_nat (length (lines_between lines (Snippet.start s) (Snippet.end_ s)))
     = Snippet.end_ s - Snippet.start s + 1)%Z /\
    (Snippet.end_ s - Snippet.start s + 1 <= 2 * r + 1)%Z.
Proof.
  intros Hopen Hc Hr. unfold read_snippet, _safe_read_lines.
  fold (abs_path repo_dir file). rewrite Hopen. cbn [bind].
  eexists. split; [reflexivity|]. cbn [Snippet.start Snippet.end_ Snippet.text].
  split; [reflexivity|]. split; [reflexivity|].
  split; [lia|]. split; [lia|]. split; [|split].
  - rewrite py_slice_within by lia. unfold lines_between.
    do 2 f_equal. lia.
  - unfold lines_between. rewrite length_firstn, length_skipn. lia.
  - lia.
Qed.

(** [read_file_section] with a non-negative end returns the lines from
    max(1, start) to min(L, end), none when that range is empty. *)
Theorem read_file_section_range repo_dir file lines first last :
  open_lines (abs_path repo_dir file) = Ok lines ->
  (0 <= last)%Z ->
  exists s,
    read_file_section open_lines repo_dir file first last = Ok s /\
    Snippet.start s = Z.max 1 first /\
    Snippet.end_ s = Z.min (Z.of_nat (length lines)) last /\
    Snippet.text s = concat (lines_between lines (Snippet.start s) (Snippet.end_ s)) /\
    ((Snippet.end_ s < Snippet.start s)%Z -> Snippet.text s = []).
Proof.
  intros Hopen Hl. unfold read_file_section, _safe_read_lines.
  fold (abs_path repo_dir file). rewrite Hopen. cbn [bind].
  eexists. split; [reflexivity|]. cbn [Snippet.start Snippet.end_ Snippet.text].
  split; [reflexivity|]. split; [reflexivity|].
  rewrite py_slice_within by lia. unfold lines_between.
  replace (Z.min (Z.of_nat (length lines)) last - Z.max 1 first + 1)%Z
    with (Z.min (Z.of_nat (length lines)) last - (Z.max 1 first - 1))%Z by lia.
  split; [reflexivity|]. intros H.
  replace (Z.to_nat _) with O by lia. reflexivity.
Qed.

(** A negative end is not clamped: it is reported as given and read as
    Python reads a negative slice bound, so the text stops that many lines
    before the end of the file. *)
Theorem read_file_section_negative_end repo_dir file lines first last :
  open_lines (abs_path repo_dir file) = Ok lines ->
  (- Z.of_nat (length lines) <= last < 0)%Z ->
  exists s,
    read_file_section open_lines repo_dir file first last = Ok s /\
    Snippet.start s = Z.max 1 first /\
    Snippet.end_ s = last /\
    Snippet.text s
    = concat (lines_between lines (Snippet.start s) (Z.of_nat (length lines) + last)).
Proof.
  intros Hopen Hl. unfold read_file_section, _safe_read_lines.
  fold (abs_path repo_dir file). rewrite Hopen. cbn [bind].
  eexists. split; [reflexivity|]. cbn [Snippet.start Snippet.end_ Snippet.text].
  split; [reflexivity|]. rewrite (Z.min_r _ last) by lia. split; [reflexivity|].
  rewrite py_slice_negative_end by lia. unfold lines_between.
  do 2 f_equal. lia.
Qed.

(** A file that cannot be opened makes both readers raise. *)
Theorem read_snippet_unreadable repo_dir file e c r first last :
  open_lines (abs_path repo_dir file) = Raise e ->
  read_snippet open_lines repo_dir file c r = Raise e /\
  read_file_section open_lines repo_dir file first last = Raise e.
Proof.
  intros H. unfold read_snippet, read_file_section, _safe_read_lines.
  fold (abs_path repo_dir file). rewrite H. split; reflexivity.
Qed.

End ReaderMore.

Definition ten_lines : list str :=
  map (fun n => [N.of_nat n + 48; 10])%N (seq 0 10).

Lemma read_snippet_window_witness :
  exists s,
    read_snippet (fun _ => Ok ten_lines) (lit "/repo") (lit "f.py") 1 60 = Ok s /\
    Snippet.start s = Z.max 1 (1 - 60) /\
    Snippet.end_ s = Z.min (Z.of_nat (length ten_lines)) (1 + 60) /\
    (1 <= Snippet.start s <= 1)%Z /\
    (1 <= Snippet.end_ s <= Z.of_nat (length ten_lines))%Z /\
    Snippet.text s
    = concat (lines_between ten_lines (Snippet.start s) (Snippet.end_ s)) /\
    (Z.of_nat (length (lines_between ten_lines (Snippet.start s) (Snippet.end_ s)))
     = Snippet.end_ s - Snippet.start s + 1)%Z /\
    (Snippet.end_ s - Snippet.start s + 1 <= 2 * 60 + 1)%Z.
Proof.
  apply (read_snippet_window (fun _ => Ok ten_lines) (lit "/repo") (lit "f.py")
           ten_lines 1 60); [reflexivity | simpl; lia | lia].
Defined.

Lemma read_file_section_range_witness :
  exists s,
    read_file_section (fun _ => Ok ten_lines) (lit "/repo") (lit "f.py") 0 3 = Ok s /\
    Snippet.start s = Z.max 1 0 /\
    Snippet.end_ s = Z.min (Z.of_nat (length ten_lines)) 3 /\
    Snippet.text s
    = concat (lines_between ten_lines (Snippet.start s) (Snippet.end_ s)) /\
    ((Snippet.end_ s < Snippet.start s)%Z -> Snippet.text s = []).
Proof.
  apply (read_file_section_range (fun _ => Ok ten_lines) (lit "/repo") (lit "f.py")
           ten_lines 0 3); [reflexivity | lia].
Defined.

Lemma read_file_section_negative_end_witness :
  exists s,
    read_file_section (fun _ => Ok ten_lines) (lit "/repo") (lit "f.py") 1 (-2) = Ok s /\
    Snippet.start s = Z.max 1 1 /\
    Snippet.end_ s = (-2)%Z /\
    Snippet.text s
    = concat (lines_between ten_lines (Snippet.start s)
                (Z.of_nat (length ten_lines) + -2)).
Proof.
  apply (read_file_section_negative_end (fun _ => Ok ten_lines) (lit "/repo")
           (lit "f.py") ten_lines 1 (-2)); [reflexivity | simpl; lia].
Defined.

Lemma read_snippet_unreadable_witness :
  read_snippet (fun _ => Raise OSError) (lit "/repo") (lit "gone.py") 3 60
  = Raise OSError /\
  read_file_section (fun _ => Raise OSError) (lit "/repo") (lit "gone.py") 1 5
  = Raise OSError.
Proof.
  apply (read_snippet_unreadable (fun _ => Raise OSError) (lit "/repo")
           (lit "gone.py") OSError 3 60 1 5). reflexivity.
Defined.

End ReaderMore.

(* ================================================================= *)
(** ** More on core/spec.py *)

Module SpecMore.
Import Spec DictFacts SpecFacts.

Section SpecMore.

Context {L : PyLib}.

Lemma merge_route_other spec route path m :
  document spec ->
  dict_get route (lit "path") = Some (VStr path) ->
  dict_get route (lit "method") = Some (VStr m) ->
  exists spec',
    merge_route spec route = Ok spec' /\
    (forall path' method',
       path' <> path \/ method' <> str_lower m ->
       lookup_operation spec' path' method' = lookup_operation spec path' method') /\
    (forall k, k <> lit "paths" -> dict_get spec' k = dict_get spec k).
Proof.
  intros [p [Hs Hd]] Hp Hm.
  assert (Ho : forall v, dict_get p path = Some v -> exists o, v = VDict o).
  { intros v Hv. destruct (Hd _ _ Hv) as [o [-> _]]. exists o; reflexivity. }
  eexists. split; [apply (merge_route_eq spec route path m p Hp Hm Hs Ho)|]. split.
  - intros path' method' Hne. unfold lookup_operation.
    rewrite dict_get_set_same, Hs.
    destruct (list_eq_dec N.eq_dec path path') as [<-|Hpp].
    + unfold ops_at at 1. rewrite dict_get_set_same.
      apply dict_get_set_other. destruct Hne as [H|H]; congruence.
    + unfold ops_at. rewrite dict_get_set_other by exact Hpp. reflexivity.
  - intros k Hk. apply dict_get_set_other. congruence.
Qed.

(** A merge touches one operation only: every other (path, method) and
    every top-level entry other than [paths] stay as they were. *)
Theorem merge_route_frame spec route path m :
  document spec ->
  dict_get route (lit "path") = Some (VStr path) ->
  dict_get route (lit "method") = Some (VStr m) ->
  exists spec',
    merge_route spec route = Ok spec' /\
    (forall path' method',
       path' <> path \/ method' <> str_lower m ->
       lookup_operation spec' path' method' = lookup_operation spec path' method') /\
    (forall k, k <> lit "paths" -> dict_get spec' k = dict_get spec k).
Proof. exact (merge_route_other spec route path m). Qed.

(** The errors of [merge_route]: a route without [path] or [method]
    and a document without [paths] raise [KeyError]; a method that is not
    a string raises [AttributeError]. *)
Theorem merge_route_errors spec route :
  (dict_get route (lit "path") = None -> merge_route spec route = Raise KeyError) /\
  (forall p, dict_get route (lit "path") = Some p ->
     dict_get route (lit "method") = None ->
     merge_route spec route = Raise KeyError) /\
  (forall p v, dict_get route (lit "path") = Some p ->
     dict_get route (lit "method") = Some v ->
     (forall s, v <> VStr s) ->
     merge_route spec route = Raise AttributeError) /\
  (forall p s, dict_get route (lit "path") = Some p ->
     dict_get route (lit "method") = Some (VStr s) ->
     dict_get spec (lit "paths") = None ->
     merge_route spec route = Raise KeyError).
Proof.
  unfold merge_route, getitem. repeat split.
  - intros ->. reflexivity.
  - intros p -> ->. reflexivity.
  - intros p v -> -> Hv. destruct v; try reflexivity. destruct (Hv s eq_refl).
  - intros p s -> -> Hs. cbn [bind]. unfold _ensure_path, getitem. rewrite Hs.
    reflexivity.
Qed.

(** Merging a list of routes, as the loop of the orchestrator does. *)
Fixpoint merge_routes (spec : dict) (routes : list dict) : result dict :=
  match routes with
  | [] => Ok spec
  | r :: routes' => spec <- merge_route spec r ;; merge_routes spec routes'
  end.

Definition routable (r : dict) : Prop :=
  exists path m, dict_get r (lit "path") = Some (VStr path) /\
                 dict_get r (lit "method") = Some (VStr m).

Lemma merge_route_keeps spec route path m path' method' v :
  document spec ->
  dict_get route (lit "path") = Some (VStr path) ->
  dict_get route (lit "method") = Some (VStr m) ->
  lookup_operation spec path' method' = Some v ->
  exists spec' v',
    merge_route spec route = Ok spec' /\
    lookup_operation spec' path' method' = Some v'.
Proof.
  intros Hd Hp Hm Hl.
  destruct (merge_route_document spec route path m Hp Hm Hd) as (s1 & E1 & _ & _ & K1).
  destruct (merge_route_other spec route path m Hd Hp Hm) as (s2 & E2 & F & _).
  rewrite E1 in E2. injection E2 as <-.
  destruct (list_eq_dec N.eq_dec path' path) as [->|Hpp].
  - destruct (list_eq_dec N.eq_dec method' (str_lower m)) as [->|Hmm].
    + eexists _, _. split; [exact E1|exact K1].
    + eexists _, _. split; [exact E1|]. rewrite F by (right; exact Hmm). exact Hl.
  - eexists _, _. split; [exact E1|]. rewrite F by (left; exact Hpp). exact Hl.
Qed.

(** Starting from a document, merging routes with a string path and a
    string method never raises, keeps the document well formed, and loses
    no route: each merged (path, lower-cased method) has an operation in
    the final document. *)
Theorem merge_routes_total routes : forall spec,
  document spec -> Forall routable routes ->
  exists spec',
    merge_routes spec routes = Ok spec' /\ document spec' /\
    (forall path' method' v, lookup_operation spec path' method' = Some v ->
       exists v', lookup_operation spec' path' method' = Some v') /\
    Forall (fun r => forall path m,
              dict_get r (lit "path") = Some (VStr path) ->
              dict_get r (lit "method") = Some (VStr m) ->
              exists op, lookup_operation spec' path (str_lower m) = Some op)
           routes.
Proof.
  induction routes as [|r routes IH]; intros spec Hd HF.
  - exists spec. repeat split; [exact Hd|eauto|constructor].
  - inversion HF as [|? ? (path & m & Hp & Hm) HF']; subst.
    destruct (merge_route_document spec r path m Hp Hm Hd)
      as (s1 & E1 & Hd1 & _ & K1).
    destruct (IH s1 Hd1 HF') as (s2 & E2 & Hd2 & Keep & All).
    exists s2. cbn [merge_routes]. rewrite E1. cbn [bind].
    split; [exact E2|]. split; [exact Hd2|]. split.
    + intros path' method' v Hl.
      destruct (merge_route_keeps spec r path m path' method' v Hd Hp Hm Hl)
        as (s1' & v' & E1' & Hl').
      rewrite E1 in E1'. injection E1' as <-. exact (Keep _ _ _ Hl').
    + constructor; [|exact All].
      intros path0 m0 Hp0 Hm0. rewrite Hp in Hp0. rewrite Hm in Hm0.
      injection Hp0 as <-. injection Hm0 as <-. exact (Keep _ _ _ K1).
Qed.

End SpecMore.

Lemma merge_route_frame_witness :
  exists spec',
    @merge_route Sample.lib Sample.skeleton Sample.route_upper = Ok spec' /\
    (forall path' method',
       path' <> lit "/a" \/ method' <> lit "get" ->
       lookup_operation spec' path' method'
       = lookup_operation Sample.skeleton path' method') /\
    (forall k, k <> lit "paths" -> dict_get spec' k = dict_get Sample.skeleton k).
Proof.
  apply (@merge_route_frame Sample.lib Sample.skeleton Sample.route_upper
           (lit "/a") (lit "GET")); try reflexivity.
  apply skeleton_document.
Defined.

Lemma merge_routes_total_witness :
  exists spec',
    @merge_routes Sample.lib Sample.skeleton [Sample.route_upper; Sample.route_lower]
    = Ok spec' /\ document spec' /\
    (forall path' method' v,
       lookup_operation Sample.skeleton path' method' = Some v ->
       exists v', lookup_operation spec' path' method' = Some v') /\
    Forall (fun r => forall path m,
              dict_get r (lit "path") = Some (VStr path) ->
              dict_get r (lit "method") = Some (VStr m) ->
              exists op,
                lookup_operation spec' path (@str_lower Sample.lib m) = Some op)
           [Sample.route_upper; Sample.route_lower].
Proof.
  apply (@merge_routes_total Sample.lib [Sample.route_upper; Sample.route_lower]
           Sample.skeleton).
  - apply skeleton_document.
  - repeat constructor.
    + exists (lit "/a"), (lit "GET"). split; reflexivity.
    + exists (lit "/a"), (lit "get"). split; reflexivity.
Defined.

End SpecMore.

(* ================================================================= *)
(** ** core/spec.py: the schema downgrade *)

Module DowngradeFacts.
Import Spec DictFacts SpecFacts.

(** [x["content"]["application/json"]["schema"]] *)
Definition json_schema (x : value) : result value :=
  c <- subscript x (lit "content") ;;
  aj <- subscript c (lit "application/json") ;;
  subscript aj (lit "schema").

(** The paths of a document, each with its methods. *)
Definition route_keys (spec : dict) : list (str * list str) :=
  match dict_get spec (lit "paths") with
  | Some (VDict ps) =>
      map (fun kv => (fst kv, match snd kv with
                              | VDict ms => map fst ms
                              | _ => []
                              end)) ps
  | _ => []
  end.

Lemma map_items_keys f d d' : map_items f d = Ok d' -> map fst d' = map fst d.
Proof.
  revert d'. induction d as [|[k v] d IH]; intros d'; cbn [map_items].
  - intros [= <-]. reflexivity.
  - destruct (f v) as [v'|]; [|discriminate]. cbn [bind].
    destruct (map_items f d) as [t|]; [|discriminate]. cbn [bind].
    intros [= <-]. simpl. rewrite (IH t eq_refl). reflexivity.
Qed.

Lemma map_items_get f d d' k v' :
  map_items f d = Ok d' -> dict_get d' k = Some v' ->
  exists v, dict_get d k = Some v /\ f v = Ok v'.
Proof.
  revert d'. induction d as [|[k0 v0] d IH]; intros d'; cbn [map_items].
  - intros [= <-]. discriminate.
  - destruct (f v0) as [v1|] eqn:F; [|discriminate]. cbn [bind].
    destruct (map_items f d) as [t|]; [|discriminate]. cbn [bind].
    intros [= <-]. simpl. destruct (str_eqb k0 k).
    + intros [= <-]. exists v0. split; [reflexivity|exact F].
    + apply (IH t eq_refl).
Qed.

Lemma permit_json_schema_spec x x' :
  permit_json_schema x = Ok x' -> json_schema x' = Ok permissive_object.
Proof.
  unfold permit_json_schema, json_schema.
  destruct x as [| | | | | |d]; try discriminate. cbn [subscript].
  destruct (getitem d (lit "content")) as [c|]; [|discriminate]. cbn [bind].
  destruct c as [| | | | | |cd]; try discriminate. cbn [subscript].
  destruct (getitem cd (lit "application/json")) as [aj|]; [|discriminate]. cbn [bind].
  destruct aj as [| | | | | |ad]; try discriminate. cbn [setitem bind].
  intros [= <-]. cbn [subscript]. unfold getitem.
  rewrite dict_get_set_same. cbn [bind subscript]. unfold getitem.
  rewrite dict_get_set_same. cbn [bind subscript]. unfold getitem.
  rewrite dict_get_set_same. reflexivity.
Qed.

Lemma dict_has_false d k : dict_has d k = false -> getitem d k = Raise KeyError.
Proof. unfold dict_has, getitem. destruct (dict_get d k); [discriminate|reflexivity]. Qed.

(** A response that went through the downgrade: where it has a JSON
    content, the schema of that content is the permissive object. *)
Lemma downgrade_response_spec resp resp' c aj :
  downgrade_response resp = Ok resp' ->
  subscript resp' (lit "content") = Ok c ->
  subscript c (lit "application/json") = Ok aj ->
  subscript aj (lit "schema") = Ok permissive_object.
Proof.
  unfold downgrade_response.
  destruct (py_in (lit "content") resp) as [has|] eqn:P; [|discriminate]. cbn [bind].
  destruct has.
  - destruct (subscript resp (lit "content")) as [c0|] eqn:S; [|discriminate].
    cbn [bind].
    destruct (py_in (lit "application/json") c0) as [has_json|] eqn:P2; [|discriminate].
    cbn [bind]. destruct has_json.
    + intros H Hc Ha. pose proof (permit_json_schema_spec _ _ H) as J.
      unfold json_schema in J. rewrite Hc in J. cbn [bind] in J.
      rewrite Ha in J. exact J.
    + intros [= <-] Hc Ha. rewrite S in Hc. injection Hc as <-.
      destruct c0 as [| | | | | |cd]; try discriminate.
      cbn [py_in] in P2. injection P2 as P2. cbn [subscript] in Ha.
      rewrite (dict_has_false _ _ P2) in Ha. discriminate.
  - intros [= <-] Hc. destruct resp as [| | | | | |d]; try discriminate.
    cbn [py_in] in P. injection P as P. cbn [subscript] in Hc.
    rewrite (dict_has_false _ _ P) in Hc. discriminate.
Qed.

(** An operation that went through the downgrade. *)
Lemma downgrade_op_spec op d' :
  downgrade_op op = Ok (VDict d') ->
  (forall body, dict_get d' (lit "requestBody") = Some body ->
                json_schema body = Ok permissive_object) /\
  (forall rs code resp c aj,
     dict_get d' (lit "responses") = Some (VDict rs) ->
     dict_get rs code = Some resp ->
     subscript resp (lit "content") = Ok c ->
     subscript c (lit "application/json") = Ok aj ->
     subscript aj (lit "schema") = Ok permissive_object).
Proof.
  unfold downgrade_op.
  destruct (py_in (lit "requestBody") op) as [has|] eqn:P; [|discriminate]. cbn [bind].
  (* the operation after the request-body step, and what it holds *)
  assert (Hstep : forall op1,
    (if has then
       body <- subscript op (lit "requestBody") ;;
       body <- permit_json_schema body ;;
       setitem op (lit "requestBody") body
     else Ok op) = Ok op1 ->
    forall d1, op1 = VDict d1 ->
    forall body, dict_get d1 (lit "requestBody") = Some body ->
                 json_schema body = Ok permissive_object).
  { intros op1 H1 d1 -> body Hb. destruct has.
    - destruct (subscript op (lit "requestBody")) as [b0|]; [|discriminate].
      cbn [bind] in H1.
      destruct (permit_json_schema b0) as [b1|] eqn:PJ; [|discriminate].
      cbn [bind] in H1. destruct op as [| | | | | |d]; try discriminate.
      cbn [setitem] in H1. injection H1 as <-.
      rewrite dict_get_set_same in Hb. injection Hb as <-.
      exact (permit_json_schema_spec _ _ PJ).
    - injection H1 as ->. cbn [py_in] in P. injection P as P.
      unfold dict_has in P. rewrite Hb in P. discriminate. }
  destruct (if has then _ else Ok op) as [op1|] eqn:E1; [|discriminate]. cbn [bind].
  destruct op1 as [| | | | | |d1]; try discriminate. cbn [items bind].
  specialize (Hstep _ eq_refl d1 eq_refl).
  assert (Hneq : lit "responses" <> lit "requestBody") by discriminate.
  destruct (dict_get d1 (lit "responses")) as [r|] eqn:R.
  - destruct (truthy r) eqn:T.
    + destruct r as [| | | | | |rs0]; try discriminate. cbn [items bind].
      destruct (map_items downgrade_response rs0) as [rs1|] eqn:M; [|discriminate].
      cbn [bind]. intros [= <-]. split.
      * intros body Hb. rewrite dict_get_set_other in Hb by exact Hneq.
        exact (Hstep body Hb).
      * intros rs code resp c aj Hrs Hcode. rewrite dict_get_set_same in Hrs.
        injection Hrs as <-.
        destruct (map_items_get _ _ _ _ _ M Hcode) as (resp0 & _ & D).
        exact (downgrade_response_spec _ _ c aj D).
    + intros [= <-]. split; [exact Hstep|].
      intros rs code resp c aj Hrs Hcode. rewrite R in Hrs. injection Hrs as ->.
      destruct rs; [discriminate|discriminate].
  - intros [= <-]. split; [exact Hstep|].
    intros rs code resp c aj Hrs. rewrite R in Hrs. discriminate.
Qed.

Lemma downgrade_op_dict op op' : downgrade_op op = Ok op' -> exists d', op' = VDict d'.
Proof.
  unfold downgrade_op.
  destruct (py_in (lit "requestBody") op) as [has|]; [|discriminate]. cbn [bind].
  destruct (if has then _ else Ok op) as [op1|]; [|discriminate]. cbn [bind].
  destruct op1 as [| | | | | |d1]; try discriminate. cbn [items bind].
  destruct (dict_get d1 (lit "responses")) as [r|].
  - destruct (truthy r).
    + destruct (items r) as [rs|]; [|discriminate]. cbn [bind].
      destruct (map_items downgrade_response rs); [|discriminate]. cbn [bind].
      intros [= <-]. eexists; reflexivity.
    + intros [= <-]. eexists; reflexivity.
  - intros [= <-]. eexists; reflexivity.
Qed.

Lemma downgrade_op_needs_dict op op' :
  downgrade_op op = Ok op' -> exists d, op = VDict d.
Proof.
  unfold downgrade_op. destruct op as [| | | | s|l|d]; cbn [py_in bind];
    try discriminate.
  - destruct (is_substring (lit "requestBody") s); cbn [subscript bind items];
      discriminate.
  - destruct (existsb _ l); cbn [subscript bind items]; discriminate.
  - intros _. exists d. reflexivity.
Qed.

Lemma downgrade_op_keys op d d' :
  op = VDict d -> downgrade_op op = Ok (VDict d') ->
  forall k, k <> lit "requestBody" -> k <> lit "responses" ->
            dict_get d' k = dict_get d k.
Proof.
  intros -> H k K1 K2. unfold downgrade_op in H. cbn [py_in bind] in H.
  destruct (dict_has d (lit "requestBody")).
  - destruct (subscript (VDict d) (lit "requestBody")) as [b0|]; [|discriminate].
    cbn [bind] in H. destruct (permit_json_schema b0) as [b1|]; [|discriminate].
    cbn [bind setitem items] in H.
    rewrite dict_get_set_other in H by discriminate.
    destruct (dict_get d (lit "responses")) as [r|].
    + destruct (truthy r).
      * destruct (items r) as [rs|]; [|discriminate]. cbn [bind] in H.
        destruct (map_items downgrade_response rs); [|discriminate].
        cbn [bind] in H. injection H as <-.
        rewrite !dict_get_set_other by congruence. reflexivity.
      * injection H as <-. rewrite dict_get_set_other by congruence. reflexivity.
    + injection H as <-. rewrite dict_get_set_other by congruence. reflexivity.
  - cbn [bind items] in H.
    destruct (dict_get d (lit "responses")) as [r|].
    + destruct (truthy r).
      * destruct (items r) as [rs|]; [|discriminate]. cbn [bind] in H.
        destruct (map_items downgrade_response rs); [|discriminate].
        cbn [bind] in H. injection H as <-.
        rewrite dict_get_set_other by congruence. reflexivity.
      * injection H as <-. reflexivity.
    + injection H as <-. reflexivity.
Qed.

(** After a downgrade that did not raise, every operation of the document
    has the permissive object as the schema of its request body, if it has
    one, and of every response that has a JSON content; the entries of an
    operation other than requestBody and responses are untouched. *)
Theorem _downgrade_schemas_permissive spec spec' path method d' :
  _downgrade_schemas spec = Ok spec' ->
  lookup_operation spec' path method = Some (VDict d') ->
  (forall body, dict_get d' (lit "requestBody") = Some body ->
                json_schema body = Ok permissive_object) /\
  (forall rs code resp c aj,
     dict_get d' (lit "responses") = Some (VDict rs) ->
     dict_get rs code = Some resp ->
     subscript resp (lit "content") = Ok c ->
     subscript c (lit "application/json") = Ok aj ->
     subscript aj (lit "schema") = Ok permissive_object) /\
  (exists d, lookup_operation spec path method = Some (VDict d) /\
             forall k, k <> lit "requestBody" -> k <> lit "responses" ->
                       dict_get d' k = dict_get d k).
Proof.
  unfold _downgrade_schemas, lookup_operation.
  destruct (dict_get spec (lit "paths")) as [paths|] eqn:Hp.
  2:{ intros [= <-]. rewrite Hp. discriminate. }
  destruct paths as [| | | | | |ps]; try discriminate. cbn [items bind].
  destruct (map_items _ ps) as [ps'|] eqn:M; [|discriminate]. cbn [bind].
  intros [= <-]. rewrite dict_get_set_same. unfold ops_at.
  destruct (dict_get ps' path) as [ms'|] eqn:G; [|discriminate].
  destruct (map_items_get _ _ _ _ _ M G) as (ms & Gms & F). rewrite Gms.
  destruct ms as [| | | | | |md]; try discriminate. cbn [items bind] in F.
  destruct (map_items downgrade_op md) as [md'|] eqn:M2; [|discriminate].
  cbn [bind] in F. injection F as <-. intros Hop.
  destruct (map_items_get _ _ _ _ _ M2 Hop) as (op & Gop & D).
  destruct (downgrade_op_spec _ _ D) as [H1 H2].
  split; [exact H1|]. split; [exact H2|].
  destruct (downgrade_op_needs_dict _ _ D) as [d ->].
  exists d. split; [exact Gop|]. exact (downgrade_op_keys _ _ _ eq_refl D).
Qed.

(** The downgrade keeps the paths of the document and the methods of
    each path, and leaves every other top-level entry as it was. *)
Theorem _downgrade_schemas_keys spec spec' :
  _downgrade_schemas spec = Ok spec' ->
  route_keys spec' = route_keys spec /\
  map fst spec' = map fst spec /\
  (forall k, k <> lit "paths" -> dict_get spec' k = dict_get spec k).
Proof.
  unfold _downgrade_schemas, route_keys.
  destruct (dict_get spec (lit "paths")) as [paths|] eqn:Hp.
  2:{ intros [= <-]. rewrite Hp. auto. }
  destruct paths as [| | | | | |ps]; try discriminate. cbn [items bind].
  destruct (map_items _ ps) as [ps'|] eqn:M; [|discriminate]. cbn [bind].
  intros [= <-]. rewrite dict_get_set_same. split; [|split].
  - clear Hp. revert ps' M. induction ps as [|[k v] ps IH]; intros ps'; cbn [map_items].
    + intros [= <-]. reflexivity.
    + destruct (items v) as [ms|] eqn:I; [|discriminate]. cbn [bind].
      destruct (map_items downgrade_op ms) as [ms'|] eqn:M2; [|discriminate].
      cbn [bind]. destruct (map_items _ ps) as [t|]; [|discriminate]. cbn [bind].
      intros [= <-]. simpl. rewrite (IH t eq_refl). f_equal. f_equal.
      destruct v; try discriminate. injection I as <-.
      apply (map_items_keys _ _ _ M2).
  - rewrite dict_set_keys. unfold dict_has. rewrite Hp. reflexivity.
  - intros k Hk. apply dict_get_set_other. congruence.
Qed.

Lemma _downgrade_schemas_permissive_witness :
  exists spec' d',
    _downgrade_schemas Sample.spec_post = Ok spec' /\
    lookup_operation spec' (lit "/a") (lit "post") = Some (VDict d') /\
    (forall body, dict_get d' (lit "requestBody") = Some body ->
                  json_schema body = Ok permissive_object) /\
    (forall rs code resp c aj,
       dict_get d' (lit "responses") = Some (VDict rs) ->
       dict_get rs code = Some resp ->
       subscript resp (lit "content") = Ok c ->
       subscript c (lit "application/json") = Ok aj ->
       subscript aj (lit "schema") = Ok permissive_object) /\
    (exists d, lookup_operation Sample.spec_post (lit "/a") (lit "post")
               = Some (VDict d) /\
               forall k, k <> lit "requestBody" -> k <> lit "responses" ->
                         dict_get d' k = dict_get d k).
Proof.
  eexists. eexists. split; [vm_compute; reflexivity|].
  split; [vm_compute; reflexivity|].
  eapply (_downgrade_schemas_permissive Sample.spec_post);
    vm_compute; reflexivity.
Defined.

Lemma _downgrade_schemas_keys_witness :
  exists spec',
    _downgrade_schemas Sample.spec_post = Ok spec' /\
    route_keys spec' = route_keys Sample.spec_post /\
    map fst spec' = map fst Sample.spec_post /\
    (forall k, k <> lit "paths" -> dict_get spec' k = dict_get Sample.spec_post k).
Proof.
  eexists. split; [vm_compute; reflexivity|].
  apply (_downgrade_schemas_keys Sample.spec_post). vm_compute. reflexivity.
Defined.

End DowngradeFacts.

(* ================================================================= *)
(** ** More on core/searcher.py *)

Module SearcherMore.
Import Searcher SearcherFacts ReaderMore.

Section SearcherMore.

Context {L : PyLib}.
Variable glob_glob : str -> list str.
Variable open_lines : str -> result (list str).

(** *** A malformed pattern *)

Lemma search_files_malformed regex context limit files :
  re_compile_ignorecase regex = None ->
  search_files open_lines files regex context limit [] = Ok [].
Proof.
  intros H. induction files as [|f files IH]; cbn [search_files]; [reflexivity|].
  unfold _grep_file. rewrite H. cbn [bind app].
  destruct (len [] >=? limit)%Z; [reflexivity|exact IH].
Qed.

(** Queries whose patterns do not compile give empty lists, whatever the
    files are: no file is opened for them and the search does not fail. *)
Theorem multi_search_malformed repo_dir queries context limit :
  Forall (fun q => re_compile_ignorecase (SearchQuery.regex q) = None) queries ->
  exists results,
    multi_search glob_glob open_lines repo_dir queries context limit = Ok results /\
    length results = length queries /\
    Forall (fun kv => snd kv = []) results.
Proof.
  unfold multi_search. generalize 0%Z as idx.
  induction queries as [|q queries IH]; intros idx HF; cbn [search_queries].
  - exists []. repeat split. constructor.
  - inversion HF as [|? ? Hq HF']; subst.
    rewrite (search_files_malformed _ _ _ _ Hq). cbn [bind].
    destruct (IH (idx + 1)%Z HF') as (rest & E & Hl & Hall).
    rewrite E. cbn [bind]. exists ((idx, []) :: rest).
    split; [reflexivity|]. split; [simpl; congruence|].
    constructor; [reflexivity|exact Hall].
Qed.

(** *** The keys of the result *)

Lemma search_queries_keys repo_dir context limit queries : forall idx results,
  search_queries glob_glob open_lines repo_dir context limit idx queries = Ok results ->
  map fst results = map (fun i => (idx + Z.of_nat i)%Z) (seq 0 (length queries)).
Proof.
  induction queries as [|q queries IH]; intros idx results; cbn [search_queries].
  - intros [= <-]. reflexivity.
  - destruct (search_files _ _ _ _ _ _) as [acc|]; [|discriminate]. cbn [bind].
    destruct (search_queries _ _ _ _ _ _ queries) as [rest|] eqn:R; [|discriminate].
    cbn [bind]. intros [= <-]. cbn [map length seq fst].
    rewrite Z.add_0_r. f_equal. rewrite (IH _ _ R).
    rewrite <- seq_shift, map_map. apply map_ext. intros i. lia.
Qed.

(** The mapping has one entry per query, keyed 0, 1, 2, ... in the order
    of the queries. *)
Theorem multi_search_keys repo_dir queries context limit results :
  multi_search glob_glob open_lines repo_dir queries context limit = Ok results ->
  map fst results = map Z.of_nat (seq 0 (length queries)).
Proof.
  intros H. rewrite (search_queries_keys _ _ _ _ _ _ H).
  apply map_ext. intros i. lia.
Qed.

(** *** A file that cannot be opened *)

(** There is no handler around [open]: when the pattern compiles, the
    first file of a query that cannot be opened makes the whole search
    raise, unless the cap was reached before it. *)
Theorem search_files_unreadable regex pattern context limit before f e after acc r :
  re_compile_ignorecase regex = Some pattern ->
  open_lines f = Raise e ->
  search_files open_lines (before ++ f :: after) regex context limit acc = r ->
  r = Raise e \/
  (exists e', r = Raise e') \/
  (exists ms, r = Ok ms /\ (limit <= len ms)%Z).
Proof.
  intros Hc Ho. revert acc r.
  induction before as [|b before IH]; intros acc r; cbn [app search_files].
  - unfold _grep_file. rewrite Hc, Ho. cbn [bind]. intros <-. left. reflexivity.
  - destruct (_grep_file open_lines b regex context limit) as [ms|e']; cbn [bind].
    + destruct (len (acc ++ ms) >=? limit)%Z eqn:E.
      * intros <-. right. right. exists (acc ++ ms). split; [reflexivity|].
        rewrite Z.geb_leb in E. apply Z.leb_le in E. exact E.
      * apply IH.
    + intros <-. right. left. exists e'. reflexivity.
Qed.

(** There is no handler around [open]: when the pattern of the first
    query compiles and the first file its glob gives cannot be opened,
    the whole search raises the error of the [open], whatever the other
    files and queries are. *)
Theorem multi_search_unreadable repo_dir q queries regex_ok f files e context limit :
  re_compile_ignorecase (SearchQuery.regex q) = Some regex_ok ->
  glob_glob (path_join repo_dir (SearchQuery.glob q)) = f :: files ->
  open_lines f = Raise e ->
  multi_search glob_glob open_lines repo_dir (q :: queries) context limit = Raise e.
Proof.
  intros Hc Hg Ho. unfold multi_search. cbn [search_queries].
  rewrite Hg. cbn [search_files]. unfold _grep_file. rewrite Hc, Ho. reflexivity.
Qed.

(** *** What a match holds *)

Definition match_ok (pattern : str -> bool) (path : str) (lines : list str)
    (context : Z) (m : Match.t) : Prop :=
  Match.file m = path /\
  (1 <= Match.line m <= len lines)%Z /\
  (exists l, nth_error lines (Z.to_nat (Match.line m - 1)) = Some l /\
             pattern l = true /\ Match.match_ m = strip l) /\
  ((0 <= context)%Z ->
     (len (Match.before m) <= context)%Z /\ (len (Match.after m) <= context)%Z).

Lemma StronglySorted_snoc (l : list Z) (x : Z) :
  StronglySorted Z.lt l -> Forall (fun y => (y < x)%Z) l ->
  StronglySorted Z.lt (l ++ [x]).
Proof.
  induction 1 as [|y l Hs IH Hy]; intros HF; simpl.
  - repeat constructor.
  - inversion HF as [|? ? Hyx HF']; subst. constructor; [exact (IH HF')|].
    apply Forall_app. split; [exact Hy|]. repeat constructor. exact Hyx.
Qed.

Lemma py_slice_length {A : Type} (l : list A) (a b : Z) :
  (0 <= a)%Z -> (0 <= b <= Z.of_nat (length l))%Z ->
  (Z.of_nat (length (py_slice l a b)) <= Z.max 0 (b - a))%Z.
Proof.
  intros Ha Hb. rewrite py_slice_within by assumption.
  rewrite length_firstn. lia.
Qed.

Lemma grep_lines_ok pattern path lines context limit todo : forall i matches,
  (1 <= i)%Z -> todo = skipn (Z.to_nat (i - 1)) lines ->
  Forall (match_ok pattern path lines context) matches ->
  StronglySorted Z.lt (map Match.line matches) ->
  Forall (fun y => (y < i)%Z) (map Match.line matches) ->
  let r := grep_lines pattern path lines context limit i todo matches in
  Forall (match_ok pattern path lines context) r /\
  StronglySorted Z.lt (map Match.line r).
Proof.
  induction todo as [|line todo IH]; intros i matches Hi Ht HF HS HL;
    cbn [grep_lines]; [split; assumption|].
  assert (Hnth : nth_error lines (Z.to_nat (i - 1)) = Some line).
  { rewrite <- (Nat.add_0_r (Z.to_nat (i - 1))), <- nth_error_skipn, <- Ht.
    reflexivity. }
  assert (Hlen : (i <= len lines)%Z).
  { assert (Z.to_nat (i - 1) < length lines)%nat
      by (apply nth_error_Some; rewrite Hnth; discriminate).
    unfold len. lia. }
  assert (Hnext : todo = skipn (Z.to_nat (i + 1 - 1)) lines).
  { replace (Z.to_nat (i + 1 - 1)) with (S (Z.to_nat (i - 1))) by lia.
    rewrite <- (skipn_skipn 1). rewrite <- Ht. reflexivity. }
  assert (Hmono : Forall (fun y => (y < i + 1)%Z) (map Match.line matches)).
  { eapply Forall_impl; [|exact HL]. intros y Hy. simpl in Hy. lia. }
  destruct (pattern line) eqn:P; [|apply IH; (assumption || lia)].
  set (m := Match.mk _ _ _ _ _).
  assert (Hm : match_ok pattern path lines context m).
  { unfold match_ok, m. cbn. split; [reflexivity|]. split; [lia|]. split.
    - exists line. auto.
    - intros Hc. unfold len. rewrite !length_map. split.
      + unfold len in Hlen.
        assert (B := py_slice_length lines (Z.max 0 (i - context - 1)) (i - 1)
                       ltac:(lia) ltac:(lia)).
        lia.
      + unfold len in Hlen.
        assert (B := py_slice_length lines i
                       (Z.min (Z.of_nat (length lines)) (i + context))
                       ltac:(lia) ltac:(lia)).
        lia. }
  assert (HF' : Forall (match_ok pattern path lines context) (matches ++ [m])).
  { apply Forall_app. split; [exact HF|]. apply Forall_cons; [exact Hm|constructor]. }
  assert (HS' : StronglySorted Z.lt (map Match.line (matches ++ [m]))).
  { rewrite map_app. apply StronglySorted_snoc; assumption. }
  destruct (len (matches ++ [m]) >=? limit)%Z; [split; assumption|].
  apply IH; try assumption; [lia|].
  rewrite map_app. apply Forall_app. split; [exact Hmono|].
  apply Forall_cons; [simpl; lia|constructor].
Qed.

(** The matches of a file name the file, are in increasing line order,
    each on a line of the file that the pattern matches and whose stripped
    text it holds, with at most [context] lines before and after. *)
Theorem _grep_file_matches path regex pattern lines context limit :
  re_compile_ignorecase regex = Some pattern ->
  open_lines path = Ok lines ->
  exists ms,
    _grep_file open_lines path regex context limit = Ok ms /\
    Forall (match_ok pattern path lines context) ms /\
    StronglySorted Z.lt (map Match.line ms).
Proof.
  intros Hc Ho. unfold _grep_file. rewrite Hc, Ho. cbn [bind].
  eexists. split; [reflexivity|].
  apply grep_lines_ok; try constructor; reflexivity.
Qed.

End SearcherMore.

(** A pattern with an unclosed group, over the two files of the sample
    repository. *)
Definition bad_query : SearchQuery.t :=
  SearchQuery.mk (lit "x(") (lit "**/*.py") (lit "unclosed group").

Lemma multi_search_malformed_witness :
  exists results,
    @multi_search Sample.lib Sample.two_files_glob Sample.two_files_open
      (lit "/r") [bad_query; bad_query] 20 50 = Ok results /\
    length results = length [bad_query; bad_query] /\
    Forall (fun kv => snd kv = []) results.
Proof.
  apply (@multi_search_malformed Sample.lib Sample.two_files_glob
           Sample.two_files_open (lit "/r") [bad_query; bad_query] 20 50).
  repeat constructor.
Defined.

Lemma multi_search_keys_witness :
  exists results,
    @multi_search Sample.lib Sample.two_files_glob Sample.two_files_open
      (lit "/r") [Sample.query_x; bad_query; Sample.query_x] 0 50 = Ok results /\
    map fst results = [0%Z; 1%Z; 2%Z].
Proof.
  eexists. split; [vm_compute; reflexivity|].
  apply (@multi_search_keys Sample.lib Sample.two_files_glob Sample.two_files_open
           (lit "/r") [Sample.query_x; bad_query; Sample.query_x] 0 50).
  vm_compute. reflexivity.
Defined.

(** The glob of a query also gives a directory, which cannot be opened
    as a file. *)
Definition glob_with_dir (pattern : str) : list str :=
  [lit "/r/a.py"; lit "/r/pkg"; lit "/r/b.py"].

Lemma search_files_unreadable_witness :
  @search_files Sample.lib Sample.two_files_open
    ([lit "/r/a.py"] ++ lit "/r/pkg" :: [lit "/r/b.py"]) (lit "x") 0 50 []
  = Raise OSError \/
  (exists e', @search_files Sample.lib Sample.two_files_open
                ([lit "/r/a.py"] ++ lit "/r/pkg" :: [lit "/r/b.py"]) (lit "x") 0 50 []
              = Raise e') \/
  (exists ms, @search_files Sample.lib Sample.two_files_open
                ([lit "/r/a.py"] ++ lit "/r/pkg" :: [lit "/r/b.py"]) (lit "x") 0 50 []
              = Ok ms /\ (50 <= len ms)%Z).
Proof.
  eapply (@search_files_unreadable Sample.lib Sample.two_files_open (lit "x") _ 0 50
            [lit "/r/a.py"] (lit "/r/pkg") OSError [lit "/r/b.py"] []);
    reflexivity.
Defined.

(** The glob gives a directory first. *)
Definition dir_first_glob (pattern : str) : list str :=
  [lit "/r/pkg"; lit "/r/a.py"].

Lemma multi_search_unreadable_witness :
  @multi_search Sample.lib dir_first_glob Sample.two_files_open (lit "/r")
    [Sample.query_x; Sample.query_x] 0 50 = Raise OSError.
Proof.
  eapply (@multi_search_unreadable Sample.lib dir_first_glob Sample.two_files_open
            (lit "/r") Sample.query_x [Sample.query_x]); reflexivity.
Defined.

Lemma _grep_file_matches_witness :
  exists ms,
    @_grep_file Sample.lib Sample.two_files_open (lit "/r/b.py") (lit "x") 1 50
    = Ok ms /\
    Forall (match_ok (fun line => is_substring (lit "x") (Sample.ascii_lower line))
              (lit "/r/b.py") [[ch "x"; 10%N]; [ch "x"; 10%N]] 1) ms /\
    StronglySorted Z.lt (map Match.line ms).
Proof.
  apply (@_grep_file_matches Sample.lib Sample.two_files_open (lit "/r/b.py")
           (lit "x")); reflexivity.
Defined.

End SearcherMore.

(* ================================================================= *)
(** ** More on core/indexer.py *)

Module IndexerMore.
Import Indexer IndexerFacts.




Section IndexerMore.

Context {L : PyLib}.

Definition length_Z {A : Type} (l : list A) : Z := Z.of_nat (length l).

(** *** The cap on the number of files *)

Lemma visit_files_count root exts max_files max_bytes files : forall results count,
  count = length_Z results ->
  match visit_files root files exts max_files max_bytes results count with
  | Continue r c =>
      c = length_Z r /\ (length_Z r <= Z.max (length_Z results) max_files)%Z
  | Return r => (length_Z r <= Z.max (length_Z results) max_files)%Z
  end.
Proof.
  unfold length_Z.
  induction files as [|f files IH]; intros results count Hc; cbn [visit_files].
  - split; [exact Hc|lia].
  - destruct (count >=? max_files)%Z eqn:E; [lia|].
    rewrite Z.geb_leb in E. apply Z.leb_gt in E.
    destruct (getsize f) as [size|]; [|apply IH; exact Hc].
    destruct (_is_text_ext _ exts); cbn [negb]; [|apply IH; exact Hc].
    destruct (_read_head_tail f max_bytes) as [head tail].
    specialize (IH (results ++ [FileIndex.mk (join_components (root ++ [name f]))
                                  (str_lower (splitext_ext (name f))) size head tail])
                   (count + 1)%Z).
    rewrite length_app in IH. simpl length in IH.
    destruct (visit_files _ _ _ _ _ _ _); [|].
    + destruct IH as [IH1 IH2]; [lia|]. split; [exact IH1|lia].
    + assert (H := IH ltac:(lia)). lia.
Qed.

Lemma visit_dirs_count exts max_files max_bytes dirs : forall results count,
  count = length_Z results ->
  (length_Z (visit_dirs dirs exts max_files max_bytes results count)
   <= Z.max (length_Z results) max_files)%Z.
Proof.
  induction dirs as [|[root files] dirs IH]; intros results count Hc; cbn [visit_dirs].
  - lia.
  - pose proof (visit_files_count root exts max_files max_bytes files results count Hc) as H.
    destruct (visit_files root files exts max_files max_bytes results count)
      as [r c|r]; [|exact H].
    destruct H as [H1 H2]. specialize (IH r c H1). lia.
Qed.

(** The inventory holds at most [max_files] entries, and none when
    [max_files] is not positive. *)
Theorem build_inventory_cap repo exts max_files max_bytes :
  (length_Z (build_inventory repo exts max_files max_bytes) <= Z.max 0 max_files)%Z.
Proof.
  unfold build_inventory.
  apply (visit_dirs_count exts max_files max_bytes (walk repo) [] 0%Z). reflexivity.
Qed.

(** *** What is listed *)





(** *** The head and the tail of a file *)

(** For a readable file and a chunk size k = min(max_bytes, 8192): a
    file of at most k bytes gives its whole content as head and as tail; a
    longer one gives its first k and its last k bytes; [max_bytes = -1]
    gives the whole content as head and an empty tail; a smaller
    [max_bytes] makes the read raise, and both are empty. *)
Theorem _read_head_tail_chunks f data max_bytes :
  content f = Ok data ->
  let k := Z.min max_bytes 8192 in
  let size := Z.of_nat (length data) in
  ((0 <= k)%Z -> (size <= k)%Z ->
     _read_head_tail f max_bytes
     = (decode_utf8_ignore data, decode_utf8_ignore data)) /\
  ((0 <= k)%Z -> (k < size)%Z ->
     _read_head_tail f max_bytes
     = (decode_utf8_ignore (firstn (Z.to_nat k) data),
        decode_utf8_ignore (skipn (Z.to_nat (size - k)) data))) /\
  (k = (-1)%Z ->
     _read_head_tail f max_bytes
     = (decode_utf8_ignore data, decode_utf8_ignore [])) /\
  ((k < -1)%Z -> _read_head_tail f max_bytes = ([], [])).
Proof.
  intros Hc k size. unfold _read_head_tail. rewrite Hc. fold k. cbn [bind].
  fold size. unfold file_read. repeat split.
  - intros Hk Hs.
    destruct (k =? -1)%Z eqn:E1; [apply Z.eqb_eq in E1; lia|].
    destruct (k <? 0)%Z eqn:E; [apply Z.ltb_lt in E; lia|].
    cbn [bind Z.to_nat skipn].
    assert (Hh : firstn (Z.to_nat k) data = data)
      by (apply firstn_all2; unfold size in Hs; lia).
    rewrite Hh.
    destruct (size - k <? 0)%Z eqn:E2.
    + change (-1 =? -1)%Z with true. cbv iota. cbn [bind]. reflexivity.
    + apply Z.ltb_ge in E2. replace (size - k)%Z with 0%Z by lia.
      cbn [bind Z.to_nat skipn]. rewrite Hh. reflexivity.
  - intros Hk Hs.
    destruct (k =? -1)%Z eqn:E1; [apply Z.eqb_eq in E1; lia|].
    destruct (k <? 0)%Z eqn:E; [apply Z.ltb_lt in E; lia|].
    cbn [bind Z.to_nat skipn].
    destruct (size - k <? 0)%Z eqn:E2; [apply Z.ltb_lt in E2; lia|].
    cbn [bind]. f_equal. f_equal. apply firstn_all2.
    rewrite length_skipn. unfold size in *. lia.
  - intros Hk. rewrite Hk. change (-1 =? -1)%Z with true. cbv iota.
    cbn [bind Z.to_nat skipn].
    destruct (size - -1 <? 0)%Z eqn:E2; [apply Z.ltb_lt in E2; unfold size in E2; lia|].
    cbn [bind]. f_equal. f_equal. apply skipn_all2. unfold size. lia.
  - intros Hk.
    destruct (k =? -1)%Z eqn:E1; [apply Z.eqb_eq in E1; lia|].
    destruct (k <? 0)%Z eqn:E; [|apply Z.ltb_ge in E; lia].
    reflexivity.
Qed.

End IndexerMore.

(** A checkout with one three-byte Python file under [src]. *)
Definition abc_py : file :=
  mk_file (lit "a.py") (Ok 3%Z) (Ok [Byte.x61; Byte.x62; Byte.x63]).



Lemma _read_head_tail_chunks_witness :
  @_read_head_tail Sample.lib abc_py 2
  = (@decode_utf8_ignore Sample.lib [Byte.x61; Byte.x62],
     @decode_utf8_ignore Sample.lib [Byte.x62; Byte.x63]).
Proof.
  apply (proj1 (proj2 (@_read_head_tail_chunks Sample.lib abc_py
                         [Byte.x61; Byte.x62; Byte.x63] 2 eq_refl))).
  - vm_compute. discriminate.
  - vm_compute. reflexivity.
Defined.

End IndexerMore.

(* ================================================================= *)
(** ** More on core/llm.py *)

Module LlmMore.
Import Re Llm.

(** *** The search for [\{.*\}] *)

Lemma close_here s :
  match_here [One (is_char "}")] s
  = match s with
    | x :: t => if N.eqb x (ch "}") then Some ([], t) else None
    | [] => None
    end.
Proof. destruct s; reflexivity. Qed.

Lemma star_any_none post :
  forallb (not_char "}") post = true ->
  star_then (fun _ => true) (match_here [One (is_char "}")]) post = None.
Proof.
  induction post as [|x t IH]; intros H.
  - reflexivity.
  - cbn [forallb] in H. apply andb_prop in H. destruct H as [Hx Ht].
    cbn [star_then]. rewrite (IH Ht). rewrite close_here.
    unfold not_char in Hx. apply negb_true_iff in Hx. rewrite Hx. reflexivity.
Qed.

(** The greedy dot gives back characters down to the last closing brace. *)
Lemma star_any_last mid post :
  forallb (not_char "}") post = true ->
  star_then (fun _ => true) (match_here [One (is_char "}")]) (mid ++ ch "}" :: post)
  = Some (mid, ([], post)).
Proof.
  intros H. induction mid as [|x mid IH].
  - cbn [app star_then]. rewrite (star_any_none post H). rewrite close_here.
    rewrite N.eqb_refl. reflexivity.
  - cbn [app star_then]. rewrite IH. reflexivity.
Qed.

Lemma search_group0_here re s gs rest :
  match_here re s = Some (gs, rest) ->
  search_group0 re s = Some (firstn (length s - length rest) s).
Proof. intros H. destruct s; cbn [search_group0]; rewrite H; reflexivity. Qed.

Lemma search_group0_skip re x s :
  match_here re (x :: s) = None ->
  search_group0 re (x :: s) = search_group0 re s.
Proof. intros H. cbn [search_group0]. rewrite H. reflexivity. Qed.

Lemma brace_One c re x t :
  match_here (One c :: re) (x :: t) = if c x then match_here re t else None.
Proof. reflexivity. Qed.

Lemma brace_Star c re s :
  match_here (Star c :: re) s = option_map snd (star_then c (match_here re) s).
Proof. reflexivity. Qed.

Lemma brace_re_other x s :
  N.eqb x (ch "{") = false -> match_here brace_re (x :: s) = None.
Proof.
  intros H. unfold brace_re. rewrite brace_One. unfold is_char at 1.
  rewrite H. reflexivity.
Qed.

Lemma brace_re_open mid post :
  forallb (not_char "}") post = true ->
  match_here brace_re (ch "{" :: mid ++ ch "}" :: post) = Some ([], post).
Proof.
  intros H. unfold brace_re. rewrite brace_One. unfold is_char at 1.
  rewrite N.eqb_refl. rewrite brace_Star. rewrite (star_any_last mid post H).
  reflexivity.
Qed.

(** The leftmost match starts at the first opening brace and ends at the
    last closing brace. *)
Lemma search_brace pre mid post :
  forallb (not_char "{") pre = true ->
  forallb (not_char "}") post = true ->
  search_group0 brace_re (pre ++ ch "{" :: mid ++ ch "}" :: post)
  = Some (ch "{" :: mid ++ [ch "}"]).
Proof.
  intros Hpre Hpost. induction pre as [|x pre IH].
  - cbn [app]. rewrite (search_group0_here _ _ _ _ (brace_re_open mid post Hpost)).
    f_equal.
    replace (ch "{" :: mid ++ ch "}" :: post)
      with ((ch "{" :: mid ++ [ch "}"]) ++ post)
      by (cbn [app]; rewrite <- app_assoc; reflexivity).
    rewrite length_app, Nat.add_sub, firstn_app, firstn_all, Nat.sub_diag.
    cbn [firstn]. apply app_nil_r.
  - cbn [forallb] in Hpre. apply andb_prop in Hpre. destruct Hpre as [Hx Hpre].
    unfold not_char in Hx. apply negb_true_iff in Hx.
    cbn [app]. rewrite search_group0_skip by (apply brace_re_other; exact Hx).
    exact (IH Hpre).
Qed.

Lemma search_no_open text :
  forallb (not_char "{") text = true -> search_group0 brace_re text = None.
Proof.
  induction text as [|x t IH]; intros H.
  - reflexivity.
  - cbn [forallb] in H. apply andb_prop in H. destruct H as [Hx Ht].
    unfold not_char in Hx. apply negb_true_iff in Hx.
    rewrite search_group0_skip by (apply brace_re_other; exact Hx).
    exact (IH Ht).
Qed.

(** *** Validation of lists of items *)

Lemma map_result_raises {A B : Type} (f : A -> result B) l x e :
  In x l -> f x = Raise e -> exists e', map_result f l = Raise e'.
Proof.
  induction l as [|y l IH]; intros Hin Hf; [destruct Hin|].
  cbn [map_result]. destruct Hin as [->|Hin].
  - rewrite Hf. exists e. reflexivity.
  - destruct (f y) as [b|e0]; cbn [bind]; [|exists e0; reflexivity].
    destruct (IH Hin Hf) as [e' ->]. exists e'. reflexivity.
Qed.

Section LlmMore.

Context {L : PyLib}.
Variable api_key : option str.



(** Without a credential (the variable unset or empty) no function of
    the module answers: each raises [RuntimeError], whatever the service
    would have replied. *)
Theorem missing_api_key_raises inventory matches_map snippet method raw_path
    (r : reply) :
  api_key = None \/ api_key = Some [] ->
  gemini_json api_key r = Raise RuntimeError /\
  plan_search api_key inventory r = Raise RuntimeError /\
  extract_routes api_key matches_map r = Raise RuntimeError /\
  enrich_route api_key snippet method raw_path r = Raise RuntimeError.
Proof.
  intros [-> | ->]; repeat split; reflexivity.
Qed.

Lemma gemini_json_recovers_eq k ks pre mid post e :
  api_key = Some (k :: ks) ->
  forallb (not_char "{") pre = true ->
  forallb (not_char "}") post = true ->
  json_loads (pre ++ ch "{" :: mid ++ ch "}" :: post) = Raise e ->
  gemini_json api_key (Ok (Some (pre ++ ch "{" :: mid ++ ch "}" :: post)))
  = json_loads (ch "{" :: mid ++ [ch "}"]).
Proof.
  intros -> Hpre Hpost Hj. unfold gemini_json. cbn [_ensure_client bind].
  pose proof (search_brace pre mid post Hpre Hpost) as Hs.
  destruct (pre ++ ch "{" :: mid ++ ch "}" :: post) as [|x t] eqn:E.
  - destruct pre; discriminate E.
  - rewrite Hj, Hs. reflexivity.
Qed.

(** A reply that is not JSON as a whole but holds an opening brace
    before a closing one is decoded from its first opening brace to its
    last closing brace; the result, or the error, of that second decoding
    is the outcome. *)
Theorem gemini_json_recovers k ks pre mid post e :
  api_key = Some (k :: ks) ->
  forallb (not_char "{") pre = true ->
  forallb (not_char "}") post = true ->
  json_loads (pre ++ ch "{" :: mid ++ ch "}" :: post) = Raise e ->
  gemini_json api_key (Ok (Some (pre ++ ch "{" :: mid ++ ch "}" :: post)))
  = json_loads (ch "{" :: mid ++ [ch "}"]).
Proof. exact (gemini_json_recovers_eq k ks pre mid post e). Qed.

(** A reply without an opening brace that is not JSON makes
    [gemini_json] raise the decoder's error. *)
Theorem gemini_json_no_brace k ks text e :
  api_key = Some (k :: ks) ->
  text <> [] ->
  forallb (not_char "{") text = true ->
  json_loads text = Raise e ->
  gemini_json api_key (Ok (Some text)) = Raise e.
Proof.
  intros -> Ht Hb Hj. unfold gemini_json. cbn [_ensure_client bind].
  destruct text as [|x t]; [congruence|].
  rewrite Hj, (search_no_open _ Hb). reflexivity.
Qed.

(** C2: [enrich_route] does raise on a failure to parse the reply. The
    handler that gives the all-null enrichment stands around the
    validation only, and the call of [gemini_json] stands before it: with
    a credential set, a failure of the service, a reply without an opening
    brace that is not JSON, and a reply whose text from the first opening
    brace to the last closing brace is not JSON either, each make
    [enrich_route] raise the error met, where the specification has it
    return the enrichment with all fields null. *)
Theorem enrich_route_parse_failure snippet method raw_path k ks :
  api_key = Some (k :: ks) ->
  (forall e, enrich_route api_key snippet method raw_path (Raise e) = Raise e) /\
  (forall text e,
     text <> [] ->
     forallb (not_char "{") text = true ->
     json_loads text = Raise e ->
     enrich_route api_key snippet method raw_path (Ok (Some text)) = Raise e) /\
  (forall pre mid post e e',
     forallb (not_char "{") pre = true ->
     forallb (not_char "}") post = true ->
     json_loads (pre ++ ch "{" :: mid ++ ch "}" :: post) = Raise e ->
     json_loads (ch "{" :: mid ++ [ch "}"]) = Raise e' ->
     enrich_route api_key snippet method raw_path
       (Ok (Some (pre ++ ch "{" :: mid ++ ch "}" :: post))) = Raise e').
Proof.
  intros Hk. split; [|split].
  - intros e. unfold enrich_route, gemini_json. rewrite Hk. reflexivity.
  - intros text e Ht Hb Hj. unfold enrich_route.
    rewrite (gemini_json_no_brace k ks text e Hk Ht Hb Hj). reflexivity.
  - intros pre mid post e e' Hpre Hpost Hj Hj'. unfold enrich_route.
    rewrite (gemini_json_recovers_eq k ks pre mid post e Hk Hpre Hpost Hj), Hj'.
    reflexivity.
Qed.

(** A reply with no text, or with an empty text, stands for the empty
    object: the outcome is that of decoding [{}]. *)
Theorem gemini_json_empty_text k ks :
  api_key = Some (k :: ks) ->
  gemini_json api_key (Ok None) = json_loads (lit "{}") /\
  gemini_json api_key (Ok (Some [])) = json_loads (lit "{}").
Proof.
  intros ->. unfold gemini_json. cbn [_ensure_client bind].
  change (search_group0 brace_re (lit "{}")) with (Some (lit "{}")).
  destruct (json_loads (lit "{}")) as [v|e] eqn:E; rewrite ?E; split; reflexivity.
Qed.


(** [plan_search] is all or nothing: one entry of [searches] that does
    not validate as a query makes the whole call raise. *)
Theorem plan_search_strict inventory (r : reply) d items item e :
  gemini_json api_key r = Ok (VDict d) ->
  dict_get d (lit "searches") = Some (VList items) ->
  In item items ->
  new_SearchQuery item = Raise e ->
  exists e', plan_search api_key inventory r = Raise e'.
Proof.
  intros Hg Hs Hin He. unfold plan_search. rewrite Hg. cbn [bind raw_get].
  rewrite Hs. cbn [bind iterate].
  destruct (map_result_raises new_SearchQuery items item e Hin He) as [e' ->].
  exists e'. reflexivity.
Qed.

(** A decoded object without [searches] and without [frameworks] gives
    the empty plan; a decoded value that is not an object makes
    [plan_search] raise [AttributeError]. *)
Theorem plan_search_defaults inventory (r : reply) raw :
  gemini_json api_key r = Ok raw ->
  (forall d, raw = VDict d ->
     dict_get d (lit "searches") = None ->
     dict_get d (lit "frameworks") = None ->
     plan_search api_key inventory r = Ok (SearchPlan.mk [] [])) /\
  ((forall d, raw <> VDict d) ->
     plan_search api_key inventory r = Raise AttributeError).
Proof.
  intros Hg. unfold plan_search. rewrite Hg. cbn [bind]. split.
  - intros d -> Hs Hf. cbn [raw_get]. rewrite Hs, Hf. reflexivity.
  - intros Hn. destruct raw; try reflexivity. destruct (Hn _ eq_refl).
Qed.

End LlmMore.

Lemma missing_api_key_raises_witness :
  @gemini_json Sample.lib None (Ok (Some (lit "{}"))) = Raise RuntimeError /\
  @plan_search Sample.lib None [] (Ok (Some (lit "{}"))) = Raise RuntimeError /\
  @extract_routes Sample.lib None [] (Ok (Some (lit "{}"))) = Raise RuntimeError /\
  @enrich_route Sample.lib None Sample.some_snippet (lit "get") (lit "/a")
    (Ok (Some (lit "{}"))) = Raise RuntimeError.
Proof.
  apply (@missing_api_key_raises Sample.lib None). left. reflexivity.
Defined.

(** The service answers [oops]. *)
Lemma enrich_route_parse_failure_witness :
  @enrich_route Sample.lib (Some (lit "key")) Sample.some_snippet
    (lit "get") (lit "/a") (Ok (Some (lit "oops")))
  = Raise JSONDecodeError.
Proof.
  apply (proj1 (proj2 (@enrich_route_parse_failure Sample.lib (Some (lit "key"))
                         Sample.some_snippet (lit "get") (lit "/a")
                         (ch "k") (lit "ey") eq_refl))
           (lit "oops") JSONDecodeError); try reflexivity.
  discriminate.
Defined.

(** The service wraps the object in prose. *)
Lemma gemini_json_recovers_witness :
  @gemini_json Sample.lib (Some (lit "key"))
    (Ok (Some (lit "Here: " ++ ch "{" :: [] ++ ch "}" :: lit " done")))
  = @json_loads Sample.lib (ch "{" :: [] ++ [ch "}"]) /\
  @json_loads Sample.lib (ch "{" :: [] ++ [ch "}"]) = Ok (VDict []).
Proof.
  split; [|reflexivity].
  apply (@gemini_json_recovers Sample.lib (Some (lit "key")) (ch "k") (lit "ey")
           (lit "Here: ") [] (lit " done") JSONDecodeError); reflexivity.
Defined.

Lemma gemini_json_no_brace_witness :
  @gemini_json Sample.lib (Some (lit "key")) (Ok (Some (lit "oops")))
  = Raise JSONDecodeError.
Proof.
  apply (@gemini_json_no_brace Sample.lib (Some (lit "key")) (ch "k") (lit "ey")
           (lit "oops") JSONDecodeError); try reflexivity.
  discriminate.
Defined.

Lemma gemini_json_empty_text_witness :
  @gemini_json Sample.lib (Some (lit "key")) (Ok None) = Ok (VDict []) /\
  @gemini_json Sample.lib (Some (lit "key")) (Ok (Some [])) = Ok (VDict []).
Proof.
  apply (@gemini_json_empty_text Sample.lib (Some (lit "key")) (ch "k") (lit "ey")).
  reflexivity.
Defined.


Definition quoted (s : string) : str := Searcher.quote ++ lit s ++ Searcher.quote.

Definition one_route_text : str :=
  lit "[{" ++ quoted "method" ++ lit ": " ++ quoted "get" ++ lit ", "
  ++ quoted "raw_path" ++ lit ": " ++ quoted "/a" ++ lit ", "
  ++ quoted "file" ++ lit ": " ++ quoted "app.py" ++ lit ", "
  ++ quoted "line" ++ lit ": 3, "
  ++ quoted "evidence" ++ lit ": [" ++ quoted "app.get" ++ lit "]}, 7]".


(** A plan whose second query lacks its [why]. *)
Definition good_query : value :=
  VDict [(lit "regex", VStr (lit "x")); (lit "why", VStr (lit "lines with x"))].

Definition bad_query : value := VDict [(lit "regex", VStr (lit "x"))].

Definition plan_text : str :=
  lit "{" ++ quoted "searches" ++ lit ": [{"
  ++ quoted "regex" ++ lit ": " ++ quoted "x" ++ lit ", "
  ++ quoted "why" ++ lit ": " ++ quoted "lines with x" ++ lit "}, {"
  ++ quoted "regex" ++ lit ": " ++ quoted "x" ++ lit "}]}".

Lemma plan_search_strict_witness :
  new_SearchQuery good_query
  = Ok (SearchQuery.mk (lit "x") (lit "**/*") (lit "lines with x")) /\
  exists e', @plan_search Sample.lib (Some (lit "key")) [] (Ok (Some plan_text))
             = Raise e'.
Proof.
  split; [reflexivity|].
  apply (@plan_search_strict Sample.lib (Some (lit "key")) [] (Ok (Some plan_text))
           [(lit "searches", VList [good_query; bad_query])]
           [good_query; bad_query] bad_query ValidationError).
  - vm_compute. reflexivity.
  - reflexivity.
  - right. left. reflexivity.
  - reflexivity.
Defined.

Lemma plan_search_defaults_witness :
  (forall d, VDict [] = VDict d ->
     dict_get d (lit "searches") = None ->
     dict_get d (lit "frameworks") = None ->
     @plan_search Sample.lib (Some (lit "key")) [] (Ok (Some (lit "{}")))
     = Ok (SearchPlan.mk [] [])) /\
  ((forall d, VDict [] <> VDict d) ->
     @plan_search Sample.lib (Some (lit "key")) [] (Ok (Some (lit "{}")))
     = Raise AttributeError).
Proof.
  apply (@plan_search_defaults Sample.lib (Some (lit "key")) []
           (Ok (Some (lit "{}"))) (VDict [])).
  reflexivity.
Defined.

End LlmMore.

(* ================================================================= *)
(** ** More on core/gitops.py *)

Module GitopsMore.
Import Gitops.

(** The base name is what follows the last slash. *)
Lemma basename_last dir base :
  existsb (N.eqb (ch "/")) base = false ->
  basename (dir ++ ch "/" :: base) = base.
Proof.
  intros H. induction dir as [|x dir IH].
  - cbn [app basename]. rewrite H, N.eqb_refl. reflexivity.
  - cbn [app basename].
    replace (existsb (N.eqb (ch "/")) (dir ++ ch "/" :: base)) with true; [exact IH|].
    symmetry. rewrite existsb_app. cbn [existsb]. rewrite N.eqb_refl.
    apply orb_true_r.
Qed.

Lemma ends_with_app stem suffix : ends_with suffix (stem ++ suffix) = true.
Proof.
  unfold ends_with. rewrite length_app, Nat.add_sub.
  rewrite skipn_app, skipn_all, Nat.sub_diag. cbn [app skipn].
  rewrite DictFacts.str_eqb_refl. apply Nat.leb_le. lia.
Qed.

Lemma py_slice_to_drop {A : Type} (stem suffix : list A) :
  (0 < length suffix)%nat ->
  py_slice_to (stem ++ suffix) (- Z.of_nat (length suffix)) = stem.
Proof.
  intros Hs. unfold py_slice_to, py_slice, slice_index. rewrite length_app.
  change (0 <? 0)%Z with false. cbv iota.
  destruct (- Z.of_nat (length suffix) <? 0)%Z eqn:E;
    [|apply Z.ltb_ge in E; lia].
  rewrite Z.max_l by lia. rewrite Z.min_l by lia.
  change (Z.to_nat 0) with 0%nat. cbn [skipn].
  replace (Z.to_nat (- Z.of_nat (length suffix)
                     + Z.of_nat (length stem + length suffix) - 0))
    with (length stem) by lia.
  rewrite firstn_app, firstn_all, Nat.sub_diag. cbn [firstn]. apply app_nil_r.
Qed.

Section GitopsMore.

Context {L : PyLib}.

(** When the path of the URL ends in [/base], the repository name is
    [base] without a final [.git], and [base] itself when it does not end
    in [.git]; a path that ends in a slash gives the empty name. *)
Theorem repo_name_from_url_base repo_url dir base :
  urlparse_path repo_url = dir ++ ch "/" :: base ->
  existsb (N.eqb (ch "/")) base = false ->
  (forall stem, base = stem ++ lit ".git" -> repo_name_from_url repo_url = stem) /\
  (ends_with (lit ".git") base = false -> repo_name_from_url repo_url = base) /\
  (base = [] -> repo_name_from_url repo_url = []).
Proof.
  intros Hp Hb. unfold repo_name_from_url. rewrite Hp, (basename_last dir base Hb).
  split; [|split].
  - intros stem ->. rewrite ends_with_app.
    apply (py_slice_to_drop stem (lit ".git")). simpl. lia.
  - intros ->. reflexivity.
  - intros ->. reflexivity.
Qed.

End GitopsMore.

Lemma repo_name_from_url_base_witness :
  @repo_name_from_url Sample.lib (lit "https://github.com/o/demo.git") = lit "demo".
Proof.
  apply (proj1 (@repo_name_from_url_base Sample.lib
                  (lit "https://github.com/o/demo.git") (lit "/o") (lit "demo.git")
                  eq_refl eq_refl) (lit "demo")).
  reflexivity.
Defined.

End GitopsMore.

(* ================================================================= *)
(** ** More on app.py *)

Module AppMore.
Import App.

Lemma len_py_slice_to {A : Type} (l : list A) (b : Z) :
  len (py_slice_to l b) = slice_index (len l) b.
Proof.
  unfold py_slice_to, py_slice, len.
  assert (H0 : slice_index (Z.of_nat (length l)) 0 = 0%Z).
  { unfold slice_index. change (0 <? 0)%Z with false. cbv iota. lia. }
  rewrite H0. change (Z.to_nat 0) with 0%nat. cbn [skipn].
  rewrite length_firstn. unfold slice_index.
  destruct (b <? 0)%Z eqn:E; [apply Z.ltb_lt in E|apply Z.ltb_ge in E]; lia.
Qed.

Section AppMore.

Context {L : PyLib}.
Variable w : World.

Lemma merge_all_count repo_dir routes : forall i spec merged spec' merged',
  merge_all w repo_dir routes i spec merged = Ok (spec', merged') ->
  merged' = (merged + len routes)%Z.
Proof.
  induction routes as [|r routes IH]; intros i spec merged spec' merged' H;
    cbn [merge_all] in H.
  - injection H as _ <-. unfold len. simpl. lia.
  - destruct (merge_one w repo_dir r i spec) as [s|]; [|discriminate].
    cbn [bind] in H. apply IH in H. unfold len in *. simpl length. lia.
Qed.

(** What a response says about the inventory and the routes. *)
Lemma generate_routes req resp :
  generate w req = Ok resp ->
  exists repo_dir matches routes,
    clone_repo w (GenerateRequest.repo_url req) = Ok repo_dir /\
    Llm.extract_routes (api_key w) matches (llm_reply w 1) = Ok routes /\
    GenerateResponse.status resp = lit "ok" /\
    GenerateResponse.routes_found resp = len routes /\
    GenerateResponse.skipped resp
    = [(lit "files", 0%Z);
       (lit "routes",
        (len routes
         - len (py_slice_to routes
                  (GenerateOptions.max_routes (GenerateRequest.options req))))%Z)] /\
    Report.routes_sample (GenerateResponse.report resp) = py_slice_to routes 10 /\
    Report.inventory_count (GenerateResponse.report resp)
    = len (Indexer.build_inventory (repo_tree w repo_dir)
             (GenerateOptions.exts (GenerateRequest.options req))
             (GenerateOptions.max_files (GenerateRequest.options req))
             (GenerateOptions.max_bytes_per_file (GenerateRequest.options req))) /\
    (4 <= len (GenerateResponse.notes resp) <= 5)%Z.
Proof.
  unfold generate.
  destruct (clone_repo w (GenerateRequest.repo_url req)) as [repo_dir|] eqn:C;
    [|discriminate]. cbn [bind].
  destruct (Llm.plan_search _ _ _) as [plan|] eqn:P; [|discriminate]. cbn [bind].
  destruct (search_rounds w repo_dir plan _) as [[used matches]|] eqn:S;
    [|discriminate]. cbn [bind fst snd].
  destruct (Llm.extract_routes _ _ _) as [routes|] eqn:R; [|discriminate].
  cbn [bind].
  destruct (merge_all _ _ _ _ _ _) as [[spec merged]|] eqn:M; [|discriminate].
  cbn [bind fst snd].
  match goal with
  | |- bind ?c _ = _ -> _ => destruct c as [[spec' notes]|] eqn:V; [|discriminate]
  end.
  cbn [bind fst snd].
  destruct (Spec.export_spec _ _ _) as [spec_path|]; [|discriminate]. cbn [bind].
  intros [= <-]. exists repo_dir, matches, routes.
  apply merge_all_count in M. rewrite Z.add_0_l in M. subst merged.
  split; [reflexivity|]. split; [exact R|].
  cbn [GenerateResponse.status GenerateResponse.routes_found
       GenerateResponse.skipped GenerateResponse.report GenerateResponse.notes
       Report.routes_sample Report.inventory_count].
  split; [reflexivity|]. split; [reflexivity|]. split.
  - do 3 f_equal.
    pose proof (len_py_slice_to routes
                  (GenerateOptions.max_routes (GenerateRequest.options req))) as Hl.
    unfold slice_index in Hl.
    destruct (GenerateOptions.max_routes (GenerateRequest.options req) <? 0)%Z
      eqn:E; [apply Z.ltb_lt in E|apply Z.ltb_ge in E]; unfold len in *; lia.
  - split; [reflexivity|]. split; [reflexivity|].
    assert (Hn : notes = [] \/ exists n, notes = [n]).
    { destruct (fst (Spec.validate_openapi spec)).
      - injection V as _ <-. left. reflexivity.
      - destruct (Spec._downgrade_schemas spec) as [s2|]; [|discriminate V].
        cbn [bind] in V.
        destruct (fst (Spec.validate_openapi s2)); injection V as _ <-;
          right; eexists; reflexivity. }
    destruct Hn as [->|[n ->]]; unfold len; simpl; lia.
Qed.

(** In every response, [routes_found] is the number of extracted routes
    and the number of skipped files is 0. The number of skipped routes is
    the number of routes beyond the first [max_routes] when [max_routes]
    is not negative; with a negative [max_routes] = -k, the last k routes
    (all of them when there are fewer) are the ones skipped. *)
Theorem post_generate_skipped req resp :
  post_generate w req = Response resp ->
  exists matches routes,
    Llm.extract_routes (api_key w) matches (llm_reply w 1) = Ok routes /\
    GenerateResponse.routes_found resp = len routes /\
    let max_routes := GenerateOptions.max_routes (GenerateRequest.options req) in
    ((0 <= max_routes)%Z ->
       GenerateResponse.skipped resp
       = [(lit "files", 0%Z); (lit "routes", Z.max 0 (len routes - max_routes))]) /\
    ((max_routes < 0)%Z ->
       GenerateResponse.skipped resp
       = [(lit "files", 0%Z); (lit "routes", Z.min (len routes) (- max_routes))]).
Proof.
  unfold post_generate. destruct (generate w req) as [r|e] eqn:G; [|discriminate].
  intros [= ->].
  destruct (generate_routes req resp G)
    as (repo_dir & matches & routes & _ & R & _ & F & K & _).
  exists matches, routes. split; [exact R|]. split; [exact F|].
  cbv zeta. rewrite K, len_py_slice_to. unfold slice_index.
  split; intros H.
  - destruct (_ <? 0)%Z eqn:E; [apply Z.ltb_lt in E; lia|].
    do 3 f_equal. unfold len. lia.
  - destruct (_ <? 0)%Z eqn:E; [|apply Z.ltb_ge in E; lia].
    do 3 f_equal. unfold len. lia.
Qed.

(** In every response the status is [ok], the inventory count is at
    most [max_files] (0 when [max_files] is negative), the sample of
    routes holds the first ten routes at most, the number of skipped
    routes lies between 0 and [routes_found], and there are four notes or
    five. *)
Theorem post_generate_bounds req resp :
  post_generate w req = Response resp ->
  GenerateResponse.status resp = lit "ok" /\
  (0 <= Report.inventory_count (GenerateResponse.report resp)
     <= Z.max 0 (GenerateOptions.max_files (GenerateRequest.options req)))%Z /\
  len (Report.routes_sample (GenerateResponse.report resp))
  = Z.min (GenerateResponse.routes_found resp) 10 /\
  (exists n, GenerateResponse.skipped resp = [(lit "files", 0%Z); (lit "routes", n)] /\
             (0 <= n <= GenerateResponse.routes_found resp)%Z) /\
  (4 <= len (GenerateResponse.notes resp) <= 5)%Z.
Proof.
  unfold post_generate. destruct (generate w req) as [r|e] eqn:G; [|discriminate].
  intros [= ->].
  destruct (generate_routes req resp G)
    as (repo_dir & matches & routes & _ & _ & St & F & K & Sm & I & N).
  split; [exact St|]. split; [|split; [|split; [|exact N]]].
  - rewrite I. split; [unfold len; lia|].
    exact (IndexerMore.visit_dirs_count _ _ _ _ [] 0%Z eq_refl).
  - rewrite Sm, F, len_py_slice_to. unfold slice_index.
    change (10 <? 0)%Z with false. cbv iota. unfold len. lia.
  - eexists. split; [exact K|]. rewrite F, len_py_slice_to. unfold slice_index.
    destruct (_ <? 0)%Z eqn:E; [apply Z.ltb_lt in E|apply Z.ltb_ge in E];
      unfold len; lia.
Qed.

(** Without a credential every request whose clone succeeds is answered
    with status 500 carrying [RuntimeError]; a request whose clone fails
    is answered with status 500 carrying the error of the clone. *)
Theorem post_generate_no_key req :
  api_key w = None \/ api_key w = Some [] ->
  (forall repo_dir, clone_repo w (GenerateRequest.repo_url req) = Ok repo_dir ->
     post_generate w req = HTTPException 500 RuntimeError) /\
  (forall e, clone_repo w (GenerateRequest.repo_url req) = Raise e ->
     post_generate w req = HTTPException 500 e).
Proof.
  intros Hk. unfold post_generate, generate. split.
  - intros repo_dir ->. cbn [bind].
    replace (Llm.plan_search (api_key w) _ (llm_reply w 0))
      with (@Raise SearchPlan.t RuntimeError); [reflexivity|].
    destruct Hk as [-> | ->]; reflexivity.
  - intros e ->. reflexivity.
Qed.

End AppMore.

(** A service that reports one route (and a number, which is dropped),
    for a request that allows no route to be merged. *)
Definition one_route_world : World :=
  mk_world
    (fun _ => Ok (lit "/tmp/ai-openapi-0"))
    (fun _ => [])
    (fun _ => [])
    (fun _ => Raise OSError)
    (Some (lit "key"))
    (fun n => match n with
              | O => Ok (Some (lit "{}"))
              | S _ => Ok (Some LlmMore.one_route_text)
              end)
    (fun _ _ => Ok tt).

Definition no_routes_request : GenerateRequest.t :=
  GenerateRequest.mk (lit "https://github.com/o/demo.git")
    (GenerateOptions.mk 3 200 0 20 None 200000 None).

Lemma post_generate_skipped_witness :
  exists resp,
    @post_generate Sample.lib one_route_world no_routes_request = Response resp /\
    GenerateResponse.routes_found resp = 1%Z /\
    GenerateResponse.skipped resp = [(lit "files", 0%Z); (lit "routes", 1%Z)] /\
    exists matches routes,
      @Llm.extract_routes Sample.lib (api_key one_route_world) matches
        (llm_reply one_route_world 1) = Ok routes /\
      GenerateResponse.routes_found resp = len routes /\
      let max_routes :=
        GenerateOptions.max_routes (GenerateRequest.options no_routes_request) in
      ((0 <= max_routes)%Z ->
         GenerateResponse.skipped resp
         = [(lit "files", 0%Z); (lit "routes", Z.max 0 (len routes - max_routes))]) /\
      ((max_routes < 0)%Z ->
         GenerateResponse.skipped resp
         = [(lit "files", 0%Z); (lit "routes", Z.min (len routes) (- max_routes))]).
Proof.
  eexists. split; [vm_compute; reflexivity|].
  split; [reflexivity|]. split; [reflexivity|].
  apply (@post_generate_skipped Sample.lib one_route_world no_routes_request).
  vm_compute. reflexivity.
Defined.

Lemma post_generate_bounds_witness :
  exists resp,
    @post_generate Sample.lib one_route_world no_routes_request = Response resp /\
    GenerateResponse.status resp = lit "ok" /\
    (0 <= Report.inventory_count (GenerateResponse.report resp)
       <= Z.max 0 (GenerateOptions.max_files
                     (GenerateRequest.options no_routes_request)))%Z /\
    len (Report.routes_sample (GenerateResponse.report resp))
    = Z.min (GenerateResponse.routes_found resp) 10 /\
    (exists n,
       GenerateResponse.skipped resp = [(lit "files", 0%Z); (lit "routes", n)] /\
       (0 <= n <= GenerateResponse.routes_found resp)%Z) /\
    (4 <= len (GenerateResponse.notes resp) <= 5)%Z.
Proof.
  eexists. split; [vm_compute; reflexivity|].
  apply (@post_generate_bounds Sample.lib one_route_world no_routes_request).
  vm_compute. reflexivity.
Defined.

(** The same service without the credential in the environment. *)
Definition no_key_world : World :=
  mk_world
    (fun _ => Ok (lit "/tmp/ai-openapi-0"))
    (fun _ => [])
    (fun _ => [])
    (fun _ => Raise OSError)
    None
    (fun _ => Ok (Some (lit "{}")))
    (fun _ _ => Ok tt).

Lemma post_generate_no_key_witness :
  @post_generate Sample.lib no_key_world Sample.some_request
  = HTTPException 500 RuntimeError.
Proof.
  apply (proj1 (@post_generate_no_key Sample.lib no_key_world Sample.some_request
                  (or_introl eq_refl)) (lit "/tmp/ai-openapi-0")).
  reflexivity.
Defined.

End AppMore.

(* ================================================================= *)
(** ** Properties of GetDocs/openapi_to_mintlify_html.py *)

Module GetDocsFacts.
Import Re ReFacts DictFacts Spec SpecFacts GetDocs.

(** Removing the braces is a filter. *)
Lemma sub_braces s :
  sub braces_re [] s = filter (fun c => negb (brace_class c)) s.
Proof.
  induction s as [|x t IH].
  - apply sub_nil. apply consuming_One.
  - cbn [filter]. destruct (brace_class x) eqn:E; cbn [negb].
    + rewrite (sub_hit braces_re [] (x :: t) [] t).
      * rewrite IH. reflexivity.
      * apply consuming_One.
      * unfold braces_re. cbn [match_here]. rewrite E. reflexivity.
    + rewrite sub_miss; [rewrite IH; reflexivity|].
      unfold braces_re. cbn [match_here]. rewrite E. reflexivity.
Qed.

(** The characters a slug's path part never holds. *)
Definition slug_char (c : N) : bool :=
  negb (N.eqb c (ch "/")) && negb (N.eqb c (ch "{")) && negb (N.eqb c (ch "}")).

Lemma dash_braces_slug s :
  forallb slug_char (dash_slashes (filter (fun c => negb (brace_class c)) s)) = true.
Proof.
  induction s as [|x t IH]; [reflexivity|].
  cbn [filter]. unfold brace_class at 1.
  destruct (N.eqb x (ch "{")) eqn:E1; cbn [orb negb]; [exact IH|].
  destruct (N.eqb x (ch "}")) eqn:E2; cbn [negb]; [exact IH|].
  cbn [dash_slashes map forallb]. fold (dash_slashes (filter (fun c => negb (brace_class c)) t)).
  rewrite IH, andb_true_r.
  destruct (N.eqb x (ch "/")) eqn:E3.
  - reflexivity.
  - unfold slug_char. rewrite E1, E2, E3. reflexivity.
Qed.

Lemma drop_while_all f s : forallb f s = true -> drop_while f s = [].
Proof.
  induction s as [|x t IH]; [reflexivity|].
  cbn [forallb drop_while]. intros H. apply andb_prop in H. destruct H as [-> H].
  exact (IH H).
Qed.

Lemma rstrip_by_snoc f s c : f c = true -> rstrip_by f (s ++ [c]) = rstrip_by f s.
Proof.
  intros Hc. induction s as [|x t IH].
  - cbn [app rstrip_by]. rewrite Hc. reflexivity.
  - cbn [app rstrip_by]. rewrite IH. reflexivity.
Qed.

Lemma drop_while_snoc f s c :
  f c = true ->
  drop_while f (s ++ [c]) = drop_while f s ++ [c] \/
  (drop_while f (s ++ [c]) = [] /\ drop_while f s = []).
Proof.
  intros Hc. induction s as [|x t IH].
  - right. cbn [app drop_while]. rewrite Hc. split; reflexivity.
  - cbn [app drop_while]. destruct (f x); [exact IH|]. left. reflexivity.
Qed.

Lemma strip_slashes_around s :
  strip_slashes (ch "/" :: s) = strip_slashes s /\
  strip_slashes (s ++ [ch "/"]) = strip_slashes s.
Proof.
  unfold strip_slashes. split; [reflexivity|].
  destruct (drop_while_snoc (is_char "/") s (ch "/") eq_refl) as [->|[-> ->]].
  - apply rstrip_by_snoc. reflexivity.
  - reflexivity.
Qed.

Section GetDocsFacts.

Context {L : PyLib}.

(** A slug is the lower-cased method, a dash, and a non-empty text
    holding no slash and no brace. *)
Theorem slugify_shape method path :
  exists clean,
    slugify method path = str_lower method ++ ch "-" :: clean /\
    clean <> [] /\
    forallb slug_char clean = true.
Proof.
  unfold slugify. rewrite sub_braces.
  pose proof (dash_braces_slug (strip_slashes path)) as H.
  destruct (dash_slashes _) as [|x t].
  - exists (lit "root"). repeat split. discriminate.
  - exists (x :: t). repeat split; [discriminate|exact H].
Qed.

(** A path made of slashes only (the empty path and [/] among them)
    gets the slug of the method followed by [-root]. *)
Theorem slugify_root method path :
  forallb (is_char "/") path = true ->
  slugify method path = str_lower method ++ lit "-root".
Proof.
  intros H. unfold slugify, strip_slashes. rewrite (drop_while_all _ _ H).
  reflexivity.
Qed.

(** Slashes around the path do not show in the slug: a path, the path
    after a slash and the path before a slash get the same slug. *)
Theorem slugify_ignores_outer_slashes method path :
  slugify method (ch "/" :: path) = slugify method path /\
  slugify method (path ++ [ch "/"]) = slugify method path.
Proof.
  unfold slugify. destruct (strip_slashes_around path) as [-> ->].
  split; reflexivity.
Qed.

Lemma dict_get_in (d : dict) k v : dict_get d k = Some v -> In (k, v) d.
Proof.
  induction d as [|[k0 v0] d IH]; cbn [dict_get]; [discriminate|].
  destruct (str_eqb k0 k) eqn:E.
  - apply str_eqb_eq in E. intros [= ->]. left. congruence.
  - intros H. right. exact (IH H).
Qed.

(** An operation stored in a document under an HTTP method is listed,
    with the method in upper case. *)
Lemma list_operations_lookup spec path method op :
  document spec ->
  lookup_operation spec path method = Some (VDict op) ->
  Indexer.str_in (str_lower method) METHODS = true ->
  exists ops, list_operations spec = Ok ops /\ In (str_upper method, path) ops.
Proof.
  intros (p & Hs & Hd) Hl Hm. unfold list_operations. rewrite Hs.
  eexists. split; [reflexivity|].
  unfold lookup_operation in Hl. rewrite Hs in Hl. unfold ops_at in Hl.
  destruct (dict_get p path) as [[| | | | | |o]|] eqn:Hp; try discriminate Hl.
  apply in_flat_map. exists (path, VDict o). split; [exact (dict_get_in _ _ _ Hp)|].
  cbn [fst snd item_operations]. apply in_flat_map.
  exists (method, VDict op). split; [exact (dict_get_in _ _ _ Hl)|].
  cbn [fst snd isinstance_dict]. rewrite Hm. left. reflexivity.
Qed.

(** What the assembler merges, the documentation tool lists: after a
    route is merged into a document, the operations listed from the
    result hold the route's path with its method in upper case, when the
    lower-cased method is an HTTP method. *)
Theorem list_operations_merged spec route path m :
  document spec ->
  dict_get route (lit "path") = Some (VStr path) ->
  dict_get route (lit "method") = Some (VStr m) ->
  Indexer.str_in (str_lower (str_lower m)) METHODS = true ->
  exists spec' ops,
    merge_route spec route = Ok spec' /\
    list_operations spec' = Ok ops /\
    In (str_upper (str_lower m), path) ops.
Proof.
  intros Hd Hp Hm HM.
  destruct (merge_route_document spec route path m Hp Hm Hd)
    as (spec' & E & Hd' & _ & K).
  destruct (list_operations_lookup spec' path (str_lower m) _ Hd' K HM)
    as (ops & Ho & Hin).
  exists spec', ops. split; [exact E|]. split; [exact Ho|exact Hin].
Qed.

(** The errors and the empty cases of the listing: a document without
    [paths] lists nothing; a [paths] entry that is not a mapping raises
    [AttributeError]; a path whose item is not a mapping, and a method
    that is not an HTTP method, contribute nothing. *)
Theorem list_operations_skips spec :
  (dict_get spec (lit "paths") = None -> list_operations spec = Ok []) /\
  (forall v, dict_get spec (lit "paths") = Some v -> isinstance_dict v = false ->
     list_operations spec = Raise AttributeError) /\
  (forall paths ops M path,
     dict_get spec (lit "paths") = Some (VDict paths) ->
     list_operations spec = Ok ops ->
     In (M, path) ops ->
     exists item method op,
       In (path, VDict item) paths /\ In (method, VDict op) item /\
       Indexer.str_in (str_lower method) METHODS = true /\
       M = str_upper method).
Proof.
  unfold list_operations. repeat split.
  - intros ->. reflexivity.
  - intros v -> Hv. destruct v; try reflexivity. discriminate Hv.
  - intros paths ops M path -> [= <-] Hin.
    apply in_flat_map in Hin. destruct Hin as ([p item] & Hp & Hin).
    cbn [fst snd] in Hin.
    destruct item as [| | | | | |item]; cbn [item_operations] in Hin;
      try contradiction.
    apply in_flat_map in Hin.
    destruct Hin as ([method op] & Hm & Hin). cbn [fst snd] in Hin.
    destruct (Indexer.str_in (str_lower method) METHODS) eqn:HM;
      cbn [andb] in Hin; [|contradiction].
    destruct op as [| | | | | |op]; cbn [isinstance_dict] in Hin;
      try contradiction.
    destruct Hin as [[= <- <-]|[]].
    exists item, method, op. repeat split; assumption.
Qed.

End GetDocsFacts.

Lemma slugify_root_witness :
  @slugify Sample.lib (lit "GET") (lit "/") = lit "get-root".
Proof.
  apply (@slugify_root Sample.lib (lit "GET") (lit "/")). reflexivity.
Defined.

Lemma list_operations_merged_witness :
  exists spec' ops,
    @merge_route Sample.lib Sample.skeleton Sample.route_upper = Ok spec' /\
    @list_operations Sample.lib spec' = Ok ops /\
    In (lit "GET", lit "/a") ops.
Proof.
  apply (@list_operations_merged Sample.lib Sample.skeleton Sample.route_upper
           (lit "/a") (lit "GET")); try reflexivity.
  apply skeleton_document.
Defined.

End GetDocsFacts.
